(** * Session server of the two-player tic-tac-toe game (server.py)

    A shallow embedding of the room directory, the relay primitives, the
    turn engine and the win evaluator of [server.py], followed by the
    properties of the written specification that were checked against it.

    Conventions of the embedding.
    - A socket object is a [conn] (a natural number standing for the identity
      of the object); [conn in lst] and [r is turn_conn] are equality of
      identities.
    - Text received from a socket is the already decoded [str]; only the
      ASCII range is modelled.
    - Every call of [conn.send] and [conn.close] is recorded, in program
      order, in a list of [action]s.  A recorded [Send] is a call of
      [send]; whether the operating system delivers it is not part of the
      model.
    - The outcome of a [send] that the program does not wrap in
      [contextlib.suppress] decides the control flow; it is an explicit
      input of the operation that performs it.
    - What the sockets deliver while a turn is awaited is an explicit list of
      [event]s consumed by the wait loop of [get_input]: each event is one
      pass of that loop, that is one call of [select] and the reads of the
      sockets it returns.  A spectator that joins meanwhile does so between
      two passes.
    - A socket on which [close] has been called stays closed: [select] on a
      list that holds it raises, and so does [recv] on it. *)

From Stdlib Require Import ZArith Ascii String DecimalString DecimalPos DecimalZ Lia.
From stdpp Require Import base option list gmap strings.

Local Open Scope string_scope.
Local Open Scope list_scope.

(** ** Python string primitives used by the server *)

Module PyStr.

(** [str.isspace] on the ASCII range: TAB..CR, FS..US and the space. *)
Definition is_space (a : ascii) : bool :=
  let n := nat_of_ascii a in
  ((9 <=? n) && (n <=? 13) || (28 <=? n) && (n <=? 32))%nat.

(** The blanks skipped by [int(...)] around the digits (C [isspace]). *)
Definition is_c_space (a : ascii) : bool :=
  let n := nat_of_ascii a in
  ((9 <=? n) && (n <=? 13) || (n =? 32))%nat.

Fixpoint lstrip (f : ascii → bool) (s : string) : string :=
  match s with
  | EmptyString => EmptyString
  | String a r => if f a then lstrip f r else s
  end.

Fixpoint rstrip (f : ascii → bool) (s : string) : string :=
  match s with
  | EmptyString => EmptyString
  | String a r =>
      match rstrip f r with
      | EmptyString => if f a then EmptyString else String a EmptyString
      | r' => String a r'
      end
  end.

(** [s.strip()] *)
Definition strip (s : string) : string := rstrip is_space (lstrip is_space s).

(** [s.count(c)] for a one-character [c]. *)
Fixpoint count (c : ascii) (s : string) : nat :=
  match s with
  | EmptyString => 0
  | String a r => (if Ascii.eqb a c then 1 else 0) + count c r
  end.

(** [s.partition(c)] for a one-character [c]: the text before the first
    [c] and the text after it; the whole of [s] and the empty string when
    [c] does not occur. *)
Fixpoint partition (c : ascii) (s : string) : string * string :=
  match s with
  | EmptyString => (EmptyString, EmptyString)
  | String a r =>
      if Ascii.eqb a c then (EmptyString, r)
      else let '(u, v) := partition c r in (String a u, v)
  end.

(** [s.startswith(p)] *)
Fixpoint startswith (p s : string) : bool :=
  match p, s with
  | EmptyString, _ => true
  | String a p', String b s' => Ascii.eqb a b && startswith p' s'
  | String _ _, EmptyString => false
  end.

(** [s[n:]] *)
Fixpoint drop (n : nat) (s : string) : string :=
  match n, s with
  | O, _ => s
  | S n', String _ r => drop n' r
  | S _, EmptyString => EmptyString
  end.

(** [s.upper()] on the ASCII range. *)
Definition upper_char (a : ascii) : ascii :=
  let n := nat_of_ascii a in
  if ((97 <=? n) && (n <=? 122))%nat then ascii_of_nat (n - 32) else a.

Fixpoint upper (s : string) : string :=
  match s with
  | EmptyString => EmptyString
  | String a r => String (upper_char a) (upper r)
  end.

Definition digit (a : ascii) : option Z :=
  let n := nat_of_ascii a in
  if ((48 <=? n) && (n <=? 57))%nat then Some (Z.of_nat (n - 48)) else None.

(** The digits of a decimal literal: at least one digit, and single
    underscores allowed between two digits.  [acc] is the value read so
    far, [after_digit] tells whether the previous character was a digit. *)
Fixpoint digits (acc : Z) (after_digit : bool) (s : string) : option Z :=
  match s with
  | EmptyString => if after_digit then Some acc else None
  | String a r =>
      match digit a with
      | Some d => digits (10 * acc + d)%Z true r
      | None =>
          if Ascii.eqb a "_" && after_digit then digits acc false r else None
      end
  end.

(** [int(s)] in base ten: [None] stands for the [ValueError]. *)
Definition int (s : string) : option Z :=
  let body := rstrip is_c_space (lstrip is_c_space s) in
  match body with
  | String "-" r => Z.opp <$> digits 0 false r
  | String "+" r => digits 0 false r
  | _ => digits 0 false body
  end.

(** [str(n)] for an [int]. *)
Definition of_Z (n : Z) : string := NilZero.string_of_int (Z.to_int n).

(** [sep.join(l)] *)
Fixpoint join (sep : string) (l : list string) : string :=
  match l with
  | [] => EmptyString
  | [s] => s
  | s :: rest => s +:+ sep +:+ join sep rest
  end.

(** [str(l)] for a list whose items print with [f]. *)
Definition of_list {A} (f : A → string) (l : list A) : string :=
  "[" +:+ join ", " (f <$> l) +:+ "]".

End PyStr.

(** ** Board and win evaluator *)

Definition PLAYER_ONE : Z := 1.
Definition PLAYER_TWO : Z := 2.

(** The value of [room["matrix"]]: a list of rows, each a list of integers. *)
Abbreviation board := (list (list Z)).

Definition empty_board : board := [[0; 0; 0]; [0; 0; 0]; [0; 0; 0]]%Z.

(** Position designated by the subscript [i] in a list of length [len]:
    Python counts negative subscripts from the end and raises [IndexError]
    ([None]) outside [-len .. len-1]. *)
Definition py_index (len : nat) (i : Z) : option nat :=
  if (0 <=? i)%Z && (i <? Z.of_nat len)%Z then Some (Z.to_nat i)
  else if (- Z.of_nat len <=? i)%Z && (i <? 0)%Z then Some (Z.to_nat (Z.of_nat len + i))
  else None.

(** [m[x][y] = v] *)
Definition set_cell (m : board) (x y v : Z) : option board :=
  i ← py_index (length m) x;
  row ← m !! i;
  j ← py_index (length row) y;
  Some (<[i := <[j := v]> row]> m).

(** [m[i][j]] for literal subscripts. *)
Definition cell (m : board) (i j : nat) : option Z :=
  row ← m !! i; row !! j.

(** The chained comparison [a == b == c != 0]; the third operand is only
    evaluated when the first comparison holds. *)
Definition chain3 (a b : Z) (c : option Z) : option bool :=
  if (a =? b)%Z then c' ← c; Some ((b =? c')%Z && negb (c' =? 0)%Z)
  else Some false.

Fixpoint check_rows (m : board) : option Z :=
  match m with
  | [] => Some 0%Z
  | row :: rest =>
      a ← row !! 0%nat;
      b ← row !! 1%nat;
      t ← chain3 a b (row !! 2%nat);
      if (t : bool) then Some a else check_rows rest
  end.

Fixpoint check_columns_in (m : board) (range : list nat) : option Z :=
  match range with
  | [] => Some 0%Z
  | i :: rest =>
      a ← cell m 0 i;
      b ← cell m 1 i;
      t ← chain3 a b (cell m 2 i);
      if (t : bool) then cell m 0 i else check_columns_in m rest
  end.

Definition check_columns (m : board) : option Z :=
  check_columns_in m (seq 0 3).

Definition check_diagonals (m : board) : option Z :=
  a ← cell m 0 0;
  b ← cell m 1 1;
  t ← chain3 a b (cell m 2 2);
  if (t : bool) then cell m 0 0
  else
    a' ← cell m 0 2;
    b' ← cell m 1 1;
    t' ← chain3 a' b' (cell m 2 0);
    if (t' : bool) then cell m 0 2 else Some 0%Z.

(** [x or y] on integers, with [y] evaluated only when [x] is zero. *)
Definition py_or (x : option Z) (y : option Z) : option Z :=
  v ← x; if (v =? 0)%Z then y else Some v.

Definition check_winner (m : board) : option Z :=
  py_or (check_rows m) (py_or (check_columns m) (check_diagonals m)).

(** [str(room["matrix"])] *)
Definition str_matrix (m : board) : string :=
  PyStr.of_list (PyStr.of_list PyStr.of_Z) m.

(** ** Rooms and the relay *)

(** Identity of a socket object. *)
Definition conn := nat.

(** Remote address [(host, port)]; only printed by the server. *)
Definition addr := (string * nat)%type.

Record room := Room {
  code : string;
  players : list conn;
  addrs : list addr;
  spectators : list conn;
  matrix : board;
}.

Definition with_spectators (l : list conn) (r : room) : room :=
  Room (code r) (players r) (addrs r) l (matrix r).

Definition with_matrix (m : board) (r : room) : room :=
  Room (code r) (players r) (addrs r) (spectators r) m.

(** [room["players"].append(c); room["addrs"].append(a)] *)
Definition add_player (c : conn) (a : addr) (r : room) : room :=
  Room (code r) (players r ++ [c]) (addrs r ++ [a]) (spectators r) (matrix r).

(** What the server does to the outside, in program order:
    [Send c text] is a call [c.send(text.encode())], [Close c] a call
    [c.close()], [Spawn code] the start of a thread running
    [start_game_for_room(code)]. *)
Inductive action :=
| Send (c : conn) (text : string)
| Close (c : conn)
| Spawn (room_code : string).

Definition room_conns_all (r : room) : list conn :=
  players r ++ spectators r.

(** Every [send] is under [contextlib.suppress]: a failing connection does
    not stop the loop. *)
Definition send_to_all (r : room) (text : string) : list action :=
  (λ c, Send c text) <$> room_conns_all r.

Definition send_to_players (r : room) (text : string) : list action :=
  (λ c, Send c text) <$> players r.

Definition send_common_msg (r : room) (text : string) : list action :=
  send_to_all r text.

(** [lst.index(c)]: position of the first occurrence, [None] when absent. *)
Fixpoint index (c : conn) (l : list conn) : option nat :=
  match l with
  | [] => None
  | c' :: rest => if (c' =? c)%nat then Some 0%nat else S <$> index c rest
  end.

(** [lst.remove(c)]: drops the first occurrence. *)
Fixpoint remove (c : conn) (l : list conn) : list conn :=
  match l with
  | [] => []
  | c' :: rest => if (c' =? c)%nat then rest else c' :: remove c rest
  end.

Definition str_nat (n : nat) : string := PyStr.of_Z (Z.of_nat n).

(** [conn in lst] is [index conn lst] being defined, so that the two tests
    and the two calls of [index] of the source are the two matches here. *)
Definition get_sender_label (r : room) (c : conn) : string :=
  match index c (players r) with
  | Some idx => "Player" +:+ str_nat (idx + 1)
  | None =>
      match index c (spectators r) with
      | Some idx => "spec_" +:+ str_nat (idx + 1)
      | None => "Unknown"
      end
  end.

Definition broadcast_chat (r : room) (origin_conn : conn) (text : string)
  : list action :=
  send_to_all r ("CHAT:" +:+ get_sender_label r origin_conn +:+ ":" +:+ text).

(** ** Spectator registration on a room object

    The part of [join_as_spectator] that works on the room once it has been
    looked up or created.  [nsent] is the number of the three sends
    (role notice, board sentinel, board) that succeed before one raises;
    three or more means that none raises. *)
Definition spectate_room (r : room) (c : conn) (nsent : nat)
  : room * list action :=
  let r1 := with_spectators (spectators r ++ [c]) r in
  let msgs := ["<<< You are spectator >>>"; "Matrix"; str_matrix (matrix r1)] in
  if (3 <=? nsent)%nat then (r1, Send c <$> msgs)
  else (with_spectators (remove c (spectators r1)) r1,
        (Send c <$> take (S nsent) msgs) ++ [Close c]).

(** ** The turn engine: [get_input] *)

(** What a socket of the list returned by [select] delivers when the [for]
    loop reaches it. *)
Inductive reading :=
| Data (c : conn) (data : string)
    (** [c.recv] returns [data]; the empty string is the read of a closed
        stream *)
| Broken (c : conn)
    (** [c.recv] raises *).

(** What one pass of the wait loop can meet: one call of [select] and the
    [for] loop over the sockets it returns. *)
Inductive event :=
| Recv (c : conn) (data : string)
    (** [select] returns the single socket [c] and [c.recv] returns
        [data]: the pass [Select [Data c data]] *)
| Fault
    (** [select] raises *)
| Timeout
    (** [select] returns no socket *)
| Spectate (c : conn) (nsent : nat)
    (** the accepting thread runs [join_as_spectator] on this room while
        the engine waits in [select]; the newcomer is not in the snapshot
        [sockets] taken before *)
| Select (readable : list reading)
    (** [select] returns the sockets of [readable], in this order, and the
        [for] loop reads them one after the other *).

(** Reading of a text as a move, lines 122 to 128. *)
Inductive move_text :=
| NotMove                 (** not exactly one comma: falls through to chat *)
| BadCoords               (** [int] raised: [continue] *)
| Coords (x y : Z).

Definition move_of_text (text : string) : move_text :=
  if (PyStr.count "," text =? 1)%nat then
    let '(xs, ys) := PyStr.partition "," text in
    match PyStr.int xs, PyStr.int ys with
    | Some x, Some y => Coords x y
    | _, _ => BadCoords
    end
  else NotMove.

(** A committed move: the mark written and the subscripts received. *)
Record move := Move { mark : Z; row : Z; col : Z }.

(** The sockets closed by the actions recorded in [out]. *)
Definition closed_in (out : list action) : list conn :=
  omap (λ x, match x with Close c => Some c | _ => None end) out.

(** State of the wait loop: the room, the snapshot [sockets] handed to
    [select], and the sockets closed so far. *)
Record wstate := WState {
  w_room : room;
  sockets : list conn;
  closed : list conn;
}.

Definition mem (c : conn) (l : list conn) : bool :=
  if index c l is Some _ then true else false.

(** [select.select(sockets, ...)] raises when a member of [sockets] has
    been closed. *)
Definition select_raises (w : wstate) : bool :=
  negb (forallb (λ s, negb (mem s (closed w))) (sockets w)).

(** The call of [select] made in the state [w] can return the socket [c]:
    it does not raise, and it only returns members of [sockets]. *)
Definition select_reports (w : wstate) (c : conn) : bool :=
  mem c (sockets w) && forallb (λ s, negb (mem s (closed w))) (sockets w).

(** What the body of the [for] loop does with one socket. *)
Inductive read :=
| Next (w : wstate) (out : list action)
    (** a [continue] or the end of the body: the loop goes on with the next
        socket of the same list *)
| Raise
    (** an exception reaches the handler of line 144: the pass is over *)
| Commit (r : room) (out : list action) (mv : move)
    (** the [return] of line 133 *).

Inductive step :=
| Continue (w : wstate) (out : list action)
| Return (r : room) (out : list action) (mv : move).

Definition is_empty (s : string) : bool :=
  match s with EmptyString => true | _ => false end.

(** The body of the [for] loop, lines 103 to 142, for a socket [c] whose
    [recv] has returned [data].  A subscript that [set_cell] refuses is the
    [IndexError] of line 130. *)
Definition recv_step (current_player : Z) (turn_conn : conn)
    (w : wstate) (c : conn) (data : string) : read :=
  let r := w_room w in
  if is_empty data then
    if mem c (spectators r) then
      let r' := with_spectators (remove c (spectators r)) r in
      Next (WState r' (room_conns_all r') (closed w)) []
    else if mem c (players r) then
      Next (WState r (room_conns_all r) (c :: closed w)) [Close c]
    else Next (WState r (room_conns_all r) (closed w)) []
  else
    let text := PyStr.strip data in
    match (if (c =? turn_conn)%nat then move_of_text text else NotMove) with
    | Coords x y =>
        match set_cell (matrix r) x y current_player with
        | Some m' =>
            let r' := with_matrix m' r in
            Commit r'
              (send_to_all r' "Matrix" ++ send_to_all r' (str_matrix m'))
              (Move current_player x y)
        | None => Raise
        end
    | BadCoords => Next w []
    | NotMove =>
        if PyStr.startswith "CHAT:" text then
          Next w (broadcast_chat r c (PyStr.strip (PyStr.drop 5 text)))
        else Next w []
    end.

(** One socket of the list that [select] returned for the snapshot
    [reported].  A socket outside [reported] is not in that list; the model
    passes over it.  [recv] on a socket that has been closed raises. *)
Definition read_step (current_player : Z) (turn_conn : conn)
    (reported : list conn) (w : wstate) (rd : reading) : read :=
  match rd with
  | Data c data =>
      if negb (mem c reported) then Next w []
      else if mem c (closed w) then Raise
      else recv_step current_player turn_conn w c data
  | Broken c => if negb (mem c reported) then Next w [] else Raise
  end.

(** The [for] loop of line 102 over the list [readable] that [select]
    returned for the snapshot [reported]; [out] is what the pass has sent
    and closed so far.  The list is not computed again when the body
    assigns [sockets]. *)
Fixpoint for_readable (current_player : Z) (turn_conn : conn)
    (reported : list conn) (w : wstate) (out : list action)
    (readable : list reading) : step :=
  match readable with
  | [] => Continue w out
  | rd :: rest =>
      match read_step current_player turn_conn reported w rd with
      | Next w' o =>
          for_readable current_player turn_conn reported w' (out ++ o) rest
      | Raise => Continue w out
      | Commit r o mv => Return r (out ++ o) mv
      end
  end.

(** How the pass stands after a single read. *)
Definition step_of (w : wstate) (x : read) : step :=
  match x with
  | Next w' out => Continue w' out
  | Raise => Continue w []
  | Commit r out mv => Return r out mv
  end.

(** Lines 101 and 102: the call of [select] on the snapshot and the [for]
    loop over the list [readable] it returns.  When [select] raises, the
    handler of line 144 makes the loop start over. *)
Definition select_pass (current_player : Z) (turn_conn : conn)
    (w : wstate) (readable : list reading) : step :=
  if select_raises w then Continue w []
  else for_readable current_player turn_conn (sockets w) w [] readable.

(** One pass of the [while] loop, lines 97 to 148.  The snapshot always
    holds the two players, so the branch of line 98 for an empty snapshot
    is not taken.  A newcomer that [join_as_spectator] cannot talk to is
    closed by the accepting thread. *)
Definition wait_step (current_player : Z) (turn_conn : conn)
    (w : wstate) (e : event) : step :=
  match e with
  | Fault | Timeout => Continue w []
  | Spectate c nsent =>
      let '(r', out) := spectate_room (w_room w) c nsent in
      Continue (WState r' (sockets w) (closed_in out ++ closed w)) out
  | Recv c data => select_pass current_player turn_conn w [Data c data]
  | Select readable => select_pass current_player turn_conn w readable
  end.

(** How a call of [get_input] stands when the given events are used up. *)
Inductive input_result :=
| Returned (r : room) (out : list action) (mv : option move) (rest : list event)
| Blocked (r : room) (out : list action).

Definition prepend (out : list action) (res : input_result) : input_result :=
  match res with
  | Returned r o mv rest => Returned r (out ++ o) mv rest
  | Blocked r o => Blocked r (out ++ o)
  end.

Fixpoint wait_loop (current_player : Z) (turn_conn : conn)
    (w : wstate) (evs : list event) : input_result :=
  match evs with
  | [] => Blocked (w_room w) []
  | e :: rest =>
      match wait_step current_player turn_conn w e with
      | Continue w' out => prepend out (wait_loop current_player turn_conn w' rest)
      | Return r out mv => Returned r out (Some mv) rest
      end
  end.

(** [get_input(room, current_player)].  [shut] holds the sockets closed
    before the call; [prompt_ok] is the outcome of the send of the turn
    prompt. *)
Definition get_input (r : room) (current_player : Z) (shut : list conn)
    (prompt_ok : bool) (evs : list event) : input_result :=
  match players r with
  | p0 :: p1 :: _ =>
      let turn_conn := if (current_player =? PLAYER_ONE)%Z then p0 else p1 in
      let turn_label :=
        if (current_player =? PLAYER_ONE)%Z then "Player One's Turn"
        else "Player Two's Turn" in
      let out := send_to_all r turn_label ++ [Send turn_conn "Input"] in
      if prompt_ok then
        prepend out
          (wait_loop current_player turn_conn
             (WState r (room_conns_all r) shut) evs)
      else Returned r (out ++ [Send turn_conn "Error"]) None evs
  | _ => Returned r [] None evs
  end.

(** ** The turn engine: [start_game_for_room] *)

(** Local variables of the thread, with two records kept for the
    statements below: everything sent and closed so far, and the moves
    committed so far, each with the value of [turn_count] during which it was
    committed. *)
Record engine := Engine {
  e_room : room;
  result : Z;
  turn_count : nat;
  e_out : list action;
  e_moves : list (nat * move);
}.

Inductive loop_exit :=
| Exit (st : engine)           (** the [while] condition is false *)
| Waiting (st : engine)        (** the events end inside a wait loop *)
| Raised (st : engine)         (** an exception leaves the thread *)
| OutOfFuel (st : engine).

Definition current_of (turn_count : nat) : Z :=
  if (turn_count mod 2 =? 0)%nat then PLAYER_ONE else PLAYER_TWO.

Definition logged (tc : nat) (mv : option move) : list (nat * move) :=
  match mv with Some m => [(tc, m)] | None => [] end.

(** The [while] loop, lines 176 to 180.  [prompt_ok k] is the outcome of the
    prompt send of the iteration entered with [turn_count = k].  A socket
    closed in one call of [get_input] is still closed in the next. *)
Fixpoint game_loop (fuel : nat) (prompt_ok : nat → bool) (st : engine)
    (evs : list event) : loop_exit :=
  if (result st =? 0)%Z && (turn_count st <? 9)%nat then
    match fuel with
    | O => OutOfFuel st
    | S fuel' =>
        let current := current_of (turn_count st) in
        match get_input (e_room st) current (closed_in (e_out st))
                (prompt_ok (turn_count st)) evs with
        | Blocked r out =>
            Waiting (Engine r (result st) (turn_count st) (e_out st ++ out)
                       (e_moves st))
        | Returned r out mv rest =>
            match check_winner (matrix r) with
            | None =>
                Raised (Engine r (result st) (turn_count st) (e_out st ++ out)
                          (e_moves st ++ logged (turn_count st) mv))
            | Some res =>
                game_loop fuel' prompt_ok
                  (Engine r res (S (turn_count st)) (e_out st ++ out)
                     (e_moves st ++ logged (turn_count st) mv))
                  rest
            end
        end
    end
  else Exit st.

Definition lastmsg (result : Z) : string :=
  if (result =? PLAYER_ONE)%Z then "Player One is the winner!!"
  else if (result =? PLAYER_TWO)%Z then "Player Two is the winner!!"
  else "Draw game!! Try again later!".

(** Lines 182 to 198 on the room as the loop left it. *)
Definition game_over (r : room) (result : Z) : list action :=
  send_common_msg r "Over" ++ send_common_msg r (lastmsg result)
  ++ (Close <$> (players r ++ spectators r)).

Inductive outcome :=
| Finished (rooms : gmap string room) (st : engine)
| Unfinished (why : loop_exit)
| KeyError.

(** [start_game_for_room(code)] run on the directory [rooms].  The thread
    works on the room object it looked up; the only other writer of that
    object while the game runs is [join_as_spectator], which is the
    [Spectate] event, so the directory is next written when the room is
    popped. *)
Definition start_game_for_room (rooms : gmap string room) (code : string)
    (prompt_ok : nat → bool) (evs : list event) : outcome :=
  match rooms !! code with
  | None => KeyError
  | Some r =>
      match game_loop 9 prompt_ok (Engine r 0 0 [] []) evs with
      | Exit st =>
          Finished (delete code rooms)
            (Engine (e_room st) (result st) (turn_count st)
               (e_out st ++ game_over (e_room st) (result st)) (e_moves st))
      | other => Unfinished other
      end
  end.

(** ** The room directory and the connection intake *)

Definition new_room (code : string) (ps : list conn) (ads : list addr) : room :=
  Room code ps ads [] empty_board.

(** Result of a join: the directory, what was sent and closed, and whether
    the call returned ([false]: its [send] raised and the exception left the
    function). *)
Record joined := Joined {
  dir : gmap string room;
  acts : list action;
  returned : bool;
}.

(** [join_room(conn, addr, code)]; [send_ok] is the outcome of its one
    [send]. *)
Definition join_room (rooms : gmap string room) (c : conn) (a : addr)
    (code : string) (send_ok : bool) : joined :=
  match rooms !! code with
  | None =>
      Joined (<[code := new_room code [c] [a]]> rooms)
        [Send c "<<< You are player 1 >>>"] send_ok
  | Some r =>
      if (length (players r) =? 1)%nat then
        Joined (<[code := add_player c a r]> rooms)
          (Send c "<<< You are player 2 >>>"
             :: (if send_ok then [Spawn code] else []))
          send_ok
      else
        Joined rooms
          (Send c "Room Full" :: (if send_ok then [Close c] else []))
          send_ok
  end.

(** [join_as_spectator(conn, addr, code)]; its sends are inside [try], so
    it always returns. *)
Definition join_as_spectator (rooms : gmap string room) (c : conn) (a : addr)
    (code : string) (nsent : nat) : gmap string room * list action :=
  let r := default (new_room code [] []) (rooms !! code) in
  let '(r', out) := spectate_room r c nsent in
  (<[code := r']> rooms, out).

(** The handshake line split as in lines 275 to 278. *)
Definition handshake (first : string) : string * string :=
  let '(verb, code) := PyStr.partition " " (PyStr.strip first) in
  (PyStr.strip (PyStr.upper verb), PyStr.upper (PyStr.strip code)).

(** One turn of the accept loop of [start_server] on a connection whose
    first message decodes to [first].  [nsent]: number of sends of this
    handshake that succeed before one raises.  An exception is caught by the
    handler of line 290, which closes the connection. *)
Definition start_server_iter (rooms : gmap string room) (c : conn) (a : addr)
    (first : string) (nsent : nat) : gmap string room * list action :=
  let '(verb, code) := handshake first in
  if negb (String.eqb verb "ROOM" || String.eqb verb "SPECTATE")
     || is_empty code
  then (rooms, [Send c "Protocol Error"; Close c])
  else if String.eqb verb "ROOM" then
    let j := join_room rooms c a code (0 <? nsent)%nat in
    (dir j, acts j ++ (if returned j then [] else [Close c]))
  else join_as_spectator rooms c a code nsent.

(** A sequence of handshakes served one after the other from a given
    directory. *)
Record arrival := Arrival {
  a_conn : conn;
  a_addr : addr;
  a_first : string;
  a_nsent : nat;
}.

Fixpoint serve (rooms : gmap string room) (l : list arrival)
  : gmap string room * list action :=
  match l with
  | [] => (rooms, [])
  | x :: rest =>
      let '(rooms1, out1) :=
        start_server_iter rooms (a_conn x) (a_addr x) (a_first x) (a_nsent x) in
      let '(rooms2, out2) := serve rooms1 rest in
      (rooms2, out1 ++ out2)
  end.

(** ** The win evaluator as the specification words it

    The eight lines in the order of priority of the specification: the three
    rows, the three columns, the main diagonal, the other diagonal. *)
Definition line := list (nat * nat).

Definition winning_lines : list line :=
  [ [(0, 0); (0, 1); (0, 2)]; [(1, 0); (1, 1); (1, 2)]; [(2, 0); (2, 1); (2, 2)];
    [(0, 0); (1, 0); (2, 0)]; [(0, 1); (1, 1); (2, 1)]; [(0, 2); (1, 2); (2, 2)];
    [(0, 0); (1, 1); (2, 2)]; [(0, 2); (1, 1); (2, 0)] ]%nat.

(** Line [l] holds three times the non-empty mark [v]. *)
Definition completes (m : board) (l : line) (v : Z) : Prop :=
  v ≠ 0%Z ∧ ∀ i j, (i, j) ∈ l → cell m i j = Some v.

(** The mark completing [l], when there is one. *)
Definition line_mark (m : board) (l : line) : option Z :=
  match l with
  | (i, j) :: rest =>
      v ← cell m i j;
      if negb (v =? 0)%Z
         && forallb (λ p, bool_decide (cell m p.1 p.2 = Some v)) rest
      then Some v else None
  | [] => None
  end.

(** Specification side: the mark of the first completed line of [ls], and
    0 when none is completed. *)
Fixpoint first_mark (m : board) (ls : list line) : Z :=
  match ls with
  | [] => 0%Z
  | l :: rest =>
      match line_mark m l with
      | Some v => v
      | None => first_mark m rest
      end
  end.

Definition winner_by_lines (m : board) : Z := first_mark m winning_lines.

(** Shape of the board the server creates and keeps. *)
Definition board_3x3 (m : board) : Prop :=
  length m = 3%nat ∧ Forall (λ r, length r = 3%nat) m.

(** The test [a == b == c != 0] on three values. *)
Definition tri (a b c : Z) : bool :=
  (a =? b)%Z && (b =? c)%Z && negb (c =? 0)%Z.

(** ** Notions used to state the properties of the directory *)

(** The players seated in the room of a code; none when there is no room. *)
Definition seated (rooms : gmap string room) (code : string) : list conn :=
  match rooms !! code with Some r => players r | None => [] end.

Definition is_spawn (code : string) (x : action) : bool :=
  match x with Spawn c => String.eqb c code | _ => false end.

(** Number of engine threads started for [code] in a record of actions. *)
Definition count_spawn (code : string) (out : list action) : nat :=
  length (filter (λ x, is_spawn code x = true) out).

(** ** Sample inputs *)

Definition board_two_lines : board := [[1; 2; 2]; [1; 2; 1]; [1; 2; 0]]%Z.

Definition host (c : conn) : addr := ("10.0.0.1", (5000 + c)%nat).

Definition arrive (c : conn) (first : string) (nsent : nat) : arrival :=
  Arrival c (host c) first nsent.

(** Two players in room ABC, nobody else. *)
Definition two_players : gmap string room :=
  (serve ∅ [arrive 1 "ROOM abc" 1; arrive 2 "ROOM abc" 1]).1.

(** Room ABC with player 1, then spectators 7 and 8, then player 2. *)
Definition with_two_spectators : gmap string room :=
  (serve ∅ [arrive 1 "ROOM abc" 1; arrive 7 "SPECTATE abc" 3;
            arrive 8 "SPECTATE abc" 3; arrive 2 "ROOM abc" 1]).1.

(** A directory in which only a spectator has named room ABC. *)
Definition spectator_only : gmap string room :=
  (serve ∅ [arrive 7 "SPECTATE abc" 3]).1.

Definition always (_ : nat) : bool := true.

(** The room ABC of [with_two_spectators]. *)
Definition room_abc : room :=
  Room "ABC" [1; 2]%nat [host 1; host 2] [7; 8]%nat empty_board.

(** Room ABC after player one has taken the top-left corner. *)
Definition room_corner_taken : room :=
  with_matrix [[1; 0; 0]; [0; 0; 0]; [0; 0; 0]]%Z room_abc.

Definition waiting_on (r : room) : wstate := WState r (room_conns_all r) [].

(** ** Notions used to state the properties of the engine *)

(** An action of the game phase: anything but a send of the game-over
    sentinel. *)
Definition not_over (x : action) : Prop :=
  match x with Send _ t => t ≠ "Over" | _ => True end.

(** One iteration of the [while] loop of the engine that runs to its end:
    [get_input] returns and the evaluator gives a verdict. *)
Definition iteration (prompt_ok : nat → bool) (st st' : engine) : Prop :=
  result st = 0%Z ∧ (turn_count st < 9)%nat
  ∧ ∃ evs r out mv rest res,
      get_input (e_room st) (current_of (turn_count st))
        (closed_in (e_out st)) (prompt_ok (turn_count st)) evs
      = Returned r out mv rest
      ∧ check_winner (matrix r) = Some res
      ∧ st' = Engine r res (S (turn_count st)) (e_out st ++ out)
                (e_moves st ++ logged (turn_count st) mv).

(** The engine stands inside the wait loop of the iteration entered in
    state [st0]. *)
Definition blocked_in (prompt_ok : nat → bool) (st0 st' : engine) : Prop :=
  result st0 = 0%Z ∧ (turn_count st0 < 9)%nat
  ∧ ∃ evs r out,
      get_input (e_room st0) (current_of (turn_count st0))
        (closed_in (e_out st0)) (prompt_ok (turn_count st0)) evs
      = Blocked r out
      ∧ st' = Engine r (result st0) (turn_count st0) (e_out st0 ++ out)
                (e_moves st0).

Definition mover (r : room) (turn_count : nat) : conn :=
  match players r with
  | p0 :: p1 :: _ => if (current_of turn_count =? PLAYER_ONE)%Z then p0 else p1
  | _ => 0%nat
  end.


(** The state of the engine a run of the loop ends in. *)
Definition final_state (x : loop_exit) : engine :=
  match x with
  | Exit st | Waiting st | Raised st | OutOfFuel st => st
  end.

Definition initial (r : room) : engine := Engine r 0 0 [] [].

Definition state_of (o : outcome) : engine :=
  match o with
  | Finished _ st => st
  | Unfinished x => final_state x
  | KeyError => initial (new_room EmptyString [] [])
  end.

(** The prompt of the first iteration is not delivered, the others are. *)
Definition first_prompt_fails (k : nat) : bool := negb (k =? 0)%nat.

(** Five moves after which player one holds the top row. *)
Definition quick_win : list event :=
  [Recv 1 "0,0"; Recv 2 "1,0"; Recv 1 "0,1"; Recv 2 "1,1"; Recv 1 "0,2"].

(** The room ABC of [two_players]. *)
Definition room_two : room :=
  Room "ABC" [1; 2]%nat [host 1; host 2] [] empty_board.

(** No prompt reaches player one; every prompt reaches player two. *)
Definition only_player_two_prompted (k : nat) : bool := Nat.odd k.

(** What the committed moves of an engine state satisfy; [r0] is the room
    the engine started on. *)
Definition moves_inv (ok : nat → bool) (r0 : room) (st : engine) : Prop :=
  (∀ i k mv, e_moves st !! i = Some (k, mv) →
     mark mv = current_of k ∧ (k < turn_count st)%nat)
  ∧ (∀ i j ki kj mi mj, (i < j)%nat →
       e_moves st !! i = Some (ki, mi) → e_moves st !! j = Some (kj, mj) →
       (ki < kj)%nat)
  ∧ ((∀ j, (j < 9)%nat → ok j = true) → (2 ≤ length (players r0))%nat →
     (e_moves st).*1 = seq 0 (turn_count st))
  ∧ ((length (players r0) < 2)%nat → e_moves st = []).

(** What holds of a directory and of the record of actions that led to it. *)
Definition directory_inv (rooms : gmap string room) (out : list action) : Prop :=
  ∀ code,
    (length (seated rooms code) ≤ 2)%nat
    ∧ (count_spawn code out ≤ 1)%nat
    ∧ (count_spawn code out = 1%nat → length (seated rooms code) = 2%nat).

(** What every state reached by the loop satisfies, when the board it
    started from has the shape the server creates. *)
Definition engine_inv (r0 : room) (st : engine) : Prop :=
  board_3x3 (matrix (e_room st))
  ∧ players (e_room st) = players r0
  ∧ (turn_count st ≤ 9)%nat
  ∧ (turn_count st = 0%nat ∧ result st = 0%Z
     ∨ (1 ≤ turn_count st)%nat
       ∧ check_winner (matrix (e_room st)) = Some (result st))
  ∧ Forall not_over (e_out st).

(** Nine moves that fill the board without completing a line. *)
Definition drawn_game : list event :=
  [Recv 1 "0,0"; Recv 2 "0,1"; Recv 1 "0,2"; Recv 2 "1,1"; Recv 1 "1,0";
   Recv 2 "1,2"; Recv 1 "2,1"; Recv 2 "2,0"; Recv 1 "2,2"].

(** ** Notions used to state further properties of the server *)

(** The cell a pair of accepted subscripts designates on a 3x3 board:
    -3..-1 count from the end. *)
Definition wrap3 (x : Z) : nat := Z.to_nat (x mod 3).

(** The board obtained by writing the committed moves in order. *)
Fixpoint replay (m : board) (mvs : list (nat * move)) : option board :=
  match mvs with
  | [] => Some m
  | (_, mv) :: rest =>
      m' ← set_cell m (row mv) (col mv) (mark mv); replay m' rest
  end.

(** The connection an action is addressed to. *)
Definition addressee (x : action) : option conn :=
  match x with
  | Send c _ | Close c => Some c
  | Spawn _ => None
  end.

(** Every cell holds 0, 1 or 2. *)
Definition marks_only (m : board) : Prop :=
  Forall (Forall (λ v, v = 0 ∨ v = PLAYER_ONE ∨ v = PLAYER_TWO)%Z) m.

(** The connections that join the room as spectators during the events. *)
Fixpoint newcomers (evs : list event) : list conn :=
  match evs with
  | [] => []
  | Spectate c _ :: rest => c :: newcomers rest
  | _ :: rest => newcomers rest
  end.

(** ** The client side of a move (player.py)

    [validate_input(r, c)] of the client, on the client's copy [m] of the
    board; [None] is the [IndexError] of a copy that is not 3x3. *)
Definition validate_input (m : board) (r c : Z) : option bool :=
  if (r <? 0)%Z || (2 <? r)%Z || (c <? 0)%Z || (2 <? c)%Z then Some false
  else
    i ← py_index (length m) r;
    line ← m !! i;
    j ← py_index (length line) c;
    v ← line !! j;
    Some (v =? 0)%Z.

(** The text [f"{r},{c}"] that [handle_mouse_click] sends. *)
Definition format_move (r c : Z) : string :=
  PyStr.of_Z r +:+ "," +:+ PyStr.of_Z c.

(** An action of a game that stays within the room: it is addressed to a
    member of [A], a prompt goes to a member of [P] only, and no thread is
    started. *)
Definition confined (A P : list conn) (x : action) : Prop :=
  match x with
  | Send c t => c ∈ A ∧ (t = "Input" → c ∈ P)
  | Close c => c ∈ A
  | Spawn _ => False
  end.

(** Everybody in the room is a member of [A]. *)
Definition room_in (A : list conn) (r : room) : Prop :=
  ∀ c, c ∈ players r ++ spectators r → c ∈ A.

(** What holds of every room of a directory built by handshakes alone. *)
Definition directory_wf (rooms : gmap string room) : Prop :=
  ∀ name r, rooms !! name = Some r →
    code r = name ∧ name ≠ EmptyString ∧ PyStr.upper name = name
    ∧ matrix r = empty_board
    ∧ length (addrs r) = length (players r)
    ∧ (length (players r) ≤ 2)%nat.

(** ** The embedding at work *)

Example int_samples :
  PyStr.int " 12 " = Some 12%Z ∧ PyStr.int "-1" = Some (-1)%Z
  ∧ PyStr.int "+07" = Some 7%Z ∧ PyStr.int "1_0" = Some 10%Z
  ∧ PyStr.int "1__0" = None ∧ PyStr.int "_1" = None ∧ PyStr.int "- 1" = None
  ∧ PyStr.int "1.0" = None ∧ PyStr.int EmptyString = None.
Proof. vm_compute. repeat split. Qed.

Example move_of_text_samples :
  move_of_text "2,1" = Coords 2 1 ∧ move_of_text " 2 , 1 " = Coords 2 1
  ∧ move_of_text "-1,7" = Coords (-1) 7 ∧ move_of_text "a,1" = BadCoords
  ∧ move_of_text "1,2,3" = NotMove ∧ move_of_text "12" = NotMove.
Proof. vm_compute. repeat split. Qed.

Example handshake_samples :
  handshake " room  abc " = ("ROOM", "ABC")
  ∧ handshake "Spectate x y" = ("SPECTATE", "X Y")
  ∧ handshake "ROOM" = ("ROOM", EmptyString).
Proof. vm_compute. repeat split. Qed.

Example str_matrix_sample :
  str_matrix [[1; 0; 2]; [0; 0; 0]; [0; 2; 1]]%Z
  = "[[1, 0, 2], [0, 0, 0], [0, 2, 1]]".
Proof. reflexivity. Qed.

Example set_cell_samples :
  set_cell empty_board 1 2 1 = Some [[0; 0; 0]; [0; 0; 1]; [0; 0; 0]]%Z
  ∧ set_cell empty_board (-1) (-3) 2 = Some [[0; 0; 0]; [0; 0; 0]; [2; 0; 0]]%Z
  ∧ set_cell empty_board 3 0 1 = None ∧ set_cell empty_board 0 (-4) 1 = None.
Proof. vm_compute. repeat split. Qed.

Example drawn_game_plays_nine_plies :
  start_game_for_room two_players "ABC" always drawn_game
  = Finished ∅
      (state_of (start_game_for_room two_players "ABC" always drawn_game))
  ∧ turn_count (state_of (start_game_for_room two_players "ABC" always
                            drawn_game)) = 9%nat
  ∧ result (state_of (start_game_for_room two_players "ABC" always
                        drawn_game)) = 0%Z
  ∧ matrix (e_room (state_of (start_game_for_room two_players "ABC" always
                                drawn_game)))
    = [[1; 2; 1]; [1; 2; 2]; [2; 1; 1]]%Z
  ∧ mark <$> (e_moves (state_of (start_game_for_room two_players "ABC" always
                                   drawn_game))).*2
    = [1; 2; 1; 2; 1; 2; 1; 2; 1]%Z.
Proof. vm_compute. repeat split. Qed.

(** ** Win evaluator *)

Lemma board_3x3_inv (m : board) :
  board_3x3 m →
  ∃ a b c d e f g h i : Z, m = [[a; b; c]; [d; e; f]; [g; h; i]].
Proof.
  intros [Hlen Hrows].
  destruct m as [|r0 [|r1 [|r2 [|]]]]; try discriminate.
  apply Forall_cons in Hrows as [H0 Hrows].
  apply Forall_cons in Hrows as [H1 Hrows].
  apply Forall_cons in Hrows as [H2 _].
  destruct r0 as [|a [|b [|c [|]]]]; try discriminate.
  destruct r1 as [|d [|e [|f [|]]]]; try discriminate.
  destruct r2 as [|g [|h [|i [|]]]]; try discriminate.
  by exists a, b, c, d, e, f, g, h, i.
Qed.

Lemma line_mark_completes (m : board) (l : line) (v : Z) :
  line_mark m l = Some v ↔ l ≠ [] ∧ completes m l v.
Proof.
  destruct l as [|[i j] rest]; [split; [done | by intros [? _]]|].
  unfold line_mark, completes.
  split.
  - destruct (cell m i j) as [w|] eqn:Hw; simpl; [|done].
    destruct (Z.eqb_spec w 0) as [|Hnz]; simpl; [done|].
    destruct (forallb _ rest) eqn:Hall; [|done].
    intros [= <-]. do 2 (split; [done|]).
    intros i' j' [[= -> ->]|Hin]%elem_of_cons; [done|].
    rewrite forallb_forall in Hall.
    specialize (Hall (i', j')). rewrite <- list_elem_of_In in Hall.
    specialize (Hall Hin). by apply bool_decide_eq_true in Hall.
  - intros (_ & Hnz & Hall).
    rewrite (Hall i j) by (apply elem_of_cons; left; reflexivity). simpl.
    destruct (Z.eqb_spec v 0) as [|_]; [done|]. simpl.
    assert (forallb (λ p, bool_decide (cell m p.1 p.2 = Some v)) rest = true) as ->; [|done].
    apply forallb_forall. intros [i' j'] Hin%list_elem_of_In.
    apply bool_decide_eq_true_2, Hall. by (apply elem_of_cons; right).
Qed.

Lemma chain3_tri (a b c : Z) : chain3 a b (Some c) = Some (tri a b c).
Proof. unfold chain3, tri. by destruct (a =? b)%Z. Qed.

Lemma tri_true (a b c : Z) : tri a b c = true ↔ a = b ∧ b = c ∧ c ≠ 0%Z.
Proof.
  unfold tri. rewrite !andb_true_iff, negb_true_iff, !Z.eqb_eq, Z.eqb_neq. tauto.
Qed.

Lemma line_mark_tri (m : board) (p1 p2 p3 : nat * nat) (a b c : Z) :
  cell m p1.1 p1.2 = Some a → cell m p2.1 p2.2 = Some b →
  cell m p3.1 p3.2 = Some c →
  line_mark m [p1; p2; p3] = if tri a b c then Some a else None.
Proof.
  destruct p1, p2, p3. simpl. intros -> -> ->. simpl.
  destruct (tri a b c) eqn:Ht.
  - apply tri_true in Ht as (-> & -> & Hnz).
    rewrite !bool_decide_eq_true_2 by done.
    by destruct (Z.eqb_spec c 0).
  - destruct (Z.eqb_spec a 0); [done|]. simpl.
    repeat case_bool_decide; simplify_eq; try done.
    assert (tri a a a = true) by (apply tri_true; done). congruence.
Qed.

Lemma check_winner_lines (m : board) :
  board_3x3 m → check_winner m = Some (winner_by_lines m).
Proof.
  intros (a & b & c & d & e & f & g & h & i & ->)%board_3x3_inv.
  unfold winner_by_lines, winning_lines, first_mark.
  repeat (erewrite line_mark_tri; [|reflexivity..]).
  unfold check_winner, check_columns, check_diagonals, py_or. cbn.
  rewrite !chain3_tri. cbn.
  destruct (tri a b c) eqn:H1; cbn.
  { apply tri_true in H1. by destruct (Z.eqb_spec a 0); [lia|]. }
  destruct (tri d e f) eqn:H2; cbn.
  { apply tri_true in H2. by destruct (Z.eqb_spec d 0); [lia|]. }
  destruct (tri g h i) eqn:H3; cbn.
  { apply tri_true in H3. by destruct (Z.eqb_spec g 0); [lia|]. }
  destruct (tri a d g) eqn:H4; cbn.
  { apply tri_true in H4. by destruct (Z.eqb_spec a 0); [lia|]. }
  destruct (tri b e h) eqn:H5; cbn.
  { apply tri_true in H5. by destruct (Z.eqb_spec b 0); [lia|]. }
  destruct (tri c f i) eqn:H6; cbn.
  { apply tri_true in H6. by destruct (Z.eqb_spec c 0); [lia|]. }
  destruct (tri a e i) eqn:H7; cbn; [done|].
  by destruct (tri c e g).
Qed.

Lemma first_mark_priority (m : board) (ls : list line) (k : nat) (l : line) (v : Z) :
  ls !! k = Some l → line_mark m l = Some v →
  (∀ k' l', (k' < k)%nat → ls !! k' = Some l' → line_mark m l' = None) →
  first_mark m ls = v.
Proof.
  revert k. induction ls as [|l0 ls IH]; intros k Hk Hv Hbefore; [done|].
  destruct k as [|k]; simpl in *.
  - injection Hk as ->. by rewrite Hv.
  - rewrite (Hbefore 0%nat l0) by (done || lia).
    apply (IH k); [done..|]. intros k' l' Hlt Hl'.
    apply (Hbefore (S k') l'); [lia|done].
Qed.

Lemma first_mark_none (m : board) (ls : list line) :
  (∀ l, l ∈ ls → line_mark m l = None) → first_mark m ls = 0%Z.
Proof.
  induction ls as [|l0 ls IH]; intros Hnone; [done|]. simpl.
  rewrite Hnone by (apply elem_of_cons; by left).
  apply IH. intros l Hl. apply Hnone, elem_of_cons. by right.
Qed.

Lemma line_mark_None (m : board) (l : line) :
  (∀ v, ¬ completes m l v) → line_mark m l = None.
Proof.
  intros Hno. destruct (line_mark m l) as [v|] eqn:Hv; [|done].
  apply line_mark_completes in Hv as [_ Hv]. by destruct (Hno v).
Qed.

Lemma winning_lines_nonempty (l : line) : l ∈ winning_lines → l ≠ [].
Proof.
  unfold winning_lines. rewrite !elem_of_cons, elem_of_nil.
  intros H. repeat (destruct H as [->|H]; [done|]). done.
Qed.

(** C3.  On every 3x3 board [check_winner] returns the mark of the first
    completed line in the order rows, columns, main diagonal, other
    diagonal, and 0 when no line is completed: it agrees with
    [winner_by_lines]; a line completed by [v] with no completed line before
    it in that order yields [v]; in particular a board on which exactly one
    of the eight lines is completed yields the mark of that line; and a
    board, full or not, without a completed line yields 0. *)
Theorem check_winner_first_completed_line (m : board) :
  board_3x3 m →
  check_winner m = Some (winner_by_lines m)
  ∧ (∀ k l v, winning_lines !! k = Some l → completes m l v →
       (∀ k' l' v', (k' < k)%nat → winning_lines !! k' = Some l' →
                    ¬ completes m l' v') →
       check_winner m = Some v)
  ∧ (∀ k l v, winning_lines !! k = Some l → completes m l v →
       (∀ k' l' v', k' ≠ k → winning_lines !! k' = Some l' →
                    ¬ completes m l' v') →
       check_winner m = Some v)
  ∧ ((∀ l v, l ∈ winning_lines → ¬ completes m l v) →
       check_winner m = Some 0%Z).
Proof.
  intros Hm. pose proof (check_winner_lines m Hm) as Heq.
  assert (Hprio : ∀ k l v, winning_lines !! k = Some l → completes m l v →
       (∀ k' l' v', (k' < k)%nat → winning_lines !! k' = Some l' →
                    ¬ completes m l' v') →
       check_winner m = Some v).
  { intros k l v Hk Hv Hbefore. rewrite Heq. f_equal.
    apply (first_mark_priority m winning_lines k l v); [done| |].
    - apply line_mark_completes. split; [|done].
      by apply winning_lines_nonempty, list_elem_of_lookup_2 with k.
    - intros k' l' Hlt Hl'. apply line_mark_None. intros v'.
      by apply (Hbefore k' l' v'). }
  split; [done|]. split; [done|]. split.
  - intros k l v Hk Hv Hothers. apply (Hprio k l v); [done..|].
    intros k' l' v' Hlt. apply Hothers. lia.
  - intros Hnone. rewrite Heq. f_equal. apply first_mark_none.
    intros l Hl. apply line_mark_None. intros v. by apply Hnone.
Qed.

Lemma check_winner_first_completed_line_witness :
  board_3x3 board_two_lines
  ∧ check_winner board_two_lines = Some (winner_by_lines board_two_lines).
Proof.
  assert (H : board_3x3 board_two_lines).
  { split; [reflexivity|]. repeat constructor. }
  split; [exact H|].
  exact (proj1 (check_winner_first_completed_line board_two_lines H)).
Defined.

(** ** Room directory and connection intake *)

Lemma refused_join_unchanged (rooms : gmap string room) (c : conn) (a : addr)
    (code : string) (r : room) (send_ok : bool) :
  rooms !! code = Some r → length (players r) ≠ 1%nat →
  join_room rooms c a code send_ok
  = Joined rooms (Send c "Room Full" :: (if send_ok then [Close c] else []))
      send_ok.
Proof.
  intros Hr Hlen. unfold join_room. rewrite Hr.
  by destruct (Nat.eqb_spec (length (players r)) 1).
Qed.

Lemma intake_room (rooms : gmap string room) (c : conn) (a : addr)
    (first code : string) (nsent : nat) :
  handshake first = ("ROOM", code) → code ≠ EmptyString →
  start_server_iter rooms c a first nsent
  = let j := join_room rooms c a code (0 <? nsent)%nat in
    (dir j, acts j ++ (if returned j then [] else [Close c])).
Proof.
  intros Hh Hne. unfold start_server_iter. rewrite Hh. simpl.
  by destruct code.
Qed.

(** C4.  A join-as-player request naming a room that already has two
    players leaves the directory as it was (so the players, the spectators
    and the board of that room are unchanged), and it sends "Room Full" to
    the new connection and closes it: [join_room] closes it when its send
    returns, the handler of the accept loop closes it when the send raises. *)
Theorem join_room_full (rooms : gmap string room) (c : conn) (a : addr)
    (code : string) (r : room) :
  rooms !! code = Some r → length (players r) = 2%nat →
  (∀ send_ok,
     let j := join_room rooms c a code send_ok in
     dir j = rooms ∧ dir j !! code = Some r
     ∧ acts j = Send c "Room Full" :: (if send_ok then [Close c] else [])
     ∧ returned j = send_ok)
  ∧ (∀ first nsent,
       handshake first = ("ROOM", code) → code ≠ EmptyString →
       start_server_iter rooms c a first nsent
       = (rooms, [Send c "Room Full"; Close c])).
Proof.
  intros Hr Hlen. split.
  - intros send_ok. rewrite (refused_join_unchanged _ _ _ _ r) by (done || lia).
    done.
  - intros first nsent Hh Hne. rewrite (intake_room _ _ _ _ code) by done.
    rewrite (refused_join_unchanged _ _ _ _ r) by (done || lia). simpl.
    by destruct (0 <? nsent)%nat.
Qed.

Lemma join_room_full_witness :
  start_server_iter two_players 3 (host 3) "ROOM abc" 1
  = (two_players, [Send 3 "Room Full"; Close 3]).
Proof.
  refine (proj2 (join_room_full two_players 3 (host 3) "ABC"
                   (Room "ABC" [1; 2]%nat [host 1; host 2] [] empty_board)
                   _ _) "ROOM abc" 1%nat _ _).
  - reflexivity.
  - reflexivity.
  - reflexivity.
  - discriminate.
Defined.

Lemma spectate_room_players (r : room) (c : conn) (nsent : nat) :
  players (spectate_room r c nsent).1 = players r
  ∧ matrix (spectate_room r c nsent).1 = matrix r
  ∧ code (spectate_room r c nsent).1 = code r.
Proof. unfold spectate_room. by destruct (3 <=? nsent)%nat. Qed.

Lemma count_spawn_app (code : string) (l1 l2 : list action) :
  count_spawn code (l1 ++ l2) = (count_spawn code l1 + count_spawn code l2)%nat.
Proof. unfold count_spawn. by rewrite filter_app, length_app. Qed.

Lemma count_spawn_sends (code : string) (c : conn) (l : list string) :
  count_spawn code (Send c <$> l) = 0%nat.
Proof. induction l as [|s l IH]; [done|]. exact IH. Qed.

Lemma spectate_room_no_spawn (r : room) (c : conn) (nsent : nat) (code : string) :
  count_spawn code (spectate_room r c nsent).2 = 0%nat.
Proof.
  unfold spectate_room. destruct (3 <=? nsent)%nat; cbn [snd].
  - apply count_spawn_sends.
  - rewrite count_spawn_app, count_spawn_sends. done.
Qed.

Lemma count_spawn_self (code : string) : count_spawn code [Spawn code] = 1%nat.
Proof.
  unfold count_spawn. rewrite filter_cons_True; [done|].
  simpl. apply String.eqb_refl.
Qed.

Lemma count_spawn_other (code code' : string) :
  code' ≠ code → count_spawn code [Spawn code'] = 0%nat.
Proof.
  intros Hne. unfold count_spawn. rewrite filter_cons_False; [done|].
  simpl. rewrite (proj2 (String.eqb_neq code' code)); done.
Qed.

Lemma count_spawn_send (code : string) (c : conn) (t : string) (l : list action) :
  count_spawn code (Send c t :: l) = count_spawn code l.
Proof. done. Qed.

Lemma count_spawn_close (code : string) (c : conn) (l : list action) :
  count_spawn code (Close c :: l) = count_spawn code l.
Proof. done. Qed.

Lemma count_spawn_nil (code : string) : count_spawn code [] = 0%nat.
Proof. done. Qed.

Ltac count_spawns :=
  rewrite ?count_spawn_app, ?count_spawn_send, ?count_spawn_close,
    ?count_spawn_nil, ?count_spawn_self.

Lemma seated_insert (rooms : gmap string room) (code code' : string) (r : room) :
  seated (<[code := r]> rooms) code'
  = if decide (code = code') then players r else seated rooms code'.
Proof.
  unfold seated. rewrite lookup_insert. by destruct (decide (code = code')).
Qed.

(** One handshake: how it changes the players of any room, and when it
    starts an engine. *)
Lemma intake_step (rooms : gmap string room) (c : conn) (a : addr)
    (first : string) (nsent : nat) (code : string) :
  let rooms' := (start_server_iter rooms c a first nsent).1 in
  let out := (start_server_iter rooms c a first nsent).2 in
  (seated rooms' code = seated rooms code
   ∨ rooms !! code = None ∧ seated rooms' code = [c]
   ∨ length (seated rooms code) = 1%nat
     ∧ seated rooms' code = seated rooms code ++ [c])
  ∧ (count_spawn code out ≤ 1)%nat
  ∧ (count_spawn code out = 1%nat
     ↔ length (seated rooms code) = 1%nat
       ∧ length (seated rooms' code) = 2%nat ∧ (0 < nsent)%nat).
Proof.
  unfold start_server_iter. destruct (handshake first) as [verb code0].
  destruct (negb _ || is_empty code0) eqn:Hbad; cbn [fst snd].
  { count_spawns. split; [by left|]. split; [lia|]. split; [done|].
    intros (H1 & H2 & _). lia. }
  destruct (String.eqb verb "ROOM") eqn:Hverb; cbn [fst snd].
  - unfold join_room. destruct (rooms !! code0) as [r|] eqn:Hr.
    + destruct (Nat.eqb_spec (length (players r)) 1) as [Hone|Hnot];
        cbn [dir acts returned].
      * rewrite seated_insert. destruct (decide (code0 = code)) as [->|Hne].
        -- assert (seated rooms code = players r) as ->
             by (unfold seated; by rewrite Hr).
           cbn [add_player players]. rewrite length_app, Hone.
           destruct (Nat.ltb_spec 0 nsent); count_spawns.
           ++ split; [right; right; done|]. split; [lia|]. done.
           ++ split; [right; right; done|]. split; [lia|].
              split; [done|]. intros (_ & _ & ?). lia.
        -- split; [by left|].
           destruct (0 <? nsent)%nat; count_spawns;
             rewrite ?(count_spawn_other code code0) by done;
             (split; [lia|]; split; [done|]; intros (H1 & H2 & _); lia).
      * split; [by left|].
        destruct (0 <? nsent)%nat; count_spawns;
          (split; [lia|]; split; [done|]; intros (H1 & H2 & _); lia).
    + cbn [dir acts returned]. rewrite seated_insert.
      assert (count_spawn code
                ([Send c "<<< You are player 1 >>>"]
                 ++ (if (0 <? nsent)%nat then [] else [Close c])) = 0%nat)
        as -> by (by destruct (0 <? nsent)%nat).
      destruct (decide (code0 = code)) as [->|Hne]; cbn [new_room players].
      * split; [right; by left|]. split; [lia|]. split; [done|].
        intros (_ & ? & _). done.
      * split; [by left|]. split; [lia|]. split; [done|].
        intros (H1 & H2 & _). lia.
  - unfold join_as_spectator.
    destruct (spectate_room _ c nsent) as [r' out] eqn:Hsp. cbn [fst snd].
    pose proof (spectate_room_players
                  (default (new_room code0 [] []) (rooms !! code0)) c nsent)
      as (Hp & _ & _).
    pose proof (spectate_room_no_spawn
                  (default (new_room code0 [] []) (rooms !! code0)) c nsent code)
      as Hns.
    rewrite Hsp in Hp, Hns. cbn [fst snd] in Hp, Hns. rewrite Hns.
    assert (seated (<[code0 := r']> rooms) code = seated rooms code) as Hsame.
    { rewrite seated_insert. destruct (decide (code0 = code)) as [->|]; [|done].
      rewrite Hp. unfold seated. by destruct (rooms !! code). }
    rewrite Hsame. split; [by left|]. split; [lia|]. split; [done|].
    intros (H1 & H2 & _). lia.
Qed.

Lemma serve_inv (l : list arrival) (rooms : gmap string room)
    (out0 : list action) :
  directory_inv rooms out0 →
  directory_inv (serve rooms l).1 (out0 ++ (serve rooms l).2).
Proof.
  revert rooms out0. induction l as [|x l IH]; intros rooms out0 Hinv; simpl.
  { by rewrite app_nil_r. }
  destruct (start_server_iter rooms (a_conn x) (a_addr x) (a_first x)
              (a_nsent x)) as [rooms1 out1] eqn:Hstep.
  destruct (serve rooms1 l) as [rooms2 out2] eqn:Hrest. simpl.
  rewrite app_assoc.
  replace rooms2 with (serve rooms1 l).1 by (by rewrite Hrest).
  replace out2 with (serve rooms1 l).2 by (by rewrite Hrest).
  apply IH. intros code.
  pose proof (intake_step rooms (a_conn x) (a_addr x) (a_first x) (a_nsent x)
                code) as Hs.
  rewrite Hstep in Hs. simpl in Hs. destruct Hs as (Hseat & Hle & Hiff).
  destruct (Hinv code) as (Hb & Hc & Hstarted).
  rewrite count_spawn_app.
  destruct (decide (count_spawn code out1 = 1%nat)) as [Hone|Hzero].
  - apply Hiff in Hone as Hinfo. destruct Hinfo as (H1 & H2 & _).
    assert (count_spawn code out0 = 0%nat).
    { destruct (decide (count_spawn code out0 = 1%nat)) as [E|]; [|lia].
      apply Hstarted in E. lia. }
    lia.
  - assert (count_spawn code out1 = 0%nat) as -> by lia.
    rewrite Nat.add_0_r. split; [|split; [done|]].
    + destruct Hseat as [->|[[_ ->]|[H1 ->]]]; [done|simpl; lia|].
      rewrite length_app. simpl. lia.
    + intros E. specialize (Hstarted E).
      destruct Hseat as [->|[[Hnone _]|[H1 _]]]; [done| |lia].
      unfold seated in Hstarted. rewrite Hnone in Hstarted. done.
Qed.

Lemma directory_inv_empty : directory_inv ∅ [].
Proof.
  intros code. unfold seated. rewrite lookup_empty. count_spawns.
  cbn [length]. split; [lia|]. split; [lia|]. discriminate.
Qed.

(** X25.  Along every sequence of handshakes served from the empty
    directory, every room has at most two players and at most one engine
    thread has been started for it, and a started engine means two players.
    A handshake changes the players of a room only by creating the room
    with the newcomer as its one player, when the code is unseen, or by
    appending the newcomer, when exactly one player is present.  It starts
    the engine of a room exactly when it takes that room from one player to
    two and its reply to the newcomer is sent. *)
Theorem players_bounded_engine_started_once :
  (∀ (l : list arrival) (code : string),
     let rooms := (serve ∅ l).1 in
     let out := (serve ∅ l).2 in
     (length (seated rooms code) ≤ 2)%nat
     ∧ (count_spawn code out ≤ 1)%nat
     ∧ (count_spawn code out = 1%nat → length (seated rooms code) = 2%nat))
  ∧ (∀ (rooms : gmap string room) (c : conn) (a : addr) (first : string)
       (nsent : nat) (code : string),
       let rooms' := (start_server_iter rooms c a first nsent).1 in
       let out := (start_server_iter rooms c a first nsent).2 in
       (seated rooms' code = seated rooms code
        ∨ rooms !! code = None ∧ seated rooms' code = [c]
        ∨ length (seated rooms code) = 1%nat
          ∧ seated rooms' code = seated rooms code ++ [c])
       ∧ (count_spawn code out ≤ 1)%nat
       ∧ (count_spawn code out = 1%nat
          ↔ length (seated rooms code) = 1%nat
            ∧ length (seated rooms' code) = 2%nat ∧ (0 < nsent)%nat)).
Proof.
  split.
  - intros l code. exact (serve_inv l ∅ [] directory_inv_empty code).
  - exact intake_step.
Qed.

Lemma full_room_stays (code : string) (l : list arrival)
    (rooms : gmap string room) :
  length (seated rooms code) = 2%nat →
  seated (serve rooms l).1 code = seated rooms code
  ∧ count_spawn code (serve rooms l).2 = 0%nat.
Proof.
  revert rooms. induction l as [|x l IH]; intros rooms Hfull; cbn [serve].
  { done. }
  pose proof (intake_step rooms (a_conn x) (a_addr x) (a_first x) (a_nsent x)
                code) as (Hseat & Hle & Hone).
  destruct (start_server_iter rooms (a_conn x) (a_addr x) (a_first x)
              (a_nsent x)) as [rooms1 out1].
  cbn [fst snd] in *.
  assert (Hsame : seated rooms1 code = seated rooms code).
  { destruct Hseat as [H|[[Hnone _]|[H1 _]]]; [done| |lia].
    unfold seated in Hfull. by rewrite Hnone in Hfull. }
  assert (Hzero : count_spawn code out1 = 0%nat).
  { destruct (count_spawn code out1) as [|[|n]]; [done| |lia].
    destruct Hone as [Hone _]. destruct (Hone eq_refl) as (H1 & _). lia. }
  destruct (IH rooms1 ltac:(by rewrite Hsame)) as [Hs Hc].
  destruct (serve rooms1 l) as [rooms2 out2]. cbn [fst snd] in *.
  split; [congruence|]. by rewrite count_spawn_app, Hzero, Hc.
Qed.

(** C9.  The code at the failing input.  Player 1 holds room ABC; the
    handshake of connection 2 seats it as second player, but the send of its
    role notice raises between the append and the start of the thread: the
    room has gone from one player to two, connection 2 is closed by the
    handler of the accept loop and stays seated, and no engine has been
    started.  No later handshake changes the players of the room or starts
    its engine. *)
Theorem engine_never_started_when_reply_fails :
  let rooms1 := (serve ∅ [arrive 1 "ROOM abc" 1]).1 in
  let step := start_server_iter rooms1 2 (host 2) "ROOM abc" 0 in
  seated rooms1 "ABC" = [1%nat]
  ∧ seated step.1 "ABC" = [1%nat; 2%nat]
  ∧ step.2 = [Send 2 "<<< You are player 2 >>>"; Close 2]
  ∧ count_spawn "ABC" step.2 = 0%nat
  ∧ ∀ l, seated (serve step.1 l).1 "ABC" = [1%nat; 2%nat]
         ∧ count_spawn "ABC" (serve step.1 l).2 = 0%nat.
Proof.
  intros rooms1 step.
  assert (Hseat : seated step.1 "ABC" = [1%nat; 2%nat])
    by (vm_compute; reflexivity).
  split; [vm_compute; reflexivity|]. split; [done|].
  split; [vm_compute; reflexivity|]. split; [vm_compute; reflexivity|].
  intros l. rewrite <- Hseat. apply full_room_stays. by rewrite Hseat.
Qed.

Lemma join_as_spectator_unseen (rooms : gmap string room) (c : conn) (a : addr)
    (code : string) (nsent : nat) :
  rooms !! code = None →
  ∃ r, (join_as_spectator rooms c a code nsent).1 !! code = Some r
       ∧ players r = [].
Proof.
  intros Hnone. unfold join_as_spectator. rewrite Hnone. cbn [default].
  pose proof (spectate_room_players (new_room code [] []) c nsent) as (Hp & _).
  destruct (spectate_room _ c nsent) as [r' out]. cbn [fst snd] in *.
  exists r'. by rewrite lookup_insert_eq.
Qed.

(** C10.  A room that exists with no player, as [join_as_spectator] creates
    it for an unseen code, refuses a join-as-player: the directory is
    unchanged, so the newcomer is not seated, "Room Full" is sent to it and
    the connection is closed. *)
Theorem room_join_refused_by_spectator_room (rooms : gmap string room)
    (c : conn) (a : addr) (code : string) (r : room) :
  rooms !! code = Some r → players r = [] →
  (∀ send_ok,
     join_room rooms c a code send_ok
     = Joined rooms (Send c "Room Full" :: (if send_ok then [Close c] else []))
         send_ok)
  ∧ (∀ first nsent,
       handshake first = ("ROOM", code) → code ≠ EmptyString →
       start_server_iter rooms c a first nsent
       = (rooms, [Send c "Room Full"; Close c])
       ∧ seated (start_server_iter rooms c a first nsent).1 code = [])
  ∧ (∀ rooms0 c0 a0 nsent0,
       rooms0 !! code = None →
       ∃ r0, (join_as_spectator rooms0 c0 a0 code nsent0).1 !! code = Some r0
             ∧ players r0 = []).
Proof.
  intros Hr Hnil.
  assert (Hlen : length (players r) ≠ 1%nat) by (by rewrite Hnil).
  split; [|split].
  - intros send_ok. by apply refused_join_unchanged with r.
  - intros first nsent Hh Hne. rewrite (intake_room _ _ _ _ code) by done.
    rewrite (refused_join_unchanged _ _ _ _ r) by done.
    cbn [dir acts returned fst]. split.
    + by destruct (0 <? nsent)%nat.
    + unfold seated. by rewrite Hr.
  - intros rooms0 c0 a0 nsent0. apply join_as_spectator_unseen.
Qed.

Lemma room_join_refused_by_spectator_room_witness :
  start_server_iter spectator_only 1 (host 1) "ROOM abc" 1
  = (spectator_only, [Send 1 "Room Full"; Close 1])
  ∧ seated (start_server_iter spectator_only 1 (host 1) "ROOM abc" 1).1 "ABC"
    = [].
Proof.
  refine (proj1 (proj2 (room_join_refused_by_spectator_room spectator_only 1
                          (host 1) "ABC"
                          (Room "ABC" [] [] [7%nat] empty_board) _ _))
            "ROOM abc" 1%nat _ _).
  - reflexivity.
  - reflexivity.
  - reflexivity.
  - discriminate.
Defined.

(** ** Writing a cell *)

Lemma py_index_None (len : nat) (i : Z) :
  (i < - Z.of_nat len ∨ Z.of_nat len ≤ i)%Z → py_index len i = None.
Proof.
  intros H. unfold py_index.
  destruct (Z.leb_spec 0 i), (Z.ltb_spec i (Z.of_nat len)),
    (Z.leb_spec (- Z.of_nat len) i), (Z.ltb_spec i 0); simpl; try done; lia.
Qed.

Lemma py_index_Some (len : nat) (i : Z) (k : nat) :
  py_index len i = Some k → (k < len)%nat.
Proof.
  unfold py_index.
  destruct (Z.leb_spec 0 i), (Z.ltb_spec i (Z.of_nat len)),
    (Z.leb_spec (- Z.of_nat len) i), (Z.ltb_spec i 0); simpl;
    intros [= <-]; lia.
Qed.

Lemma py_index_nonneg (len : nat) (i : Z) :
  (0 ≤ i < Z.of_nat len)%Z → py_index len i = Some (Z.to_nat i).
Proof.
  intros H. unfold py_index.
  destruct (Z.leb_spec 0 i), (Z.ltb_spec i (Z.of_nat len)); simpl; try done; lia.
Qed.

Lemma set_cell_shape (m m' : board) (x y v : Z) :
  board_3x3 m → set_cell m x y v = Some m' → board_3x3 m'.
Proof.
  intros [Hlen Hrows]. unfold set_cell.
  destruct (py_index (length m) x) as [i|]; [|done]. cbn [mbind option_bind].
  destruct (m !! i) as [r|] eqn:Hr; [|done]. cbn [mbind option_bind].
  destruct (py_index (length r) y) as [j|]; [|done]. cbn [mbind option_bind].
  intros [= <-]. split.
  - by rewrite length_insert.
  - apply Forall_insert; [done|]. cbv beta. rewrite length_insert.
    by apply (Forall_lookup_1 _ _ _ _ Hrows Hr).
Qed.

Lemma set_cell_outside (m : board) (x y v : Z) :
  board_3x3 m → (x < -3 ∨ 2 < x ∨ y < -3 ∨ 2 < y)%Z → set_cell m x y v = None.
Proof.
  intros [Hlen Hrows] Hout. unfold set_cell. rewrite Hlen.
  destruct (py_index 3 x) as [i|] eqn:Hi; [|done]. cbn [mbind option_bind].
  destruct (m !! i) as [r|] eqn:Hr; [|done]. cbn [mbind option_bind].
  rewrite (Forall_lookup_1 _ _ _ _ Hrows Hr).
  assert (¬ (x < -3 ∨ 3 ≤ x)%Z) as Hx.
  { intros Hx. rewrite py_index_None in Hi by (simpl; lia). done. }
  rewrite py_index_None by (simpl; lia). done.
Qed.

Lemma set_cell_inside (m : board) (x y v : Z) :
  board_3x3 m → (0 ≤ x ≤ 2)%Z → (0 ≤ y ≤ 2)%Z →
  ∃ m', set_cell m x y v = Some m'
        ∧ cell m' (Z.to_nat x) (Z.to_nat y) = Some v
        ∧ ∀ i j, (i, j) ≠ (Z.to_nat x, Z.to_nat y) → cell m' i j = cell m i j.
Proof.
  intros [Hlen Hrows] Hx Hy. unfold set_cell. rewrite Hlen.
  rewrite py_index_nonneg by (simpl; lia). cbn [mbind option_bind].
  destruct (m !! Z.to_nat x) as [r|] eqn:Hr; cbn [mbind option_bind].
  2:{ apply lookup_ge_None in Hr. lia. }
  pose proof (Forall_lookup_1 _ _ _ _ Hrows Hr) as Hr3. rewrite Hr3.
  rewrite py_index_nonneg by (simpl; lia). cbn [mbind option_bind].
  eexists. split; [done|]. unfold cell. split.
  - rewrite list_lookup_insert_eq by (apply lookup_lt_Some in Hr; done). cbn [mbind option_bind].
    apply list_lookup_insert_eq. rewrite Hr3. lia.
  - intros i j Hne. destruct (decide (i = Z.to_nat x)) as [->|Hi].
    + rewrite list_lookup_insert_eq by (apply lookup_lt_Some in Hr; done).
      rewrite Hr. simpl. apply list_lookup_insert_ne. congruence.
    + by rewrite list_lookup_insert_ne.
Qed.

(** ** The wait loop on a message of the mover *)

Lemma prepend_nil (res : input_result) : prepend [] res = res.
Proof. by destruct res. Qed.

Lemma wait_loop_continue (cur : Z) (tc : conn) (w : wstate) (e : event)
    (evs : list event) :
  wait_step cur tc w e = Continue w [] →
  wait_loop cur tc w (e :: evs) = wait_loop cur tc w evs.
Proof. intros H. simpl. rewrite H. apply prepend_nil. Qed.

(** A pass in which [select] returns one socket is one run of the body of
    the [for] loop. *)
Lemma select_reports_open (w : wstate) (c : conn) :
  select_reports w c = true →
  select_raises w = false ∧ mem c (sockets w) = true
  ∧ mem c (closed w) = false.
Proof.
  unfold select_reports, select_raises.
  intros [Hc Hopen]%andb_true_iff. rewrite Hopen. repeat split; [done|].
  rewrite forallb_forall in Hopen. unfold mem in Hc.
  destruct (index c (sockets w)) as [i|] eqn:Hi; [|done].
  assert (In c (sockets w)) as Hin.
  { clear -Hi. revert i Hi. induction (sockets w) as [|s l IH]; intros i; simpl.
    - done.
    - destruct (Nat.eqb_spec s c) as [->|]; [by left|].
      destruct (index c l) as [k|]; [|done]. intros _. right. by apply (IH k). }
  specialize (Hopen c Hin). by destruct (mem c (closed w)).
Qed.

Lemma wait_step_Recv (cur : Z) (tc : conn) (w : wstate) (c : conn)
    (data : string) :
  select_reports w c = true →
  wait_step cur tc w (Recv c data) = step_of w (recv_step cur tc w c data).
Proof.
  intros (Hopen & Hc & Hcl)%select_reports_open.
  cbn [wait_step]. unfold select_pass. rewrite Hopen.
  cbn [for_readable read_step]. rewrite Hc, Hcl. cbn [negb].
  by destruct (recv_step cur tc w c data).
Qed.

Lemma wait_step_unreported (cur : Z) (tc : conn) (w : wstate) (c : conn)
    (data : string) :
  select_reports w c = false →
  wait_step cur tc w (Recv c data) = Continue w [].
Proof.
  unfold select_reports, select_raises. intros Hsel.
  cbn [wait_step]. unfold select_pass, select_raises.
  destruct (forallb _ (sockets w)); [|done].
  rewrite andb_true_r in Hsel. cbn [negb for_readable read_step].
  by rewrite Hsel.
Qed.

Lemma wait_step_singleton (cur : Z) (tc : conn) (w : wstate) (c : conn)
    (data : string) :
  wait_step cur tc w (Recv c data) = wait_step cur tc w (Select [Data c data]).
Proof. done. Qed.

(** C1 (amended).  A message of the mover that reads as two integers is
    committed whenever both are in 0..2, whether or not the target cell is
    empty: the mark of the mover is written into that cell, no other cell
    changes, the board is broadcast and the call returns.  When one of the
    two is above 2 or below -3 the message is ignored: the state of the
    loop is unchanged, nothing is sent, and the loop goes on waiting for
    the same mover as if the message had not arrived. *)
Theorem move_committed_or_ignored (cur : Z) (tc : conn) (w : wstate)
    (data : string) (x y : Z) :
  select_reports w tc = true →
  is_empty data = false →
  move_of_text (PyStr.strip data) = Coords x y →
  board_3x3 (matrix (w_room w)) →
  ((0 ≤ x ≤ 2)%Z → (0 ≤ y ≤ 2)%Z →
   ∃ m',
     wait_step cur tc w (Recv tc data)
     = Return (with_matrix m' (w_room w))
         (send_to_all (with_matrix m' (w_room w)) "Matrix"
          ++ send_to_all (with_matrix m' (w_room w)) (str_matrix m'))
         (Move cur x y)
     ∧ cell m' (Z.to_nat x) (Z.to_nat y) = Some cur
     ∧ ∀ i j, (i, j) ≠ (Z.to_nat x, Z.to_nat y) →
              cell m' i j = cell (matrix (w_room w)) i j)
  ∧ ((x < -3 ∨ 2 < x ∨ y < -3 ∨ 2 < y)%Z →
     wait_step cur tc w (Recv tc data) = Continue w []
     ∧ ∀ evs, wait_loop cur tc w (Recv tc data :: evs)
              = wait_loop cur tc w evs).
Proof.
  intros Hsel Hdata Hmove Hshape.
  assert (Hstep : wait_step cur tc w (Recv tc data)
          = match set_cell (matrix (w_room w)) x y cur with
            | Some m' =>
                Return (with_matrix m' (w_room w))
                  (send_to_all (with_matrix m' (w_room w)) "Matrix"
                   ++ send_to_all (with_matrix m' (w_room w)) (str_matrix m'))
                  (Move cur x y)
            | None => Continue w []
            end).
  { rewrite wait_step_Recv by done. unfold recv_step.
    rewrite Hdata, Nat.eqb_refl, Hmove. by destruct (set_cell _ x y cur). }
  split.
  - intros Hx Hy.
    destruct (set_cell_inside (matrix (w_room w)) x y cur Hshape Hx Hy)
      as (m' & Hset & Hcell & Hothers).
    exists m'. rewrite Hstep, Hset. done.
  - intros Hout. rewrite Hstep, set_cell_outside by done.
    split; [done|]. intros evs. apply wait_loop_continue.
    rewrite Hstep, set_cell_outside by done. done.
Qed.

Lemma move_committed_or_ignored_witness :
  (∃ m',
     wait_step PLAYER_TWO 2 (waiting_on room_corner_taken) (Recv 2 "1,1")
     = Return (with_matrix m' room_corner_taken)
         (send_to_all (with_matrix m' room_corner_taken) "Matrix"
          ++ send_to_all (with_matrix m' room_corner_taken) (str_matrix m'))
         (Move PLAYER_TWO 1 1)
     ∧ cell m' 1 1 = Some PLAYER_TWO
     ∧ ∀ i j, (i, j) ≠ (1%nat, 1%nat) →
              cell m' i j = cell (matrix room_corner_taken) i j).
Proof.
  refine (proj1 (move_committed_or_ignored PLAYER_TWO 2
                   (waiting_on room_corner_taken) "1,1" 1 1 _ _ _ _) _ _).
  - reflexivity.
  - reflexivity.
  - reflexivity.
  - split; [reflexivity|]. repeat constructor.
  - lia.
  - lia.
Defined.

(** C1, counterexample.  Player one holds the top-left corner and player
    two is the mover.  Its message 0,0 names an occupied cell and is
    committed: the cell now holds the mark of player two and the call
    returns.  Its message -1,-1 is outside 0..2 and is committed too, into
    the bottom-right corner. *)
Lemma occupied_cell_overwritten_counterexample :
  cell (matrix room_corner_taken) 0 0 = Some PLAYER_ONE
  ∧ wait_step PLAYER_TWO 2 (waiting_on room_corner_taken) (Recv 2 "0,0")
    = Return (with_matrix [[2; 0; 0]; [0; 0; 0]; [0; 0; 0]]%Z room_abc)
        (((λ c, Send c "Matrix") <$> [1; 2; 7; 8]%nat)
         ++ ((λ c, Send c "[[2, 0, 0], [0, 0, 0], [0, 0, 0]]")
               <$> [1; 2; 7; 8]%nat))
        (Move PLAYER_TWO 0 0)
  ∧ wait_step PLAYER_TWO 2 (waiting_on room_corner_taken) (Recv 2 "-1,-1")
    = Return (with_matrix [[1; 0; 0]; [0; 0; 0]; [0; 0; 2]]%Z room_abc)
        (((λ c, Send c "Matrix") <$> [1; 2; 7; 8]%nat)
         ++ ((λ c, Send c "[[1, 0, 0], [0, 0, 0], [0, 0, 2]]")
               <$> [1; 2; 7; 8]%nat))
        (Move PLAYER_TWO (-1) (-1)).
Proof. vm_compute. repeat split. Qed.

(** ** Chat relay and sender labels *)

Lemma index_None (c : conn) (l : list conn) : index c l = None ↔ c ∉ l.
Proof.
  induction l as [|c' l IH]; simpl.
  - split; [intros _; apply not_elem_of_nil | done].
  - rewrite not_elem_of_cons. destruct (Nat.eqb_spec c' c) as [->|Hne].
    + split; [done | intros [? _]; done].
    + destruct (index c l); simpl; split; try done.
      * intros [_ H]. by apply IH in H.
      * intros _. split; [congruence | by apply IH].
Qed.

Lemma index_Some (c : conn) (l : list conn) (i : nat) :
  index c l = Some i
  ↔ l !! i = Some c ∧ ∀ j, (j < i)%nat → l !! j ≠ Some c.
Proof.
  revert i. induction l as [|c' l IH]; intros i; simpl.
  - split; [done | by intros [? _]].
  - destruct (Nat.eqb_spec c' c) as [->|Hne].
    + split.
      * intros [= <-]. split; [done | intros j Hj; lia].
      * intros [Hi Hfirst]. destruct i as [|i]; [done|].
        by destruct (Hfirst 0%nat ltac:(lia)).
    + destruct i as [|i].
      * split; [by destruct (index c l) | intros [[= ?] _]; done].
      * rewrite fmap_Some. split.
        -- intros (k & Hk & [= <-]). apply IH in Hk as [Hk Hfirst].
           split; [done|]. intros [|j] Hj; simpl; [congruence|].
           apply Hfirst. lia.
        -- intros [Hi Hfirst]. exists i. split; [|done].
           apply IH. split; [done|]. intros j Hj. apply (Hfirst (S j)). lia.
Qed.

Lemma get_sender_label_player (r : room) (c : conn) (i : nat) :
  index c (players r) = Some i →
  get_sender_label r c = "Player" +:+ str_nat (i + 1).
Proof. intros H. unfold get_sender_label. by rewrite H. Qed.

Lemma get_sender_label_spectator (r : room) (c : conn) (i : nat) :
  c ∉ players r → index c (spectators r) = Some i →
  get_sender_label r c = "spec_" +:+ str_nat (i + 1).
Proof.
  intros Hp Hs. unfold get_sender_label.
  by rewrite (proj2 (index_None c (players r)) Hp), Hs.
Qed.

Lemma get_sender_label_unknown (r : room) (c : conn) :
  c ∉ players r → c ∉ spectators r → get_sender_label r c = "Unknown".
Proof.
  intros Hp Hs. unfold get_sender_label.
  by rewrite (proj2 (index_None c (players r)) Hp),
       (proj2 (index_None c (spectators r)) Hs).
Qed.

Lemma chat_is_data (data : string) :
  PyStr.startswith "CHAT:" (PyStr.strip data) = true → is_empty data = false.
Proof. by destruct data. Qed.

(** C8 (amended).  A message whose stripped text starts with CHAT: and that
    is not read as a move of the mover (it comes from another connection, or
    does not hold exactly one comma) is broadcast once to every player and
    every spectator of the room, the sender included when it is one of
    them, as CHAT:<label>:<text> with <text> the stripped rest of the
    message, and the wait loop goes on.  The label is Player1 or Player2 by
    position in the players list for a player; for a spectator it is spec_<n>
    with n the 1-based position of the connection in the current spectators
    list; it is Unknown for a connection in neither list. *)
Theorem chat_relayed_with_label (cur : Z) (tc : conn) (w : wstate) (c : conn)
    (data : string) :
  select_reports w c = true →
  PyStr.startswith "CHAT:" (PyStr.strip data) = true →
  c ≠ tc ∨ PyStr.count "," (PyStr.strip data) ≠ 1%nat →
  let r := w_room w in
  let label := get_sender_label r c in
  let text := PyStr.strip (PyStr.drop 5 (PyStr.strip data)) in
  wait_step cur tc w (Recv c data)
  = Continue w ((λ c', Send c' ("CHAT:" +:+ label +:+ ":" +:+ text))
                  <$> (players r ++ spectators r))
  ∧ (∀ p0 p1, players r = [p0; p1] →
       (c = p0 → label = "Player1") ∧ (c ≠ p0 → c = p1 → label = "Player2"))
  ∧ (∀ n, c ∉ players r → spectators r !! n = Some c →
       (∀ j, (j < n)%nat → spectators r !! j ≠ Some c) →
       label = "spec_" +:+ str_nat (n + 1))
  ∧ (c ∉ players r → c ∉ spectators r → label = "Unknown").
Proof.
  intros Hsel Hchat Hnot r label text. split; [|split; [|split]].
  - rewrite wait_step_Recv by done. unfold recv_step.
    rewrite (chat_is_data data Hchat).
    assert ((if (c =? tc)%nat then move_of_text (PyStr.strip data) else NotMove)
            = NotMove) as ->.
    { destruct (Nat.eqb_spec c tc) as [->|]; [|done].
      destruct Hnot as [|Hcount]; [done|]. unfold move_of_text.
      by destruct (Nat.eqb_spec (PyStr.count "," (PyStr.strip data)) 1). }
    by rewrite Hchat.
  - intros p0 p1 Hp. subst label. split.
    + intros ->. rewrite (get_sender_label_player r p0 0); [done|].
      rewrite Hp. simpl. by rewrite Nat.eqb_refl.
    + intros Hne ->. rewrite (get_sender_label_player r p1 1); [done|].
      rewrite Hp. simpl. destruct (Nat.eqb_spec p0 p1); [congruence|].
      by rewrite Nat.eqb_refl.
  - intros n Hp Hn Hfirst. apply get_sender_label_spectator; [done|].
    by apply index_Some.
  - apply get_sender_label_unknown.
Qed.

Lemma chat_relayed_with_label_witness :
  wait_step PLAYER_ONE 1 (waiting_on room_abc) (Recv 8 " CHAT: well played ")
  = Continue (waiting_on room_abc)
      ((λ c', Send c' "CHAT:spec_2:well played") <$> [1; 2; 7; 8]%nat).
Proof.
  refine (proj1 (chat_relayed_with_label PLAYER_ONE 1 (waiting_on room_abc) 8
                   " CHAT: well played " _ _ _)).
  - reflexivity.
  - reflexivity.
  - left. discriminate.
Defined.

(** C8, counterexample.  Spectators 7 and 8 joined room ABC in that order.
    While player one is awaited, spectator 7 closes its connection and is
    removed; the chat of spectator 8, second to join, is then relayed under
    the label spec_1.  And a chat of the mover that holds exactly one comma
    is read as a move whose integers do not parse: it is dropped without
    being relayed. *)
Lemma chat_label_counterexample :
  spectators room_abc = [7%nat; 8%nat]
  ∧ with_two_spectators !! "ABC" = Some room_abc
  ∧ wait_loop PLAYER_ONE 1 (waiting_on room_abc)
      [Recv 7 EmptyString; Recv 8 "CHAT:hi"]
    = Blocked (with_spectators [8%nat] room_abc)
        [Send 1 "CHAT:spec_1:hi"; Send 2 "CHAT:spec_1:hi";
         Send 8 "CHAT:spec_1:hi"]
  ∧ wait_step PLAYER_ONE 1 (waiting_on room_abc) (Recv 1 "CHAT:nice, thanks")
    = Continue (waiting_on room_abc) [].
Proof. vm_compute. repeat split. Qed.

(** ** What a call of [get_input] can do to a room *)

Lemma not_over_sends (l : list conn) (t : string) :
  t ≠ "Over" → Forall not_over ((λ c, Send c t) <$> l).
Proof. intros Ht. induction l; constructor; done. Qed.

Lemma str_matrix_not_over (m : board) : str_matrix m ≠ "Over".
Proof. done. Qed.

Lemma spectate_room_not_over (r : room) (c : conn) (nsent : nat) :
  Forall not_over (spectate_room r c nsent).2.
Proof.
  unfold spectate_room. destruct (3 <=? nsent)%nat; cbn [snd].
  - repeat constructor; done.
  - apply Forall_app. split; [|repeat constructor].
    destruct nsent as [|[|[|?]]]; repeat constructor; done.
Qed.

(** What holds after each read of a pass holds after the pass. *)
Lemma for_readable_run (cur : Z) (tc : conn) (reported : list conn)
    (P : wstate → list action → Prop) (Q : room → list action → move → Prop) :
  (∀ w out c data, P w out →
     match recv_step cur tc w c data with
     | Next w' o => P w' (out ++ o)
     | Raise => True
     | Commit r o mv => Q r (out ++ o) mv
     end) →
  ∀ readable w out, P w out →
    match for_readable cur tc reported w out readable with
    | Continue w' out' => P w' out'
    | Return r o mv => Q r o mv
    end.
Proof.
  intros Hbody readable.
  induction readable as [|rd rest IH]; intros w out HP; cbn [for_readable];
    [done|].
  assert (Hskip : P w (out ++ [])) by (by rewrite app_nil_r).
  destruct rd as [c data|c]; cbn [read_step].
  - destruct (negb (mem c reported)); [by apply IH|].
    destruct (mem c (closed w)); [done|].
    specialize (Hbody w out c data HP).
    destruct (recv_step cur tc w c data) as [w' o| |r o mv]; [|done..].
    by apply IH.
  - destruct (negb (mem c reported)); [by apply IH | done].
Qed.

Lemma select_pass_run (cur : Z) (tc : conn)
    (P : wstate → list action → Prop) (Q : room → list action → move → Prop)
    (w : wstate) (readable : list reading) :
  (∀ w out c data, P w out →
     match recv_step cur tc w c data with
     | Next w' o => P w' (out ++ o)
     | Raise => True
     | Commit r o mv => Q r (out ++ o) mv
     end) →
  P w [] →
  match select_pass cur tc w readable with
  | Continue w' out' => P w' out'
  | Return r o mv => Q r o mv
  end.
Proof.
  intros Hbody HP. unfold select_pass.
  destruct (select_raises w); [done|].
  by apply for_readable_run.
Qed.

Lemma recv_step_facts (cur : Z) (tc : conn) (w : wstate) (c : conn)
    (data : string) :
  match recv_step cur tc w c data with
  | Next w' out =>
      players (w_room w') = players (w_room w)
      ∧ matrix (w_room w') = matrix (w_room w)
      ∧ Forall not_over out
  | Raise => True
  | Commit r out mv =>
      players r = players (w_room w)
      ∧ Forall not_over out
      ∧ mark mv = cur
      ∧ set_cell (matrix (w_room w)) (row mv) (col mv) cur = Some (matrix r)
  end.
Proof.
  unfold recv_step. destruct (is_empty data).
  { destruct (mem c (spectators (w_room w))); [done|].
    destruct (mem c (players (w_room w))); [|done].
    repeat split; try done. repeat constructor. }
  destruct (if (c =? tc)%nat then _ else _) as [| |x y]; [|done|].
  - destruct (PyStr.startswith _ _); [|done].
    repeat split; try done. apply not_over_sends. done.
  - destruct (set_cell _ x y cur) as [m'|] eqn:Hset; [|done].
    repeat split; try done.
    apply Forall_app. split; apply not_over_sends; done.
Qed.

Lemma select_pass_facts (cur : Z) (tc : conn) (w : wstate)
    (readable : list reading) :
  match select_pass cur tc w readable with
  | Continue w' out =>
      players (w_room w') = players (w_room w)
      ∧ matrix (w_room w') = matrix (w_room w)
      ∧ Forall not_over out
  | Return r out mv =>
      players r = players (w_room w)
      ∧ Forall not_over out
      ∧ mark mv = cur
      ∧ set_cell (matrix (w_room w)) (row mv) (col mv) cur = Some (matrix r)
  end.
Proof.
  apply (select_pass_run cur tc
           (λ w' out, players (w_room w') = players (w_room w)
                      ∧ matrix (w_room w') = matrix (w_room w)
                      ∧ Forall not_over out)
           (λ r out mv, players r = players (w_room w)
                        ∧ Forall not_over out ∧ mark mv = cur
                        ∧ set_cell (matrix (w_room w)) (row mv) (col mv) cur
                          = Some (matrix r))); [|done].
  intros w1 out c data (Hp & Hm & Hout).
  pose proof (recv_step_facts cur tc w1 c data) as H.
  destruct (recv_step cur tc w1 c data) as [w' o| |r o mv]; [|done|].
  - destruct H as (Hp' & Hm' & Ho).
    split; [congruence|]. split; [congruence | by apply Forall_app].
  - destruct H as (Hp' & Ho & Hmark & Hset).
    split; [congruence|]. split; [by apply Forall_app|].
    split; [done | by rewrite <- Hm].
Qed.

Lemma wait_step_facts (cur : Z) (tc : conn) (w : wstate) (e : event) :
  match wait_step cur tc w e with
  | Continue w' out =>
      players (w_room w') = players (w_room w)
      ∧ matrix (w_room w') = matrix (w_room w)
      ∧ Forall not_over out
  | Return r out mv =>
      players r = players (w_room w)
      ∧ Forall not_over out
      ∧ mark mv = cur
      ∧ set_cell (matrix (w_room w)) (row mv) (col mv) cur = Some (matrix r)
  end.
Proof.
  destruct e as [c data| | |c nsent|readable]; cbn [wait_step]; try done.
  - apply select_pass_facts.
  - pose proof (spectate_room_players (w_room w) c nsent) as (Hp & Hm & _).
    pose proof (spectate_room_not_over (w_room w) c nsent) as Hout.
    destruct (spectate_room (w_room w) c nsent) as [r' out]. done.
  - apply select_pass_facts.
Qed.

Lemma wait_loop_facts (cur : Z) (tc : conn) (evs : list event) (w : wstate) :
  match wait_loop cur tc w evs with
  | Returned r out mv rest =>
      players r = players (w_room w)
      ∧ Forall not_over out
      ∧ ∃ m, mv = Some m ∧ mark m = cur
             ∧ set_cell (matrix (w_room w)) (row m) (col m) cur
               = Some (matrix r)
  | Blocked r out =>
      players r = players (w_room w)
      ∧ matrix r = matrix (w_room w)
      ∧ Forall not_over out
  end.
Proof.
  revert w. induction evs as [|e evs IH]; intros w; simpl; [done|].
  pose proof (wait_step_facts cur tc w e) as Hstep.
  destruct (wait_step cur tc w e) as [w' out|r out mv].
  - destruct Hstep as (Hp & Hm & Hout). specialize (IH w').
    destruct (wait_loop cur tc w' evs) as [r o mv rest|r o]; simpl.
    + destruct IH as (Hp' & Ho & m & -> & Hmark & Hset).
      split; [congruence|]. split; [by apply Forall_app|].
      exists m. rewrite <- Hm. done.
    + destruct IH as (Hp' & Hm' & Ho).
      split; [congruence|]. split; [congruence|]. by apply Forall_app.
  - destruct Hstep as (Hp & Hout & Hmark & Hset).
    split; [done|]. split; [done|]. by exists mv.
Qed.

Lemma get_input_facts (r : room) (cur : Z) (shut : list conn) (ok : bool)
    (evs : list event) :
  match get_input r cur shut ok evs with
  | Returned r' out mv rest =>
      players r' = players r
      ∧ Forall not_over out
      ∧ match mv with
        | Some m =>
            mark m = cur ∧ ok = true
            ∧ (2 ≤ length (players r))%nat
            ∧ set_cell (matrix r) (row m) (col m) cur = Some (matrix r')
        | None =>
            r' = r ∧ rest = evs
            ∧ (ok = false ∨ (length (players r) < 2)%nat)
        end
  | Blocked r' out =>
      players r' = players r
      ∧ matrix r' = matrix r
      ∧ Forall not_over out
      ∧ ok = true
  end.
Proof.
  unfold get_input. destruct (players r) as [|p0 [|p1 ps]] eqn:Hp.
  - repeat split; try done. right. simpl. lia.
  - repeat split; try done. right. simpl. lia.
  - set (tc := if (cur =? PLAYER_ONE)%Z then p0 else p1).
    set (label := if (cur =? PLAYER_ONE)%Z then "Player One's Turn"
                  else "Player Two's Turn").
    assert (Hlabel : Forall not_over (send_to_all r label ++ [Send tc "Input"])).
    { apply Forall_app. split; [|repeat constructor; done].
      apply not_over_sends. subst label. by destruct (cur =? PLAYER_ONE)%Z. }
    destruct ok.
    + pose proof (wait_loop_facts cur tc evs (WState r (room_conns_all r) shut))
        as Hloop.
      destruct (wait_loop cur tc _ evs) as [r' o mv rest|r' o]; simpl in *.
      * destruct Hloop as (Hp' & Ho & m & -> & Hmark & Hset).
        rewrite Hp in Hp'. split; [done|]. split; [by apply Forall_app|].
        split; [done|]. split; [done|]. split; [simpl; lia | done].
      * destruct Hloop as (Hp' & Hm & Ho). rewrite Hp in Hp'.
        split; [done|]. split; [done|]. split; [by apply Forall_app|]. done.
    + split; [done|]. split.
      { apply Forall_app. split; [done|]. repeat constructor; done. }
      split; [done|]. split; [done|]. by left.
Qed.

(** ** The loop of the engine *)

Lemma get_input_shape (r : room) (cur : Z) (shut : list conn) (ok : bool)
    (evs : list event) :
  board_3x3 (matrix r) →
  match get_input r cur shut ok evs with
  | Returned r' _ _ _ | Blocked r' _ => board_3x3 (matrix r')
  end.
Proof.
  intros Hshape. pose proof (get_input_facts r cur shut ok evs) as H.
  destruct (get_input r cur shut ok evs) as [r' out [m|] rest|r' out].
  - destruct H as (_ & _ & _ & _ & _ & Hset). by apply set_cell_shape in Hset.
  - by destruct H as (_ & _ & -> & _).
  - destruct H as (_ & -> & _). done.
Qed.

Lemma game_loop_run (ok : nat → bool) (P : engine → Prop) :
  (∀ st st', P st → iteration ok st st' → P st') →
  ∀ fuel st evs, P st →
    match game_loop fuel ok st evs with
    | Exit st' => P st' ∧ (result st' ≠ 0%Z ∨ (9 ≤ turn_count st')%nat)
    | Waiting st' => ∃ st0, P st0 ∧ blocked_in ok st0 st'
    | Raised _ =>
        ∃ st0 evs' r out mv rest,
          P st0
          ∧ get_input (e_room st0) (current_of (turn_count st0))
              (closed_in (e_out st0)) (ok (turn_count st0)) evs'
            = Returned r out mv rest
          ∧ check_winner (matrix r) = None
    | OutOfFuel _ => True
    end.
Proof.
  intros Hstep fuel.
  induction fuel as [|fuel IH]; intros st evs HP; cbn [game_loop];
    destruct (Z.eqb_spec (result st) 0) as [Hres|Hres]; cbn [andb];
    try (split; [done | by left]);
    destruct (Nat.ltb_spec (turn_count st) 9) as [Htc|Htc];
    try (split; [done | by right]).
  - done.
  - destruct (get_input _ _ _ _ evs) as [r out mv rest|r out] eqn:Hin.
    + destruct (check_winner (matrix r)) as [res|] eqn:Hw.
      * pose proof (IH (Engine r res (S (turn_count st)) (e_out st ++ out)
              (e_moves st ++ logged (turn_count st) mv)) rest) as IH'.
        match type of IH' with ?A → _ => assert (HA : A) end.
        { apply (Hstep st); [done|]. split; [done|]. split; [done|].
          by exists evs, r, out, mv, rest, res. }
        specialize (IH' HA).
        by destruct (game_loop fuel ok _ rest).
      * by exists st, evs, r, out, mv, rest.
    + exists st. split; [done|]. split; [done|]. split; [done|].
      by exists evs, r, out.
Qed.

Lemma game_loop_fuel (ok : nat → bool) (fuel : nat) (st : engine)
    (evs : list event) :
  (9 ≤ fuel + turn_count st)%nat →
  ∀ st', game_loop fuel ok st evs ≠ OutOfFuel st'.
Proof.
  revert st evs. induction fuel as [|fuel IH]; intros st evs Hfuel st';
    cbn [game_loop];
    destruct (Z.eqb_spec (result st) 0) as [Hres|Hres]; cbn [andb]; try done;
    destruct (Nat.ltb_spec (turn_count st) 9) as [Htc|Htc]; try done.
  - simpl in Hfuel. lia.
  - destruct (get_input _ _ _ _ evs) as [r out mv rest|r out]; [|done].
    destruct (check_winner (matrix r)) as [res|]; [|done].
    apply IH. simpl. lia.
Qed.

Lemma engine_inv_step (ok : nat → bool) (r0 : room) (st st' : engine) :
  engine_inv r0 st → iteration ok st st' → engine_inv r0 st'.
Proof.
  intros (Hshape & Hp & Hle & Hres & Hout)
    (Hr & Htc & evs & r & out & mv & rest & res & Hin & Hw & ->).
  pose proof (get_input_facts (e_room st) (current_of (turn_count st))
                (closed_in (e_out st))
                (ok (turn_count st)) evs) as Hf.
  pose proof (get_input_shape (e_room st) (current_of (turn_count st))
                (closed_in (e_out st))
                (ok (turn_count st)) evs Hshape) as Hs.
  rewrite Hin in Hf, Hs. destruct Hf as (Hp' & Ho & _).
  unfold engine_inv. cbn [e_room turn_count result e_out].
  split; [done|]. split; [by rewrite Hp'|]. split; [lia|].
  split; [right; split; [lia | done]|]. by apply Forall_app.
Qed.

Lemma engine_inv_initial (r : room) :
  board_3x3 (matrix r) → engine_inv r (initial r).
Proof.
  intros Hshape. split; [done|]. split; [done|]. split; [simpl; lia|].
  split; [by left | constructor].
Qed.

Lemma game_loop_safe (ok : nat → bool) (r : room) (evs : list event)
    (Q : engine → Prop) :
  board_3x3 (matrix r) →
  Q (initial r) →
  (∀ st st', engine_inv r st → Q st → iteration ok st st' → Q st') →
  match game_loop 9 ok (initial r) evs with
  | Exit st' =>
      engine_inv r st' ∧ Q st' ∧ (1 ≤ turn_count st')%nat
      ∧ check_winner (matrix (e_room st')) = Some (result st')
      ∧ (result st' ≠ 0%Z ∨ turn_count st' = 9%nat)
  | Waiting st' =>
      ∃ st0, engine_inv r st0 ∧ Q st0 ∧ blocked_in ok st0 st'
  | Raised _ | OutOfFuel _ => False
  end.
Proof.
  intros Hshape HQ HQstep.
  pose proof (game_loop_run ok (λ st, engine_inv r st ∧ Q st)) as Hrun.
  match type of Hrun with ?A → _ => assert (HA : A) end.
  { intros st st' [Hinv Hq] Hit. split.
    - by apply (engine_inv_step ok r st).
    - by apply (HQstep st). }
  specialize (Hrun HA 9%nat (initial r) evs
                (conj (engine_inv_initial r Hshape) HQ)).
  pose proof (game_loop_fuel ok 9 (initial r) evs ltac:(simpl; lia)) as Hfuel.
  destruct (game_loop 9 ok (initial r) evs) as [st'|st'|st'|st'].
  - destruct Hrun as [[Hinv Hq] Hexit]. split; [done|]. split; [done|].
    destruct Hinv as (_ & _ & Hle & Hres & _).
    destruct Hres as [[Hz Hr]|[Hone Hw]].
    + destruct Hexit; [done | lia].
    + split; [done|]. split; [done|]. destruct Hexit; [by left | right; lia].
  - destruct Hrun as (st0 & [Hinv Hq] & Hb). by exists st0.
  - destruct Hrun as (st0 & evs' & r' & out & mv & rest & [Hinv _] & Hin & Hw).
    destruct Hinv as (Hs & _).
    pose proof (get_input_shape (e_room st0) (current_of (turn_count st0))
                (closed_in (e_out st0))
                  (ok (turn_count st0)) evs' Hs) as Hs'.
    rewrite Hin in Hs'. rewrite (check_winner_lines _ Hs') in Hw. done.
  - by destruct (Hfuel st').
Qed.

(** ** A prompt that cannot be delivered *)

Lemma get_input_failed_prompt (r : room) (k : nat) (shut : list conn)
    (evs : list event) :
  (2 ≤ length (players r))%nat →
  get_input r (current_of k) shut false evs
  = Returned r
      (send_to_all r (if (current_of k =? PLAYER_ONE)%Z
                      then "Player One's Turn" else "Player Two's Turn")
       ++ [Send (mover r k) "Input"; Send (mover r k) "Error"])
      None evs.
Proof.
  intros Hlen. unfold get_input, mover.
  destruct (players r) as [|p0 [|p1 ps]]; simpl in Hlen; try lia.
  by rewrite <- app_assoc.
Qed.

(** C2 (amended).  When the send of the prompt fails, [get_input] sends
    nothing more than an "Error" notice to the same connection, reads no
    message, leaves the room as it is and returns; the engine then counts
    the iteration and carries on with the loop from the next value of
    [turn_count]: the game of the room is not aborted. *)
Theorem failed_prompt_skips_the_ply (ok : nat → bool) (fuel : nat)
    (st : engine) (evs : list event) (w : Z) :
  (2 ≤ length (players (e_room st)))%nat →
  result st = 0%Z → (turn_count st < 9)%nat →
  ok (turn_count st) = false →
  check_winner (matrix (e_room st)) = Some w →
  let r := e_room st in
  let out :=
    send_to_all r (if (current_of (turn_count st) =? PLAYER_ONE)%Z
                   then "Player One's Turn" else "Player Two's Turn")
    ++ [Send (mover r (turn_count st)) "Input";
        Send (mover r (turn_count st)) "Error"] in
  (∀ shut,
     get_input r (current_of (turn_count st)) shut false evs
     = Returned r out None evs)
  ∧ game_loop (S fuel) ok st evs
    = game_loop fuel ok
        (Engine r w (S (turn_count st)) (e_out st ++ out) (e_moves st)) evs.
Proof.
  intros Hlen Hres Htc Hok Hw r out.
  pose proof (λ shut, get_input_failed_prompt r (turn_count st) shut evs Hlen)
    as Hin.
  split; [exact Hin|].
  cbn [game_loop]. rewrite Hres. cbn [Z.eqb andb].
  destruct (Nat.ltb_spec (turn_count st) 9) as [_|]; [|lia].
  rewrite Hok. fold r. rewrite Hin. subst r. rewrite Hw.
  cbn [logged]. by rewrite app_nil_r.
Qed.

Lemma failed_prompt_skips_the_ply_witness :
  game_loop 9 first_prompt_fails (initial room_two) [Recv 2 "1,1"]
  = game_loop 8 first_prompt_fails
      (Engine room_two 0 1
         [Send 1 "Player One's Turn"; Send 2 "Player One's Turn";
          Send 1 "Input"; Send 1 "Error"] [])
      [Recv 2 "1,1"].
Proof.
  refine (proj2 (failed_prompt_skips_the_ply first_prompt_fails 8
                   (initial room_two) [Recv 2 "1,1"] 0 _ _ _ _ _)).
  - simpl. lia.
  - reflexivity.
  - simpl. lia.
  - reflexivity.
  - reflexivity.
Defined.

(** C2, counterexample.  Players 1 and 2 are in room ABC and the prompt of
    the first iteration cannot be sent to player one.  The game is not
    aborted: player two is announced and prompted, its move 1,1 is
    committed and broadcast, and the engine then prompts player one again
    and waits. *)
Lemma play_goes_on_after_failed_prompt_counterexample :
  first_prompt_fails 0 = false
  ∧ two_players !! "ABC" = Some room_two
  ∧ start_game_for_room two_players "ABC" first_prompt_fails [Recv 2 "1,1"]
    = Unfinished
        (Waiting
           (Engine
              (with_matrix [[0; 0; 0]; [0; 2; 0]; [0; 0; 0]]%Z room_two) 0 2
              [Send 1 "Player One's Turn"; Send 2 "Player One's Turn";
               Send 1 "Input"; Send 1 "Error";
               Send 1 "Player Two's Turn"; Send 2 "Player Two's Turn";
               Send 2 "Input";
               Send 1 "Matrix"; Send 2 "Matrix";
               Send 1 "[[0, 0, 0], [0, 2, 0], [0, 0, 0]]";
               Send 2 "[[0, 0, 0], [0, 2, 0], [0, 0, 0]]";
               Send 1 "Player One's Turn"; Send 2 "Player One's Turn";
               Send 1 "Input"]
              [(1%nat, Move PLAYER_TWO 1 1)])).
Proof. vm_compute. repeat split. Qed.

(** ** Who moves when *)

Lemma current_of_parity (k : nat) :
  current_of k = if Nat.even k then PLAYER_ONE else PLAYER_TWO.
Proof.
  unfold current_of. rewrite <- Nat.bit0_mod, Nat.bit0_odd, <- Nat.negb_even.
  by destruct (Nat.even k).
Qed.

Lemma recv_step_commit (cur : Z) (tc : conn) (w : wstate) (c : conn)
    (data : string) (r : room) (out : list action) (mv : move) :
  recv_step cur tc w c data = Commit r out mv → c = tc ∧ mark mv = cur.
Proof.
  unfold recv_step. destruct (is_empty data).
  { destruct (mem c (spectators (w_room w))); [done|].
    by destruct (mem c (players (w_room w))). }
  destruct (Nat.eqb_spec c tc) as [->|Hne].
  - destruct (move_of_text _) as [| |x y]; [|done|].
    + by destruct (PyStr.startswith _ _).
    + destruct (set_cell _ x y cur); [|done]. by intros [= <- <- <-].
  - by destruct (PyStr.startswith _ _).
Qed.

Lemma for_readable_return_mover (cur : Z) (tc : conn) (reported : list conn)
    (readable : list reading) (w : wstate) (out0 : list action)
    (r : room) (out : list action) (mv : move) :
  for_readable cur tc reported w out0 readable = Return r out mv →
  ∃ data, Data tc data ∈ readable ∧ mark mv = cur.
Proof.
  revert w out0. induction readable as [|rd rest IH]; intros w out0;
    cbn [for_readable]; [done|].
  destruct (read_step cur tc reported w rd) as [w' o| |r' o mv'] eqn:Hrd.
  - intros (data & Hin & Hmark)%IH. exists data. split; [by right | done].
  - done.
  - intros [= <- <- <-]. destruct rd as [c data|c]; cbn [read_step] in Hrd.
    + destruct (negb (mem c reported)); [done|].
      destruct (mem c (closed w)); [done|].
      apply recv_step_commit in Hrd as [-> Hmark].
      exists data. split; [by left | done].
    + by destruct (negb (mem c reported)).
Qed.

Lemma wait_step_return_mover (cur : Z) (tc : conn) (w : wstate) (e : event)
    (r : room) (out : list action) (mv : move) :
  wait_step cur tc w e = Return r out mv →
  ∃ data,
    (e = Recv tc data ∨ ∃ readable, e = Select readable ∧ Data tc data ∈ readable)
    ∧ mark mv = cur.
Proof.
  destruct e as [c data| | |c nsent|readable]; cbn [wait_step]; try done.
  - unfold select_pass. destruct (select_raises w); [done|].
    intros (data' & Hin & Hmark)%for_readable_return_mover.
    apply list_elem_of_singleton in Hin as [= -> ->].
    exists data. split; [by left | done].
  - by destruct (spectate_room (w_room w) c nsent).
  - unfold select_pass. destruct (select_raises w); [done|].
    intros (data & Hin & Hmark)%for_readable_return_mover.
    exists data. split; [right; by exists readable | done].
Qed.

Lemma moves_inv_initial (ok : nat → bool) (r : room) :
  moves_inv ok r (initial r).
Proof. repeat split; done. Qed.

Lemma moves_inv_step (ok : nat → bool) (r0 : room) (st st' : engine) :
  engine_inv r0 st → moves_inv ok r0 st → iteration ok st st' →
  moves_inv ok r0 st'.
Proof.
  intros (_ & Hp & _) (Hmark & Hsorted & Hall & Hnone)
    (Hr & Htc & evs & r & out & mv & rest & res & Hin & Hw & ->).
  pose proof (get_input_facts (e_room st) (current_of (turn_count st))
                (closed_in (e_out st))
                (ok (turn_count st)) evs) as Hf.
  rewrite Hin in Hf. destruct Hf as (_ & _ & Hmv). rewrite Hp in Hmv.
  unfold moves_inv. cbn [e_moves turn_count].
  destruct mv as [m|]; cbn [logged].
  - destruct Hmv as (Hm & Hok & Hlen & _).
    split; [|split; [|split]].
    + intros i k mv [Hold|[_ Hnew]]%lookup_app_Some.
      * destruct (Hmark i k mv Hold). split; [done | lia].
      * destruct (i - length (e_moves st))%nat; [|done].
        injection Hnew as <- <-. split; [done | lia].
    + intros i j ki kj mi mj Hij [Hi|[Hge Hi]]%lookup_app_Some
        [Hj|[_ Hj]]%lookup_app_Some.
      * by apply (Hsorted i j ki kj mi mj).
      * destruct (j - length (e_moves st))%nat; [|done].
        injection Hj as <- <-. by destruct (Hmark i ki mi Hi).
      * apply lookup_lt_Some in Hj. lia.
      * destruct (i - length (e_moves st))%nat eqn:Ei; [|done].
        destruct (j - length (e_moves st))%nat eqn:Ej; [|done]. lia.
    + intros Hallok H2. rewrite fmap_app, (Hall Hallok H2). cbn [fmap list_fmap fst].
      by rewrite seq_S.
    + intros Hlt. lia.
  - destruct Hmv as (_ & _ & Hwhy). rewrite app_nil_r.
    split; [|split; [|split]].
    + intros i k mv Hold. destruct (Hmark i k mv Hold). split; [done | lia].
    + done.
    + intros Hallok H2. destruct Hwhy as [Hfail|Hlt]; [|lia].
      rewrite (Hallok (turn_count st) Htc) in Hfail. done.
    + done.
Qed.

(** C5 (amended).  The iteration entered with [turn_count = k] is played
    for player one when k is even and for player two when k is odd, and
    only a message of that player's connection can commit a move in it.
    Hence every committed move carries the mark that the parity of its
    iteration gives, and the committed moves come in the order of their
    iterations, at most one per iteration.  An iteration whose prompt is
    not delivered commits no move; when every prompt is delivered, the i-th
    committed move is the move of iteration i, so that the moves alternate
    player one, player two, from player one on. *)
Theorem mover_by_parity (ok : nat → bool) (r : room) (evs : list event) :
  board_3x3 (matrix r) →
  let st := final_state (game_loop 9 ok (initial r) evs) in
  (∀ k, current_of k = if Nat.even k then PLAYER_ONE else PLAYER_TWO)
  ∧ (∀ cur tc w e r' out mv,
       wait_step cur tc w e = Return r' out mv →
       ∃ data,
         (e = Recv tc data
          ∨ ∃ readable, e = Select readable ∧ Data tc data ∈ readable)
         ∧ mark mv = cur)
  ∧ (∀ i k mv, e_moves st !! i = Some (k, mv) →
       mark mv = current_of k ∧ (k < 9)%nat ∧ ok k = true)
  ∧ (∀ i j ki kj mi mj, (i < j)%nat →
       e_moves st !! i = Some (ki, mi) → e_moves st !! j = Some (kj, mj) →
       (ki < kj)%nat)
  ∧ ((∀ j, (j < 9)%nat → ok j = true) →
     ∀ i k mv, e_moves st !! i = Some (k, mv) →
       k = i ∧ mark mv = current_of i).
Proof.
  intros Hshape st.
  split; [exact current_of_parity|]. split; [exact wait_step_return_mover|].
  pose proof (game_loop_safe ok r evs
                (λ s, moves_inv ok r s
                      ∧ ∀ i k mv, e_moves s !! i = Some (k, mv) → ok k = true)
                Hshape) as Hsafe.
  match type of Hsafe with ?A → ?B → _ =>
    assert (HA : A); [|assert (HB : B); [|specialize (Hsafe HA HB)]] end.
  { split; [apply moves_inv_initial | done]. }
  { intros s s' Hinv [Hq Hoks] Hit. split.
    - by apply (moves_inv_step ok r s).
    - destruct Hit as (_ & _ & evs' & r' & out & mv & rest & res & Hin & _ & ->).
      pose proof (get_input_facts (e_room s) (current_of (turn_count s))
                (closed_in (e_out s))
                    (ok (turn_count s)) evs') as Hf.
      rewrite Hin in Hf. destruct Hf as (_ & _ & Hmv).
      cbn [e_moves]. intros i k m [Hold|[_ Hnew]]%lookup_app_Some.
      + by apply (Hoks i k m).
      + destruct mv as [m'|]; cbn [logged] in Hnew; [|by rewrite lookup_nil in Hnew].
        destruct (i - length (e_moves s))%nat; [|done].
        injection Hnew as <- <-. by destruct Hmv as (_ & ? & _). }
  assert (Hst : ∃ s, engine_inv r s
                     ∧ (moves_inv ok r s
                        ∧ ∀ i k mv, e_moves s !! i = Some (k, mv) → ok k = true)
                     ∧ e_moves st = e_moves s ∧ turn_count st = turn_count s).
  { subst st. destruct (game_loop 9 ok (initial r) evs) as [s|s|s|s];
      cbn [final_state]; try done.
    - destruct Hsafe as (Hinv & Hq & _). by exists s.
    - destruct Hsafe as (s0 & Hinv & Hq & _ & _ & evs' & r' & out & _ & ->).
      by exists s0. }
  destruct Hst as (s & (_ & Hp & Hle & _) & [(Hmark & Hsorted & Hall & Hnone) Hoks]
                   & Hmoves & Htc).
  rewrite Hmoves. split; [|split].
  - intros i k mv Hi. destruct (Hmark i k mv Hi). split; [done|].
    split; [lia | by apply (Hoks i k mv)].
  - exact Hsorted.
  - intros Hallok i k mv Hi.
    destruct (Nat.lt_ge_cases (length (players r)) 2) as [Hlt|Hge].
    { rewrite (Hnone Hlt) in Hi. by rewrite lookup_nil in Hi. }
    assert ((e_moves s).*1 !! i = Some k) as Hk
      by (by rewrite list_lookup_fmap, Hi).
    rewrite (Hall Hallok Hge) in Hk. apply lookup_seq in Hk as [-> _].
    split; [done|]. by destruct (Hmark i i mv Hi).
Qed.

Lemma mover_by_parity_witness :
  board_3x3 (matrix room_two)
  ∧ (1%nat = 1%nat ∧ mark (Move PLAYER_TWO 1 0) = current_of 1).
Proof.
  assert (H : board_3x3 (matrix room_two)).
  { split; [reflexivity|]. repeat constructor. }
  split; [exact H|].
  exact (proj2 (proj2 (proj2 (proj2
           (mover_by_parity always room_two quick_win H))))
           (λ j _, eq_refl) 1%nat 1%nat (Move PLAYER_TWO 1 0) eq_refl).
Defined.

(** C5, counterexample.  No prompt can be sent to player one of room ABC,
    every prompt reaches player two.  The first committed move is a move
    of player two, and so is the second: player one's turns are passed
    over. *)
Lemma same_player_moves_twice_counterexample :
  only_player_two_prompted 0 = false
  ∧ e_moves (state_of (start_game_for_room two_players "ABC"
                         only_player_two_prompted
                         [Recv 2 "0,0"; Recv 2 "0,1"]))
    = [(1%nat, Move PLAYER_TWO 0 0); (3%nat, Move PLAYER_TWO 0 1)]
  ∧ matrix (e_room (state_of (start_game_for_room two_players "ABC"
                                only_player_two_prompted
                                [Recv 2 "0,0"; Recv 2 "0,1"])))
    = [[2; 2; 0]; [0; 0; 0]; [0; 0; 0]]%Z.
Proof. vm_compute. repeat split. Qed.

(** ** The game ends *)



Lemma no_socket_closed (l : list conn) :
  forallb (λ s, negb (mem s [])) l = true.
Proof. by induction l. Qed.

Lemma mem_true (c : conn) (l : list conn) : c ∈ l → mem c l = true.
Proof.
  intros Hin. unfold mem. destruct (index c l) eqn:Hi; [done|].
  by apply index_None in Hi.
Qed.

Lemma closed_in_app (out1 out2 : list action) :
  closed_in (out1 ++ out2) = closed_in out1 ++ closed_in out2.
Proof. apply omap_app. Qed.

Lemma closed_in_sends (l : list conn) (t : string) :
  closed_in ((λ c, Send c t) <$> l) = [].
Proof. by induction l. Qed.






(** ** Terminal handling *)

(** C7.  When [start_game_for_room] finishes, what it has sent and closed
    ends with: "Over" to every player and spectator of the room, then one
    and the same result line to each of them, then the closing of each of
    them; no "Over" was sent before.  The result line is the one of player
    one when the result is 1, the one of player two when it is 2, the draw
    line otherwise, and the result is the verdict of the evaluator on the
    final board.  The room is removed from the directory, which is
    otherwise unchanged. *)
Theorem game_over_announced_and_room_removed (rooms : gmap string room)
    (code : string) (ok : nat → bool) (evs : list event)
    (rooms' : gmap string room) (st : engine) :
  start_game_for_room rooms code ok evs = Finished rooms' st →
  let conns := players (e_room st) ++ spectators (e_room st) in
  (∃ pre,
     e_out st
     = pre ++ ((λ c, Send c "Over") <$> conns)
           ++ ((λ c, Send c (lastmsg (result st))) <$> conns)
           ++ (Close <$> conns)
     ∧ Forall not_over pre)
  ∧ (result st = PLAYER_ONE → lastmsg (result st) = "Player One is the winner!!")
  ∧ (result st = PLAYER_TWO → lastmsg (result st) = "Player Two is the winner!!")
  ∧ (result st ≠ PLAYER_ONE → result st ≠ PLAYER_TWO →
     lastmsg (result st) = "Draw game!! Try again later!")
  ∧ check_winner (matrix (e_room st)) = Some (result st)
  ∧ rooms' = delete code rooms
  ∧ rooms' !! code = None.
Proof.
  unfold start_game_for_room. destruct (rooms !! code) as [r|]; [|done].
  pose proof (game_loop_run ok
                (λ s, Forall not_over (e_out s)
                      ∧ (turn_count s = 0%nat ∧ result s = 0%Z
                         ∨ check_winner (matrix (e_room s)) = Some (result s))))
    as Hrun.
  match type of Hrun with ?A → _ => assert (HA : A) end.
  { intros s s' [Hout _]
      (_ & _ & evs' & r' & out & mv & rest & res & Hin & Hw & ->).
    pose proof (get_input_facts (e_room s) (current_of (turn_count s))
                (closed_in (e_out s))
                  (ok (turn_count s)) evs') as Hf.
    rewrite Hin in Hf. destruct Hf as (_ & Ho & _).
    cbn [e_out e_room result turn_count]. split; [by apply Forall_app | by right]. }
  specialize (Hrun HA 9%nat (Engine r 0 0 [] []) evs).
  match type of Hrun with ?A → _ => assert (HB : A) end.
  { split; [constructor | by left]. }
  specialize (Hrun HB).
  destruct (game_loop 9 ok (Engine r 0 0 [] []) evs) as [s|s|s|s]; try done.
  destruct Hrun as [[Hout Hres] Hexit].
  intros [= <- <-]. cbn [e_room e_out result]. split; [|split; [|split; [|split; [|split; [|split]]]]].
  - exists (e_out s). split; [|done]. unfold game_over, send_common_msg, send_to_all,
      room_conns_all. done.
  - intros ->. done.
  - intros ->. done.
  - intros H1 H2. unfold lastmsg.
    destruct (Z.eqb_spec (result s) PLAYER_ONE); [done|].
    by destruct (Z.eqb_spec (result s) PLAYER_TWO).
  - destruct Hres as [[Hz Hr]|Hw]; [|done]. destruct Hexit; [done | lia].
  - done.
  - apply lookup_delete_eq.
Qed.

Lemma game_over_announced_and_room_removed_witness :
  start_game_for_room two_players "ABC" always quick_win
  = Finished (delete "ABC" two_players)
      (state_of (start_game_for_room two_players "ABC" always quick_win))
  ∧ ∃ pre,
      e_out (state_of (start_game_for_room two_players "ABC" always quick_win))
      = pre ++ [Send 1 "Over"; Send 2 "Over"]
            ++ [Send 1 "Player One is the winner!!";
                Send 2 "Player One is the winner!!"]
            ++ [Close 1; Close 2]
      ∧ Forall not_over pre.
Proof.
  assert (H : start_game_for_room two_players "ABC" always quick_win
              = Finished (delete "ABC" two_players)
                  (state_of (start_game_for_room two_players "ABC" always
                               quick_win))).
  { vm_compute. reflexivity. }
  split; [exact H|].
  exact (proj1 (game_over_announced_and_room_removed two_players "ABC" always
                  quick_win _ _ H)).
Defined.

(** ** A player that closes its connection

    The read of a closed stream from a player makes the loop close that
    socket and keep it in the snapshot.  The sockets that the same call of
    [select] returned are still read; from the next pass on [select]
    raises, so no message is read any more and the call never returns,
    whatever arrives. *)

Lemma select_reports_closed (w : wstate) (s c : conn) :
  s ∈ sockets w → s ∈ closed w → select_reports w c = false.
Proof.
  intros Hs Hc. unfold select_reports.
  destruct (forallb _ (sockets w)) eqn:Hall; [|by rewrite andb_false_r].
  rewrite forallb_forall in Hall. specialize (Hall s).
  rewrite <- list_elem_of_In in Hall. specialize (Hall Hs).
  by rewrite (mem_true s (closed w) Hc) in Hall.
Qed.

Lemma select_raises_closed (w : wstate) (s : conn) :
  s ∈ sockets w → s ∈ closed w → select_raises w = true.
Proof.
  intros Hs Hc. unfold select_raises.
  destruct (forallb _ (sockets w)) eqn:Hall; [|done].
  rewrite forallb_forall in Hall. specialize (Hall s).
  rewrite <- list_elem_of_In in Hall. specialize (Hall Hs).
  by rewrite (mem_true s (closed w) Hc) in Hall.
Qed.

Lemma select_pass_stuck (cur : Z) (tc : conn) (w : wstate) (s : conn)
    (readable : list reading) :
  s ∈ sockets w → s ∈ closed w →
  select_pass cur tc w readable = Continue w [].
Proof.
  intros Hs Hc. unfold select_pass. by rewrite (select_raises_closed w s).
Qed.

(** Once a socket of the snapshot is closed, a pass changes nothing but
    the spectators that join, and no pass returns. *)
Lemma wait_step_stuck (cur : Z) (tc : conn) (w : wstate) (s : conn)
    (e : event) :
  s ∈ sockets w → s ∈ closed w →
  ∃ w' out, wait_step cur tc w e = Continue w' out
            ∧ s ∈ sockets w' ∧ s ∈ closed w'
            ∧ closed_in out ⊆ closed w'.
Proof.
  intros Hs Hc.
  destruct e as [c data| | |c nsent|readable]; cbn [wait_step].
  - rewrite (select_pass_stuck cur tc w s) by done.
    eexists _, _. repeat split; try done. apply list_subseteq_nil.
  - eexists _, _. repeat split; try done. apply list_subseteq_nil.
  - eexists _, _. repeat split; try done. apply list_subseteq_nil.
  - destruct (spectate_room (w_room w) c nsent) as [r' out].
    eexists _, _. split; [done|]. cbn [sockets closed].
    split; [done|]. split; [apply elem_of_app; by right|].
    intros x Hx. apply elem_of_app. by left.
  - rewrite (select_pass_stuck cur tc w s) by done.
    eexists _, _. repeat split; try done. apply list_subseteq_nil.
Qed.

Lemma wait_loop_stuck (cur : Z) (tc : conn) (evs : list event) (w : wstate)
    (s : conn) :
  s ∈ sockets w → s ∈ closed w →
  ∃ r out, wait_loop cur tc w evs = Blocked r out.
Proof.
  revert w. induction evs as [|e evs IH]; intros w Hs Hc; cbn [wait_loop].
  { eauto. }
  destruct (wait_step_stuck cur tc w s e Hs Hc)
    as (w' & out & -> & Hs' & Hc' & _).
  destruct (IH w' Hs' Hc') as (r & o & ->). cbn [prepend]. eauto.
Qed.

Lemma mem_false (c : conn) (l : list conn) : c ∉ l → mem c l = false.
Proof. intros Hc. unfold mem. by rewrite (proj2 (index_None c l) Hc). Qed.

Lemma player_disconnect_blocks (r : room) (k : nat) (p : conn)
    (evs : list event) :
  (2 ≤ length (players r))%nat → p ∈ players r → p ∉ spectators r →
  ∃ r' out, get_input r (current_of k) [] true (Recv p EmptyString :: evs)
            = Blocked r' out.
Proof.
  intros Hlen Hp Hs. unfold get_input.
  destruct (players r) as [|p0 [|p1 ps]] eqn:Hplayers; simpl in Hlen; try lia.
  set (tc := if (current_of k =? PLAYER_ONE)%Z then p0 else p1).
  assert (Hin : p ∈ room_conns_all r).
  { unfold room_conns_all. rewrite Hplayers. apply elem_of_app. by left. }
  assert (Hstep : wait_step (current_of k) tc (WState r (room_conns_all r) [])
                    (Recv p EmptyString)
                  = Continue (WState r (room_conns_all r) [p]) [Close p]).
  { rewrite wait_step_Recv.
    - unfold recv_step. cbn [w_room closed is_empty step_of].
      rewrite (mem_false p _ Hs), Hplayers. by rewrite mem_true.
    - unfold select_reports. cbn [w_room sockets closed].
      by rewrite no_socket_closed, andb_true_r, (mem_true p _ Hin). }
  cbn [wait_loop]. rewrite Hstep.
  destruct (wait_loop_stuck (current_of k) tc evs
              (WState r (room_conns_all r) [p]) p) as (r' & out & ->).
  - done.
  - cbn [closed]. apply elem_of_cons. by left.
  - cbn [prepend]. eauto.
Qed.

Lemma game_loop_blocked (ok : nat → bool) (fuel : nat) (st : engine)
    (evs : list event) (r : room) (out : list action) :
  result st = 0%Z → (turn_count st < 9)%nat →
  get_input (e_room st) (current_of (turn_count st)) (closed_in (e_out st))
    (ok (turn_count st)) evs
  = Blocked r out →
  game_loop (S fuel) ok st evs
  = Waiting (Engine r (result st) (turn_count st) (e_out st ++ out)
               (e_moves st)).
Proof.
  intros Hres Htc Hin. cbn [game_loop].
  destruct (Z.eqb_spec (result st) 0) as [_|]; [|done].
  destruct (Nat.ltb_spec (turn_count st) 9) as [_|]; [|lia].
  cbn [andb]. by rewrite Hin.
Qed.

Example first_mover_disconnects (evs : list event) :
  ∃ st, start_game_for_room two_players "ABC" always
          (Recv 1 EmptyString :: evs)
        = Unfinished (Waiting st)
        ∧ turn_count st = 0%nat.
Proof.
  destruct (player_disconnect_blocks room_two 0 1 evs) as (r' & out & Hin).
  - simpl. lia.
  - set_solver.
  - set_solver.
  - assert (Hroom : two_players !! "ABC" = Some room_two)
      by (vm_compute; reflexivity).
    unfold start_game_for_room. rewrite Hroom.
    assert (Hloop : game_loop 9 always (Engine room_two 0 0 [] [])
                      (Recv 1 EmptyString :: evs)
                    = Waiting (Engine r' 0 0 out [])).
    { apply (game_loop_blocked always 8 (initial room_two)
               (Recv 1 EmptyString :: evs) r' out); [done | simpl; lia |].
      exact Hin. }
    rewrite Hloop. eauto.
Qed.

(** * Further properties of the server *)

(** ** The evaluator and the lines *)

Lemma line_mark_nonzero (m : board) (l : line) (v : Z) :
  line_mark m l = Some v → v ≠ 0%Z.
Proof. intros H. apply line_mark_completes in H as (_ & Hnz & _). done. Qed.

Lemma first_mark_cases (m : board) (ls : list line) :
  (first_mark m ls = 0%Z ∧ ∀ l, l ∈ ls → line_mark m l = None)
  ∨ ∃ l, l ∈ ls ∧ line_mark m l = Some (first_mark m ls).
Proof.
  induction ls as [|l0 ls IH]; simpl.
  - left. split; [done|]. intros l Hl. by apply elem_of_nil in Hl.
  - destruct (line_mark m l0) as [v|] eqn:Hv.
    + right. exists l0. split; [apply elem_of_cons; by left | done].
    + destruct IH as [[Hz Hall]|(l & Hl & Hm)].
      * left. split; [done|]. intros l [->|Hl]%elem_of_cons; [done | by apply Hall].
      * right. exists l. split; [apply elem_of_cons; by right | done].
Qed.

Lemma evaluator_verdict (m : board) :
  board_3x3 m →
  (check_winner m = Some 0%Z
   ↔ ∀ l v, l ∈ winning_lines → ¬ completes m l v)
  ∧ (∀ v, check_winner m = Some v → v ≠ 0%Z →
       ∃ l, l ∈ winning_lines ∧ completes m l v).
Proof.
  intros Hm. rewrite (check_winner_lines m Hm). unfold winner_by_lines.
  destruct (first_mark_cases m winning_lines) as [[Hz Hall]|(l & Hl & Hv)].
  - rewrite Hz. split.
    + split; [|done]. intros _ l v Hl Hc.
      assert (line_mark m l = Some v) as E.
      { apply line_mark_completes. split; [|done].
        by apply winning_lines_nonempty. }
      rewrite (Hall l Hl) in E. done.
    + intros v [= <-] Hnz. done.
  - pose proof (line_mark_nonzero m l _ Hv) as Hnz.
    apply line_mark_completes in Hv as Hc. destruct Hc as [_ Hc]. split.
    + split.
      * intros [= E]. done.
      * intros Hnone. by destruct (Hnone l (first_mark m winning_lines) Hl).
    + intros v [= <-] _. by exists l.
Qed.

(** X1.  On a 3x3 board the evaluator reports 0 exactly when none of the
    eight lines holds three equal non-empty marks, and a non-zero verdict
    is the mark of a line that is completed on that board. *)
Theorem check_winner_sound_and_complete (m : board) :
  board_3x3 m →
  (check_winner m = Some 0%Z
   ↔ ∀ l v, l ∈ winning_lines → ¬ completes m l v)
  ∧ (∀ v, check_winner m = Some v → v ≠ 0%Z →
       ∃ l, l ∈ winning_lines ∧ completes m l v).
Proof. exact (evaluator_verdict m). Qed.

Lemma check_winner_sound_and_complete_witness :
  board_3x3 board_two_lines
  ∧ ∃ l, l ∈ winning_lines ∧ completes board_two_lines l 1.
Proof.
  assert (H : board_3x3 board_two_lines).
  { split; [reflexivity|]. repeat constructor. }
  split; [exact H|].
  refine (proj2 (check_winner_sound_and_complete board_two_lines H) 1%Z _ _).
  - reflexivity.
  - discriminate.
Defined.

(** ** Subscripts of a write *)

Lemma py_index_3 (x : Z) (i : nat) :
  py_index 3 x = Some i ↔ (-3 ≤ x ≤ 2)%Z ∧ i = wrap3 x.
Proof.
  destruct (decide (-3 ≤ x ≤ 2)%Z) as [Hr|Hr].
  - assert (x = -3 ∨ x = -2 ∨ x = -1 ∨ x = 0 ∨ x = 1 ∨ x = 2)%Z
      as [-> | [-> | [-> | [-> | [-> | -> ]]]]] by lia;
      (split; [intros [= <-]; split; [lia | reflexivity]
              | intros [_ ->]; reflexivity]).
  - rewrite py_index_None by (simpl; lia). split; [done | intros [? _]; lia].
Qed.

Lemma wrap3_lt (x : Z) : (wrap3 x < 3)%nat.
Proof. unfold wrap3. pose proof (Z.mod_pos_bound x 3 ltac:(lia)). lia. Qed.

Lemma set_cell_written (m m' : board) (x y v : Z) :
  board_3x3 m → set_cell m x y v = Some m' →
  (-3 ≤ x ≤ 2)%Z ∧ (-3 ≤ y ≤ 2)%Z
  ∧ cell m' (wrap3 x) (wrap3 y) = Some v
  ∧ ∀ i j, (i, j) ≠ (wrap3 x, wrap3 y) → cell m' i j = cell m i j.
Proof.
  intros [Hlen Hrows]. unfold set_cell. rewrite Hlen.
  destruct (py_index 3 x) as [i|] eqn:Hi; [|done]. cbn [mbind option_bind].
  apply py_index_3 in Hi as [Hx ->].
  destruct (m !! wrap3 x) as [r|] eqn:Hr; [|done]. cbn [mbind option_bind].
  pose proof (Forall_lookup_1 _ _ _ _ Hrows Hr) as Hr3. rewrite Hr3.
  destruct (py_index 3 y) as [j|] eqn:Hj; [|done]. cbn [mbind option_bind].
  apply py_index_3 in Hj as [Hy ->]. intros [= <-].
  split; [done|]. split; [done|]. unfold cell. split.
  - rewrite list_lookup_insert_eq by (apply lookup_lt_Some in Hr; done).
    cbn [mbind option_bind]. apply list_lookup_insert_eq.
    rewrite Hr3. apply wrap3_lt.
  - intros i j Hne. destruct (decide (i = wrap3 x)) as [->|Hi].
    + rewrite list_lookup_insert_eq by (apply lookup_lt_Some in Hr; done).
      rewrite Hr. cbn [mbind option_bind]. apply list_lookup_insert_ne. congruence.
    + by rewrite list_lookup_insert_ne.
Qed.

Lemma set_cell_accepts (m : board) (x y v : Z) :
  board_3x3 m → (-3 ≤ x ≤ 2)%Z → (-3 ≤ y ≤ 2)%Z → is_Some (set_cell m x y v).
Proof.
  intros [Hlen Hrows] Hx Hy. unfold set_cell. rewrite Hlen.
  rewrite (proj2 (py_index_3 x (wrap3 x))) by done. cbn [mbind option_bind].
  destruct (m !! wrap3 x) as [r|] eqn:Hr.
  2:{ apply lookup_ge_None in Hr. pose proof (wrap3_lt x). lia. }
  cbn [mbind option_bind]. rewrite (Forall_lookup_1 _ _ _ _ Hrows Hr).
  rewrite (proj2 (py_index_3 y (wrap3 y))) by done. cbn [mbind option_bind].
  eauto.
Qed.

(** X2.  The write [matrix[x][y] = v] on a 3x3 board is accepted exactly
    when both subscripts lie in -3..2; subscripts -3..-1 count from the
    end, so the cell written is (x mod 3, y mod 3).  An accepted write
    keeps the board 3x3, puts [v] in that cell and changes no other
    cell. *)
Theorem set_cell_python_subscripts (m : board) (x y v : Z) :
  board_3x3 m →
  (is_Some (set_cell m x y v) ↔ (-3 ≤ x ≤ 2)%Z ∧ (-3 ≤ y ≤ 2)%Z)
  ∧ ∀ m', set_cell m x y v = Some m' →
      board_3x3 m'
      ∧ cell m' (wrap3 x) (wrap3 y) = Some v
      ∧ ∀ i j, (i, j) ≠ (wrap3 x, wrap3 y) → cell m' i j = cell m i j.
Proof.
  intros Hm. split.
  - split.
    + intros [m' Hset].
      by destruct (set_cell_written m m' x y v Hm Hset) as (? & ? & _).
    + intros [Hx Hy]. by apply set_cell_accepts.
  - intros m' Hset. split; [by apply (set_cell_shape m m' x y v)|].
    by destruct (set_cell_written m m' x y v Hm Hset) as (_ & _ & ? & ?).
Qed.

Lemma set_cell_python_subscripts_witness :
  board_3x3 board_two_lines
  ∧ (is_Some (set_cell board_two_lines (-1) 2 2) ↔ (-3 ≤ -1 ≤ 2)%Z ∧ (-3 ≤ 2 ≤ 2)%Z).
Proof.
  assert (H : board_3x3 board_two_lines).
  { split; [reflexivity|]. repeat constructor. }
  split; [exact H|].
  exact (proj1 (set_cell_python_subscripts board_two_lines (-1) 2 2 H)).
Defined.

Lemma write_verdict (m m' : board) (x y v : Z) :
  board_3x3 m → check_winner m = Some 0%Z → set_cell m x y v = Some m' →
  check_winner m' = Some 0%Z ∨ check_winner m' = Some v.
Proof.
  intros Hm Hzero Hset.
  pose proof (set_cell_shape m m' x y v Hm Hset) as Hm'.
  destruct (set_cell_written m m' x y v Hm Hset) as (_ & _ & Hcell & Hothers).
  destruct (evaluator_verdict m Hm) as [Hz _].
  destruct (evaluator_verdict m' Hm') as [_ Hline'].
  rewrite (check_winner_lines m' Hm') in *.
  destruct (decide (winner_by_lines m' = 0%Z)) as [->|Hnz]; [by left|].
  right. f_equal.
  destruct (Hline' _ eq_refl Hnz) as (l & Hl & Hnz' & Hall).
  destruct (decide ((wrap3 x, wrap3 y) ∈ l)) as [Hin|Hout].
  - specialize (Hall _ _ Hin). rewrite Hcell in Hall. congruence.
  - exfalso. apply (proj1 Hz Hzero l (winner_by_lines m') Hl).
    split; [done|]. intros i j Hij. rewrite <- Hothers; [by apply Hall|].
    intros [= -> ->]. done.
Qed.

(** X3.  A single write cannot complete a line for anybody but the mark
    written: when the evaluator reports no winner on a 3x3 board, then
    after an accepted write of [v] it reports either no winner or [v]. *)
Theorem only_the_written_mark_can_win (m m' : board) (x y v : Z) :
  board_3x3 m → check_winner m = Some 0%Z → set_cell m x y v = Some m' →
  check_winner m' = Some 0%Z ∨ check_winner m' = Some v.
Proof. exact (write_verdict m m' x y v). Qed.

Lemma only_the_written_mark_can_win_witness :
  check_winner [[1; 1; 1]; [0; 2; 2]; [0; 0; 0]]%Z = Some 0%Z
  ∨ check_winner [[1; 1; 1]; [0; 2; 2]; [0; 0; 0]]%Z = Some 1%Z.
Proof.
  refine (only_the_written_mark_can_win
            [[1; 1; 0]; [0; 2; 2]; [0; 0; 0]]%Z _ 0 2 1 _ _ _).
  - split; [reflexivity|]. repeat constructor.
  - reflexivity.
  - reflexivity.
Defined.

(** ** The handshake line *)

Lemma is_space_upper_char (a : ascii) :
  PyStr.is_space (PyStr.upper_char a) = PyStr.is_space a.
Proof. destruct a as [[] [] [] [] [] [] [] []]; reflexivity. Qed.

Lemma eqb_space_upper_char (a : ascii) :
  Ascii.eqb (PyStr.upper_char a) " " = Ascii.eqb a " ".
Proof. destruct a as [[] [] [] [] [] [] [] []]; reflexivity. Qed.

Lemma upper_char_idem (a : ascii) :
  PyStr.upper_char (PyStr.upper_char a) = PyStr.upper_char a.
Proof. destruct a as [[] [] [] [] [] [] [] []]; reflexivity. Qed.

Lemma upper_idem (s : string) : PyStr.upper (PyStr.upper s) = PyStr.upper s.
Proof.
  induction s as [|a s IH]; [done|]. simpl. by rewrite upper_char_idem, IH.
Qed.

Lemma lstrip_upper (s : string) :
  PyStr.lstrip PyStr.is_space (PyStr.upper s)
  = PyStr.upper (PyStr.lstrip PyStr.is_space s).
Proof.
  induction s as [|a s IH]; [done|]. simpl. rewrite is_space_upper_char.
  by destruct (PyStr.is_space a).
Qed.

Lemma rstrip_upper (s : string) :
  PyStr.rstrip PyStr.is_space (PyStr.upper s)
  = PyStr.upper (PyStr.rstrip PyStr.is_space s).
Proof.
  induction s as [|a s IH]; [done|]. simpl. rewrite IH, is_space_upper_char.
  destruct (PyStr.rstrip PyStr.is_space s); simpl; [|done].
  by destruct (PyStr.is_space a).
Qed.

Lemma strip_upper (s : string) :
  PyStr.strip (PyStr.upper s) = PyStr.upper (PyStr.strip s).
Proof. unfold PyStr.strip. by rewrite lstrip_upper, rstrip_upper. Qed.

Lemma partition_upper (s : string) :
  PyStr.partition " " (PyStr.upper s)
  = (PyStr.upper (PyStr.partition " " s).1,
     PyStr.upper (PyStr.partition " " s).2).
Proof.
  induction s as [|a s IH]; [done|]. simpl. rewrite eqb_space_upper_char.
  destruct (Ascii.eqb a " "); [done|]. rewrite IH.
  by destruct (PyStr.partition " " s).
Qed.

Lemma handshake_upper (first : string) :
  handshake (PyStr.upper first) = handshake first.
Proof.
  unfold handshake. rewrite strip_upper, partition_upper.
  destruct (PyStr.partition " " (PyStr.strip first)) as [verb code].
  cbn [fst snd]. by rewrite upper_idem, (strip_upper code), upper_idem.
Qed.

(** X4.  The handshake is read without regard to the case of its letters:
    the verb and the room code it yields are in upper case, and a handshake
    is served exactly as the same line written in upper case. *)
Theorem handshake_case_insensitive (rooms : gmap string room) (c : conn)
    (a : addr) (first : string) (nsent : nat) :
  handshake (PyStr.upper first) = handshake first
  ∧ PyStr.upper (handshake first).1 = (handshake first).1
  ∧ PyStr.upper (handshake first).2 = (handshake first).2
  ∧ start_server_iter rooms c a (PyStr.upper first) nsent
    = start_server_iter rooms c a first nsent.
Proof.
  split; [apply handshake_upper|]. split; [|split].
  - unfold handshake.
    destruct (PyStr.partition " " (PyStr.strip first)) as [verb code].
    cbn [fst]. by rewrite <- strip_upper, upper_idem.
  - unfold handshake.
    destruct (PyStr.partition " " (PyStr.strip first)) as [verb code].
    cbn [snd]. apply upper_idem.
  - unfold start_server_iter. by rewrite handshake_upper.
Qed.

Lemma partition_no_separator (c : ascii) (s : string) :
  PyStr.count c s = 0%nat → PyStr.partition c s = (s, EmptyString).
Proof.
  induction s as [|a s IH]; [done|]. simpl.
  destruct (Ascii.eqb a c); [done|]. intros H. by rewrite IH.
Qed.

(** X5.  A handshake that carries no room code, because its stripped text
    holds no space, and a handshake whose verb is neither ROOM nor SPECTATE
    are answered "Protocol Error"; the connection is closed and the
    directory is left as it was. *)
Theorem malformed_handshake_rejected (rooms : gmap string room) (c : conn)
    (a : addr) (first : string) (nsent : nat) :
  PyStr.count " " (PyStr.strip first) = 0%nat
  ∨ ((handshake first).1 ≠ "ROOM" ∧ (handshake first).1 ≠ "SPECTATE") →
  start_server_iter rooms c a first nsent
  = (rooms, [Send c "Protocol Error"; Close c]).
Proof.
  intros Hbad. unfold start_server_iter.
  destruct (handshake first) as [verb code] eqn:Hh. cbn [fst] in Hbad.
  assert (negb (String.eqb verb "ROOM" || String.eqb verb "SPECTATE")
          || is_empty code = true) as ->; [|done].
  destruct Hbad as [Hcount|[Hroom Hspec]].
  - unfold handshake in Hh.
    rewrite (partition_no_separator _ _ Hcount) in Hh.
    injection Hh as _ <-. by rewrite orb_true_r.
  - apply String.eqb_neq in Hroom, Hspec. by rewrite Hroom, Hspec.
Qed.

Lemma malformed_handshake_rejected_witness :
  start_server_iter two_players 9 (host 9) "  room  " 1
  = (two_players, [Send 9 "Protocol Error"; Close 9]).
Proof.
  refine (malformed_handshake_rejected two_players 9 (host 9) "  room  " 1 _).
  left. reflexivity.
Defined.

(** ** What a handshake leaves alone *)

Lemma spectate_room_addressee (r : room) (c : conn) (nsent : nat) :
  Forall (λ x, addressee x = Some c) (spectate_room r c nsent).2.
Proof.
  unfold spectate_room. destruct (3 <=? nsent)%nat; cbn [snd].
  - repeat constructor.
  - apply Forall_app. split; [|repeat constructor].
    destruct nsent as [|[|[|?]]]; repeat constructor.
Qed.

Lemma spectate_room_frame (r : room) (c : conn) (nsent : nat) :
  players (spectate_room r c nsent).1 = players r
  ∧ addrs (spectate_room r c nsent).1 = addrs r
  ∧ matrix (spectate_room r c nsent).1 = matrix r
  ∧ code (spectate_room r c nsent).1 = code r.
Proof. unfold spectate_room. by destruct (3 <=? nsent)%nat. Qed.

(** X6.  Serving a handshake touches no room but the one it names, never
    writes to a board and never removes or reorders players: in the named
    room the board is kept and the old players remain the first players.
    Everything it sends or closes is addressed to the new connection. *)
Theorem handshake_touches_only_its_room (rooms : gmap string room) (c : conn)
    (a : addr) (first : string) (nsent : nat) :
  let rooms' := (start_server_iter rooms c a first nsent).1 in
  let out := (start_server_iter rooms c a first nsent).2 in
  (∀ code', code' ≠ (handshake first).2 → rooms' !! code' = rooms !! code')
  ∧ (∀ code' r, rooms !! code' = Some r →
       ∃ r', rooms' !! code' = Some r' ∧ matrix r' = matrix r
             ∧ players r `prefix_of` players r')
  ∧ Forall (λ x, addressee x = Some c ∨ x = Spawn (handshake first).2) out.
Proof.
  unfold start_server_iter. destruct (handshake first) as [verb code0].
  cbn [snd].
  destruct (negb _ || is_empty code0) eqn:Hbad; cbn [fst snd].
  { split; [done|]. split; [by eauto|]. repeat constructor; by left. }
  destruct (String.eqb verb "ROOM").
  - unfold join_room. destruct (rooms !! code0) as [r0|] eqn:Hr0.
    + destruct (length (players r0) =? 1)%nat; cbn [dir acts returned fst snd].
      * split; [|split].
        -- intros code' Hne. by rewrite lookup_insert_ne.
        -- intros code' r Hr. destruct (decide (code0 = code')) as [<-|Hne].
           ++ rewrite lookup_insert_eq. rewrite Hr0 in Hr. injection Hr as <-.
              eexists. split; [done|]. split; [done|].
              by apply prefix_app_r.
           ++ rewrite lookup_insert_ne by done. eauto.
        -- destruct (0 <? nsent)%nat; repeat constructor; by (left + right).
      * split; [done|]. split; [by eauto|].
        destruct (0 <? nsent)%nat; repeat constructor; by left.
    + cbn [dir acts returned fst snd]. split; [|split].
      * intros code' Hne. by rewrite lookup_insert_ne.
      * intros code' r Hr. destruct (decide (code0 = code')) as [<-|Hne].
        -- congruence.
        -- rewrite lookup_insert_ne by done. eauto.
      * destruct (0 <? nsent)%nat; repeat constructor; by left.
  - unfold join_as_spectator.
    pose proof (spectate_room_frame
                  (default (new_room code0 [] []) (rooms !! code0)) c nsent)
      as (Hp & _ & Hm & _).
    pose proof (spectate_room_addressee
                  (default (new_room code0 [] []) (rooms !! code0)) c nsent)
      as Hout.
    destruct (spectate_room _ c nsent) as [r' out]. cbn [fst snd] in *.
    split; [|split].
    + intros code' Hne. by rewrite lookup_insert_ne.
    + intros code' r Hr. destruct (decide (code0 = code')) as [<-|Hne].
      * rewrite lookup_insert_eq. rewrite Hr in Hp, Hm. cbn [default] in Hp, Hm.
        exists r'. by rewrite Hp, Hm.
      * rewrite lookup_insert_ne by done. eauto.
    + eapply Forall_impl; [exact Hout|]. intros x Hx. by left.
Qed.

(** ** Spectators joining *)

Lemma index_app_new (c : conn) (l : list conn) :
  c ∉ l → index c (l ++ [c]) = Some (length l).
Proof.
  induction l as [|c' l IH]; intros Hc; simpl.
  - by rewrite Nat.eqb_refl.
  - apply not_elem_of_cons in Hc as [Hne Hc].
    destruct (Nat.eqb_spec c' c); [congruence|]. by rewrite IH.
Qed.

Lemma index_app_old (c c' : conn) (l : list conn) :
  c' ∈ l → index c' (l ++ [c]) = index c' l.
Proof.
  induction l as [|c0 l IH]; intros Hc.
  - by apply elem_of_nil in Hc.
  - simpl. destruct (Nat.eqb_spec c0 c'); [done|].
    apply elem_of_cons in Hc as [->|Hc]; [done|]. by rewrite IH.
Qed.

Lemma remove_app_new (c : conn) (l : list conn) :
  c ∉ l → remove c (l ++ [c]) = l.
Proof.
  induction l as [|c' l IH]; intros Hc; simpl.
  - by rewrite Nat.eqb_refl.
  - apply not_elem_of_cons in Hc as [Hne Hc].
    destruct (Nat.eqb_spec c' c); [congruence|]. by rewrite IH.
Qed.

Lemma with_spectators_same (r : room) : with_spectators (spectators r) r = r.
Proof. by destruct r. Qed.

(** X7.  A spectator whose three sends succeed is appended after the
    spectators present, and receives its role notice, the board sentinel
    and the text of the board as it is at that moment; players and board
    are untouched.  If it was not in the room before, its chat label is
    spec_<n> with n one more than the number of spectators found, and the
    label of everybody who was in the room is unchanged. *)
Theorem spectator_synced_on_join (r : room) (c : conn) (nsent : nat) :
  (3 ≤ nsent)%nat →
  let r' := (spectate_room r c nsent).1 in
  spectators r' = spectators r ++ [c]
  ∧ players r' = players r ∧ matrix r' = matrix r
  ∧ (spectate_room r c nsent).2
    = [Send c "<<< You are spectator >>>"; Send c "Matrix";
       Send c (str_matrix (matrix r))]
  ∧ (c ∉ players r → c ∉ spectators r →
     get_sender_label r' c
     = "spec_" +:+ str_nat (length (spectators r) + 1))
  ∧ (∀ c', c' ∈ players r ++ spectators r →
       get_sender_label r' c' = get_sender_label r c').
Proof.
  intros Hn. unfold spectate_room.
  destruct (Nat.leb_spec 3 nsent) as [_|]; [|lia]. cbn [fst snd].
  split; [done|]. split; [done|]. split; [done|]. split; [done|]. split.
  - intros Hp Hs. unfold get_sender_label. cbn [players spectators with_spectators].
    rewrite (proj2 (index_None c (players r)) Hp).
    by rewrite index_app_new.
  - intros c' Hc'. unfold get_sender_label.
    cbn [players spectators with_spectators].
    destruct (index c' (players r)) as [i|] eqn:Hi; [done|].
    apply index_None in Hi. apply elem_of_app in Hc' as [Hc'|Hc']; [done|].
    by rewrite index_app_old.
Qed.

Lemma spectator_synced_on_join_witness :
  get_sender_label (spectate_room room_abc 9 3).1 9 = "spec_3".
Proof.
  refine (proj1 (proj2 (proj2 (proj2 (proj2
            (spectator_synced_on_join room_abc 9 3 _))))) _ _).
  - lia.
  - by apply index_None.
  - by apply index_None.
Defined.

(** X8.  A spectator for whom one of the three sends raises is closed and
    taken out again: an existing room that did not hold it is left exactly
    as it was, and for an unseen code the room created for it remains in
    the directory, with no player and no spectator.  In both cases nothing
    is sent after the failing send. *)
Theorem spectator_dropped_when_sync_fails (rooms : gmap string room)
    (c : conn) (a : addr) (name : string) (nsent : nat) :
  (nsent < 3)%nat →
  (∀ r, rooms !! name = Some r → c ∉ spectators r →
     (join_as_spectator rooms c a name nsent).1 = rooms)
  ∧ (rooms !! name = None →
     (join_as_spectator rooms c a name nsent).1
     = <[name := new_room name [] []]> rooms)
  ∧ (join_as_spectator rooms c a name nsent).2
    = (Send c <$> take (S nsent)
                    ["<<< You are spectator >>>"; "Matrix";
                     str_matrix
                       (matrix (default (new_room name [] []) (rooms !! name)))])
      ++ [Close c].
Proof.
  intros Hn. unfold join_as_spectator, spectate_room.
  destruct (Nat.leb_spec 3 nsent) as [|_]; [lia|]. cbn [fst snd].
  split; [|split; [|done]].
  - intros r Hr Hc. rewrite Hr. cbn [default].
    destruct r as [rc rp ra rs rm]. unfold with_spectators.
    cbn [code spectators players addrs matrix] in *.
    rewrite remove_app_new by done. by apply insert_id.
  - intros Hnone. rewrite Hnone. cbn [default]. unfold with_spectators, new_room.
    cbn [code spectators players addrs matrix app remove].
    by rewrite Nat.eqb_refl.
Qed.

Lemma spectator_dropped_when_sync_fails_witness :
  (join_as_spectator two_players 9 (host 9) "ABC" 1).1 = two_players.
Proof.
  refine (proj1 (spectator_dropped_when_sync_fails two_players 9 (host 9)
                   "ABC" 1 _) room_two _ _).
  - lia.
  - reflexivity.
  - by apply index_None.
Defined.

(** ** Three players for one room *)

(** X9.  For a code that the directory does not hold, the first
    connection to ask for the room becomes player one, the second player
    two, with the engine started once, right after the reply to the second,
    and the third is refused and closed; the room then holds the first two
    in order of arrival, an empty board and no spectator, and no other
    room has changed. *)
Theorem three_players_for_one_room (rooms : gmap string room) (name : string)
    (a b c : conn) (aa ab ac : addr) (f1 f2 f3 : string) (n1 n2 n3 : nat) :
  rooms !! name = None → name ≠ EmptyString →
  handshake f1 = ("ROOM", name) → handshake f2 = ("ROOM", name) →
  handshake f3 = ("ROOM", name) →
  (0 < n1)%nat → (0 < n2)%nat →
  serve rooms [Arrival a aa f1 n1; Arrival b ab f2 n2; Arrival c ac f3 n3]
  = (<[name := Room name [a; b] [aa; ab] [] empty_board]> rooms,
     [Send a "<<< You are player 1 >>>"; Send b "<<< You are player 2 >>>";
      Spawn name; Send c "Room Full"; Close c]).
Proof.
  intros Hnone Hne H1 H2 H3 Hn1 Hn2. cbn [serve a_conn a_addr a_first a_nsent].
  rewrite (intake_room rooms a aa f1 name n1 H1 Hne).
  destruct (Nat.ltb_spec 0 n1) as [_|]; [|lia].
  unfold join_room at 1. rewrite Hnone. cbn [dir acts returned].
  rewrite (intake_room _ b ab f2 name n2 H2 Hne).
  destruct (Nat.ltb_spec 0 n2) as [_|]; [|lia].
  unfold join_room at 1. rewrite lookup_insert_eq.
  cbn [new_room players length Nat.eqb dir acts returned add_player
         addrs spectators matrix code app].
  rewrite insert_insert_eq.
  rewrite (intake_room _ c ac f3 name n3 H3 Hne).
  unfold join_room. rewrite lookup_insert_eq.
  cbn [players length Nat.eqb dir acts returned].
  by destruct (0 <? n3)%nat.
Qed.

Lemma three_players_for_one_room_witness :
  serve ∅ [arrive 1 "ROOM abc" 1; arrive 2 "room ABC" 1; arrive 3 "Room Abc" 0]
  = (<["ABC" := room_two]> ∅,
     [Send 1 "<<< You are player 1 >>>"; Send 2 "<<< You are player 2 >>>";
      Spawn "ABC"; Send 3 "Room Full"; Close 3]).
Proof.
  refine (three_players_for_one_room ∅ "ABC" 1 2 3 (host 1) (host 2) (host 3)
            "ROOM abc" "room ABC" "Room Abc" 1 1 0 _ _ _ _ _ _ _).
  - reflexivity.
  - discriminate.
  - reflexivity.
  - reflexivity.
  - reflexivity.
  - lia.
  - lia.
Defined.

(** ** What a game keeps *)

Lemma recv_step_frame (cur : Z) (tc : conn) (w : wstate) (c : conn)
    (data : string) :
  match recv_step cur tc w c data with
  | Next w' _ =>
      code (w_room w') = code (w_room w) ∧ addrs (w_room w') = addrs (w_room w)
  | Raise => True
  | Commit r _ _ => code r = code (w_room w) ∧ addrs r = addrs (w_room w)
  end.
Proof.
  unfold recv_step. destruct (is_empty data).
  { destruct (mem c (spectators (w_room w))); [done|].
    by destruct (mem c (players (w_room w))). }
  destruct (if (c =? tc)%nat then _ else _) as [| |x y]; [|done|].
  - by destruct (PyStr.startswith _ _).
  - by destruct (set_cell _ x y cur).
Qed.

Lemma select_pass_frame (cur : Z) (tc : conn) (w : wstate)
    (readable : list reading) :
  match select_pass cur tc w readable with
  | Continue w' _ =>
      code (w_room w') = code (w_room w) ∧ addrs (w_room w') = addrs (w_room w)
  | Return r _ _ => code r = code (w_room w) ∧ addrs r = addrs (w_room w)
  end.
Proof.
  apply (select_pass_run cur tc
           (λ w' _, code (w_room w') = code (w_room w)
                    ∧ addrs (w_room w') = addrs (w_room w))
           (λ r _ _, code r = code (w_room w) ∧ addrs r = addrs (w_room w)));
    [|done].
  intros w1 out c data [Hc Ha].
  pose proof (recv_step_frame cur tc w1 c data) as H.
  destruct (recv_step cur tc w1 c data); [|done|];
    destruct H; split; congruence.
Qed.

Lemma wait_step_frame (cur : Z) (tc : conn) (w : wstate) (e : event) :
  match wait_step cur tc w e with
  | Continue w' _ =>
      code (w_room w') = code (w_room w) ∧ addrs (w_room w') = addrs (w_room w)
  | Return r _ _ => code r = code (w_room w) ∧ addrs r = addrs (w_room w)
  end.
Proof.
  destruct e as [c data| | |c nsent|readable]; cbn [wait_step]; try done.
  - apply select_pass_frame.
  - pose proof (spectate_room_frame (w_room w) c nsent) as (_ & Ha & _ & Hc).
    by destruct (spectate_room (w_room w) c nsent).
  - apply select_pass_frame.
Qed.

Lemma wait_loop_frame (cur : Z) (tc : conn) (evs : list event) (w : wstate) :
  match wait_loop cur tc w evs with
  | Returned r _ _ _ | Blocked r _ =>
      code r = code (w_room w) ∧ addrs r = addrs (w_room w)
  end.
Proof.
  revert w. induction evs as [|e evs IH]; intros w; simpl; [done|].
  pose proof (wait_step_frame cur tc w e) as Hstep.
  destruct (wait_step cur tc w e) as [w' out|r out mv].
  - destruct Hstep as [Hc Ha]. specialize (IH w').
    destruct (wait_loop cur tc w' evs); simpl;
      destruct IH as [Hc' Ha']; split; congruence.
  - done.
Qed.

Lemma get_input_frame (r : room) (cur : Z) (shut : list conn) (ok : bool)
    (evs : list event) :
  match get_input r cur shut ok evs with
  | Returned r' _ _ _ | Blocked r' _ => code r' = code r ∧ addrs r' = addrs r
  end.
Proof.
  unfold get_input. destruct (players r) as [|p0 [|p1 ps]]; try done.
  destruct ok; [|done].
  pose proof (wait_loop_frame cur (if (cur =? PLAYER_ONE)%Z then p0 else p1)
                evs (WState r (room_conns_all r) shut)) as H.
  by destruct (wait_loop _ _ _ evs).
Qed.

Lemma current_of_mark (k : nat) :
  current_of k = PLAYER_ONE ∨ current_of k = PLAYER_TWO.
Proof. unfold current_of. destruct (_ =? 0)%nat; auto. Qed.

Lemma set_cell_marks (m m' : board) (x y v : Z) :
  marks_only m → (v = 0 ∨ v = PLAYER_ONE ∨ v = PLAYER_TWO)%Z →
  set_cell m x y v = Some m' → marks_only m'.
Proof.
  intros Hm Hv. unfold set_cell.
  destruct (py_index (length m) x) as [i|]; [|done]. cbn [mbind option_bind].
  destruct (m !! i) as [r|] eqn:Hr; [|done]. cbn [mbind option_bind].
  destruct (py_index (length r) y) as [j|]; [|done]. cbn [mbind option_bind].
  intros [= <-]. apply Forall_insert; [done|].
  apply Forall_insert; [|done]. by apply (Forall_lookup_1 _ _ _ _ Hm Hr).
Qed.

Lemma cell_marks (m : board) (i j : nat) (v : Z) :
  marks_only m → cell m i j = Some v →
  (v = 0 ∨ v = PLAYER_ONE ∨ v = PLAYER_TWO)%Z.
Proof.
  intros Hm. unfold cell. destruct (m !! i) as [r|] eqn:Hr; [|done].
  cbn [mbind option_bind]. intros Hj.
  pose proof (Forall_lookup_1 _ _ _ _ Hm Hr) as Hrow.
  by apply (Forall_lookup_1 _ _ _ _ Hrow Hj).
Qed.

Lemma verdict_marks (m : board) (v : Z) :
  board_3x3 m → marks_only m → check_winner m = Some v →
  (v = 0 ∨ v = PLAYER_ONE ∨ v = PLAYER_TWO)%Z.
Proof.
  intros Hs Hm Hv. destruct (decide (v = 0%Z)) as [|Hnz]; [by left|].
  destruct (proj2 (evaluator_verdict m Hs) v Hv Hnz) as (l & Hl & _ & Hall).
  destruct l as [|[i j] l]; [by apply winning_lines_nonempty in Hl|].
  apply (cell_marks m i j v Hm), Hall, elem_of_cons. by left.
Qed.

(** X10.  Throughout a game on a 3x3 board holding only the marks 0, 1 and
    2, whatever arrives: the players, their addresses and the code of the
    room never change, the board stays 3x3 and never holds anything but 0, 1
    and 2, and the result is 0, 1 or 2. *)
Theorem game_keeps_room_and_marks (ok : nat → bool) (r : room)
    (evs : list event) :
  board_3x3 (matrix r) → marks_only (matrix r) →
  let st := final_state (game_loop 9 ok (initial r) evs) in
  players (e_room st) = players r
  ∧ addrs (e_room st) = addrs r
  ∧ code (e_room st) = code r
  ∧ board_3x3 (matrix (e_room st))
  ∧ marks_only (matrix (e_room st))
  ∧ (result st = 0 ∨ result st = PLAYER_ONE ∨ result st = PLAYER_TWO)%Z.
Proof.
  intros Hshape Hmarks st.
  pose proof (game_loop_safe ok r evs
                (λ s, addrs (e_room s) = addrs r ∧ code (e_room s) = code r
                      ∧ marks_only (matrix (e_room s))
                      ∧ (result s = 0 ∨ result s = PLAYER_ONE
                         ∨ result s = PLAYER_TWO)%Z)
                Hshape) as Hsafe.
  match type of Hsafe with ?A → ?B → _ =>
    assert (HA : A); [|assert (HB : B); [|specialize (Hsafe HA HB)]] end.
  { repeat split; try done. by left. }
  { intros s s' (Hs & _) (Ha & Hc & Hm & _)
      (_ & _ & evs' & r' & out & mv & rest & res & Hin & Hw & ->).
    pose proof (get_input_facts (e_room s) (current_of (turn_count s))
                (closed_in (e_out s))
                  (ok (turn_count s)) evs') as Hf.
    pose proof (get_input_frame (e_room s) (current_of (turn_count s))
                (closed_in (e_out s))
                  (ok (turn_count s)) evs') as Hfr.
    pose proof (get_input_shape (e_room s) (current_of (turn_count s))
                (closed_in (e_out s))
                  (ok (turn_count s)) evs' Hs) as Hs'.
    rewrite Hin in Hf, Hfr, Hs'. destruct Hf as (_ & _ & Hmv).
    destruct Hfr as [Hc' Ha']. cbn [e_room result].
    assert (Hm' : marks_only (matrix r')).
    { destruct mv as [m|].
      - destruct Hmv as (_ & _ & _ & Hset).
        apply (set_cell_marks _ _ _ _ _ Hm) in Hset; [done|].
        destruct (current_of_mark (turn_count s)) as [-> | ->]; auto.
      - by destruct Hmv as (-> & _). }
    split; [congruence|]. split; [congruence|]. split; [done|].
    by apply (verdict_marks (matrix r')). }
  subst st. destruct (game_loop 9 ok (initial r) evs) as [s|s|s|s];
    cbn [final_state]; try done.
  - destruct Hsafe as ((Hs & Hp & _) & (Ha & Hc & Hm & Hres) & _). done.
  - destruct Hsafe as (s0 & (Hs & Hp & _) & (Ha & Hc & Hm & Hres)
                       & _ & _ & evs' & r' & out & Hin & ->).
    pose proof (get_input_facts (e_room s0) (current_of (turn_count s0))
                (closed_in (e_out s0))
                  (ok (turn_count s0)) evs') as Hf.
    pose proof (get_input_frame (e_room s0) (current_of (turn_count s0))
                (closed_in (e_out s0))
                  (ok (turn_count s0)) evs') as Hfr.
    rewrite Hin in Hf, Hfr. destruct Hf as (Hp' & Hm' & _).
    destruct Hfr as [Hc' Ha']. cbn [e_room result].
    rewrite Hm'. split; [by rewrite Hp'|]. split; [by rewrite Ha'|].
    split; [by rewrite Hc'|]. done.
Qed.

Lemma game_keeps_room_and_marks_witness :
  board_3x3 (matrix room_two) ∧ marks_only (matrix room_two)
  ∧ players (e_room (final_state (game_loop 9 always (initial room_two)
                                    drawn_game))) = [1; 2]%nat.
Proof.
  assert (H : board_3x3 (matrix room_two)).
  { split; [reflexivity|]. repeat constructor. }
  assert (H' : marks_only (matrix room_two)).
  { repeat constructor. }
  split; [exact H|]. split; [exact H'|].
  exact (proj1 (game_keeps_room_and_marks always room_two drawn_game H H')).
Defined.

(** ** The board and the committed moves *)

Lemma replay_app (m : board) (l1 l2 : list (nat * move)) :
  replay m (l1 ++ l2) = replay m l1 ≫= λ m', replay m' l2.
Proof.
  revert m. induction l1 as [|[k mv] l1 IH]; intros m; [done|]. simpl.
  destruct (set_cell m (row mv) (col mv) (mark mv)) as [m'|]; [|done].
  apply IH.
Qed.

(** X11.  The board of a game is the board it started from with the
    committed moves written in order, each with the mark of its mover:
    nothing else ever writes a cell. *)
Theorem board_is_replay_of_moves (ok : nat → bool) (r : room)
    (evs : list event) :
  board_3x3 (matrix r) →
  let st := final_state (game_loop 9 ok (initial r) evs) in
  replay (matrix r) (e_moves st) = Some (matrix (e_room st)).
Proof.
  intros Hshape st.
  pose proof (game_loop_safe ok r evs
                (λ s, replay (matrix r) (e_moves s) = Some (matrix (e_room s)))
                Hshape) as Hsafe.
  match type of Hsafe with ?A → ?B → _ =>
    assert (HA : A); [|assert (HB : B); [|specialize (Hsafe HA HB)]] end.
  { done. }
  { intros s s' _ Hq
      (_ & _ & evs' & r' & out & mv & rest & res & Hin & Hw & ->).
    pose proof (get_input_facts (e_room s) (current_of (turn_count s))
                (closed_in (e_out s))
                  (ok (turn_count s)) evs') as Hf.
    rewrite Hin in Hf. destruct Hf as (_ & _ & Hmv). cbn [e_room e_moves].
    rewrite replay_app, Hq. cbn [mbind option_bind].
    destruct mv as [m|]; cbn [logged replay].
    - destruct Hmv as (Hmark & _ & _ & Hset). by rewrite Hmark, Hset.
    - by destruct Hmv as (-> & _). }
  subst st. destruct (game_loop 9 ok (initial r) evs) as [s|s|s|s];
    cbn [final_state]; try done.
  - by destruct Hsafe as (_ & Hq & _).
  - destruct Hsafe as (s0 & _ & Hq & _ & _ & evs' & r' & out & Hin & ->).
    pose proof (get_input_facts (e_room s0) (current_of (turn_count s0))
                (closed_in (e_out s0))
                  (ok (turn_count s0)) evs') as Hf.
    rewrite Hin in Hf. destruct Hf as (_ & Hm' & _). cbn [e_room e_moves].
    by rewrite Hm'.
Qed.

Lemma board_is_replay_of_moves_witness :
  board_3x3 (matrix room_two)
  ∧ replay (matrix room_two)
      (e_moves (final_state (game_loop 9 always (initial room_two) drawn_game)))
    = Some (matrix (e_room (final_state (game_loop 9 always (initial room_two)
                                           drawn_game)))).
Proof.
  assert (H : board_3x3 (matrix room_two)).
  { split; [reflexivity|]. repeat constructor. }
  split; [exact H|].
  exact (board_is_replay_of_moves always room_two drawn_game H).
Defined.

(** X12.  In a game started on a board without a completed line, a result
    other than 0 is the mark of the move committed last, and that move was
    committed in the last iteration that ran: the winner announced is
    always the player who has just moved. *)
Theorem winner_made_the_last_move (ok : nat → bool) (r : room)
    (evs : list event) :
  board_3x3 (matrix r) → check_winner (matrix r) = Some 0%Z →
  let st := final_state (game_loop 9 ok (initial r) evs) in
  result st ≠ 0%Z →
  ∃ mv, last (e_moves st) = Some ((turn_count st - 1)%nat, mv)
        ∧ mark mv = result st
        ∧ result st = current_of (turn_count st - 1).
Proof.
  intros Hshape Hfresh st.
  pose proof (game_loop_safe ok r evs
                (λ s, check_winner (matrix (e_room s)) = Some (result s)
                      ∧ (result s ≠ 0%Z →
                         ∃ mv, last (e_moves s)
                               = Some ((turn_count s - 1)%nat, mv)
                               ∧ mark mv = result s
                               ∧ result s = current_of (turn_count s - 1)))
                Hshape) as Hsafe.
  match type of Hsafe with ?A → ?B → _ =>
    assert (HA : A); [|assert (HB : B); [|specialize (Hsafe HA HB)]] end.
  { split; [done|]. intros H. done. }
  { intros s s' (Hs & _) [Hq _]
      (Hres & _ & evs' & r' & out & mv & rest & res & Hin & Hw & ->).
    pose proof (get_input_facts (e_room s) (current_of (turn_count s))
                (closed_in (e_out s))
                  (ok (turn_count s)) evs') as Hf.
    rewrite Hin in Hf. destruct Hf as (_ & _ & Hmv).
    cbn [e_room e_moves result turn_count]. split; [done|].
    rewrite Hres in Hq. intros Hnz.
    destruct mv as [m|]; cbn [logged].
    - destruct Hmv as (Hmark & _ & _ & Hset).
      destruct (write_verdict _ _ _ _ _ Hs Hq Hset) as [E|E];
        rewrite Hw in E; injection E as E; [done|].
      exists m. rewrite last_snoc, Nat.sub_1_r. cbn [pred].
      split; [done|]. split; congruence.
    - destruct Hmv as (-> & _). congruence. }
  subst st. destruct (game_loop 9 ok (initial r) evs) as [s|s|s|s];
    cbn [final_state]; try done.
  - by destruct Hsafe as (_ & [_ Hq] & _).
  - destruct Hsafe as (s0 & _ & _ & Hres & _ & evs' & r' & out & _ & ->).
    cbn [result]. intros H. done.
Qed.

Lemma winner_made_the_last_move_witness :
  ∃ mv, last (e_moves (final_state (game_loop 9 always (initial room_two)
                                      quick_win)))
        = Some (4%nat, mv)
        ∧ mark mv = 1%Z ∧ 1%Z = current_of 4.
Proof.
  refine (winner_made_the_last_move always room_two quick_win _ _ _).
  - split; [reflexivity|]. repeat constructor.
  - reflexivity.
  - vm_compute. discriminate.
Defined.

(** ** A game without two players *)

Lemma get_input_few_players (r : room) (cur : Z) (shut : list conn)
    (ok : bool) (evs : list event) :
  (length (players r) < 2)%nat →
  get_input r cur shut ok evs = Returned r [] None evs.
Proof.
  intros Hlen. unfold get_input.
  destruct (players r) as [|p0 [|p1 ps]]; simpl in Hlen; try done. lia.
Qed.

(** X13.  Run on a room with fewer than two players, [start_game_for_room]
    reads nothing, prompts nobody and commits no move: every call of
    [get_input] returns at once, so the loop runs to its end without
    waiting, and the game is announced over with the verdict of the
    evaluator on the untouched board, a draw when no line is completed;
    everybody in the room is closed and the room is removed. *)
Theorem game_without_two_players (rooms : gmap string room) (name : string)
    (r : room) (ok : nat → bool) (evs : list event) :
  rooms !! name = Some r → board_3x3 (matrix r) →
  (length (players r) < 2)%nat →
  ∃ n,
    start_game_for_room rooms name ok evs
    = Finished (delete name rooms)
        (Engine r (winner_by_lines (matrix r)) n
           (game_over r (winner_by_lines (matrix r))) [])
    ∧ (1 ≤ n ≤ 9)%nat.
Proof.
  intros Hr Hshape Hlen. unfold start_game_for_room. rewrite Hr.
  pose proof (game_loop_safe ok r evs
                (λ s, e_room s = r ∧ e_out s = [] ∧ e_moves s = []) Hshape)
    as Hsafe.
  match type of Hsafe with ?A → ?B → _ =>
    assert (HA : A); [|assert (HB : B); [|specialize (Hsafe HA HB)]] end.
  { done. }
  { intros s s' _ (Hroom & Hout & Hmoves)
      (_ & _ & evs' & r' & out & mv & rest & res & Hin & _ & ->).
    rewrite Hroom, (get_input_few_players r _ _ _ evs' Hlen) in Hin.
    injection Hin as <- <- <- <-. cbn [e_room e_out e_moves logged].
    by rewrite Hout, Hmoves. }
  fold (initial r).
  destruct (game_loop 9 ok (initial r) evs) as [s|s|s|s]; try done.
  - destruct Hsafe as ((_ & _ & Hle & _) & (Hroom & Hout & Hmoves) & Hone & Hw & _).
    exists (turn_count s). split; [|lia].
    rewrite Hroom in Hw |- *. rewrite (check_winner_lines _ Hshape) in Hw.
    injection Hw as <-. by rewrite Hout, Hmoves.
  - destruct Hsafe as (s0 & _ & (Hroom & _) & _ & _ & evs' & r' & out & Hin & _).
    rewrite Hroom, (get_input_few_players r _ _ _ evs' Hlen) in Hin. done.
Qed.

Lemma game_without_two_players_witness :
  ∃ n,
    start_game_for_room spectator_only "ABC" always drawn_game
    = Finished (delete "ABC" spectator_only)
        (Engine (Room "ABC" [] [] [7%nat] empty_board)
           (winner_by_lines empty_board) n
           (game_over (Room "ABC" [] [] [7%nat] empty_board)
              (winner_by_lines empty_board)) [])
    ∧ (1 ≤ n ≤ 9)%nat.
Proof.
  refine (game_without_two_players spectator_only "ABC"
            (Room "ABC" [] [] [7%nat] empty_board) always drawn_game _ _ _).
  - reflexivity.
  - split; [reflexivity|]. repeat constructor.
  - simpl. lia.
Defined.

(** ** Whom a game talks to *)

Lemma mem_elem (c : conn) (l : list conn) : mem c l = true → c ∈ l.
Proof.
  unfold mem. destruct (index c l) as [i|] eqn:Hi; [|done]. intros _.
  apply index_Some in Hi as [Hi _]. by apply list_elem_of_lookup_2 in Hi.
Qed.

Lemma remove_subset (c x : conn) (l : list conn) : x ∈ remove c l → x ∈ l.
Proof.
  induction l as [|c' l IH]; simpl; [done|].
  destruct (c' =? c)%nat.
  - intros H. apply elem_of_cons. by right.
  - intros [->|H]%elem_of_cons; apply elem_of_cons; [by left | right; by apply IH].
Qed.

Lemma sends_confined (A P : list conn) (l : list conn) (t : string) :
  (∀ c, c ∈ l → c ∈ A) → t ≠ "Input" →
  Forall (confined A P) ((λ c, Send c t) <$> l).
Proof.
  intros Hl Ht. induction l as [|c l IH]; [constructor|].
  constructor.
  - split; [apply Hl, elem_of_cons; by left | done].
  - apply IH. intros c' Hc'. apply Hl, elem_of_cons. by right.
Qed.

Lemma send_confined (A P : list conn) (c : conn) (t : string) :
  c ∈ A → (t = "Input" → c ∈ P) → Forall (confined A P) [Send c t].
Proof. intros Hc Ht. apply Forall_cons. split; [done | constructor]. Qed.

Lemma spectate_room_confined (A P : list conn) (r : room) (c : conn)
    (nsent : nat) :
  room_in A r → c ∈ A →
  room_in A (spectate_room r c nsent).1
  ∧ Forall (confined A P) (spectate_room r c nsent).2.
Proof.
  intros Hr Hc. unfold spectate_room.
  assert (Hnew : room_in A (with_spectators (spectators r ++ [c]) r)).
  { intros x. cbn [players spectators with_spectators].
    rewrite app_assoc. intros [Hx|Hx]%elem_of_app; [by apply Hr|].
    apply elem_of_cons in Hx as [->|Hx]; [done | by apply elem_of_nil in Hx]. }
  destruct (3 <=? nsent)%nat; cbn [fst snd].
  - split; [done|]. repeat constructor; done.
  - split.
    + intros x. cbn [players spectators with_spectators].
      intros [Hx|Hx]%elem_of_app.
      * apply Hr, elem_of_app. by left.
      * apply remove_subset in Hx. apply Hnew. cbn [players spectators with_spectators].
        apply elem_of_app. by right.
    + apply Forall_app. split; [|by repeat constructor].
      destruct nsent as [|[|[|?]]]; repeat constructor; done.
Qed.

Lemma recv_step_confined (A : list conn) (cur : Z) (tc : conn) (w : wstate)
    (c : conn) (data : string) :
  room_in A (w_room w) →
  match recv_step cur tc w c data with
  | Next w' out =>
      room_in A (w_room w') ∧ Forall (confined A (players (w_room w))) out
  | Raise => True
  | Commit r out _ =>
      room_in A r ∧ Forall (confined A (players (w_room w))) out
  end.
Proof.
  intros Hr. unfold recv_step. destruct (is_empty data).
  { destruct (mem c (spectators (w_room w))) eqn:Hs.
    - split; [|constructor].
      intros x. cbn [w_room players spectators with_spectators].
      intros [Hx|Hx]%elem_of_app; apply Hr, elem_of_app; [by left|].
      right. by apply remove_subset in Hx.
    - destruct (mem c (players (w_room w))) eqn:Hp; [|split; [done | constructor]].
      split; [done|]. repeat constructor.
      apply Hr, elem_of_app. left. by apply mem_elem. }
  destruct (if (c =? tc)%nat then _ else _) as [| |x y];
    [|split; [done | constructor]|].
  - destruct (PyStr.startswith _ _); [|split; [done | constructor]].
    split; [done|]. apply sends_confined; [exact Hr | done].
  - destruct (set_cell _ x y cur) as [m'|]; [|done].
    split; [exact Hr|]. apply Forall_app. split; apply sends_confined;
      try exact Hr; done.
Qed.

Lemma select_pass_confined (A : list conn) (cur : Z) (tc : conn) (w : wstate)
    (readable : list reading) :
  room_in A (w_room w) →
  match select_pass cur tc w readable with
  | Continue w' out =>
      room_in A (w_room w') ∧ Forall (confined A (players (w_room w))) out
  | Return r out _ =>
      room_in A r ∧ Forall (confined A (players (w_room w))) out
  end.
Proof.
  intros Hr.
  pose proof (select_pass_run cur tc
                (λ w' out, room_in A (w_room w')
                           ∧ players (w_room w') = players (w_room w)
                           ∧ Forall (confined A (players (w_room w))) out)
                (λ r out _, room_in A r
                            ∧ Forall (confined A (players (w_room w))) out)
                w readable) as Hrun.
  match type of Hrun with ?H1 → ?H2 → _ =>
    assert (Hbody : H1); [|assert (Hinit : H2);
                            [|specialize (Hrun Hbody Hinit)]] end.
  { intros w1 out c data (Hr1 & Hp1 & Hout).
    pose proof (recv_step_confined A cur tc w1 c data Hr1) as H.
    pose proof (recv_step_facts cur tc w1 c data) as Hf.
    rewrite Hp1 in H.
    destruct (recv_step cur tc w1 c data) as [w' o| |r o mv]; [|done|].
    - destruct H as [Hr' Ho]. destruct Hf as (Hp' & _).
      split; [done|]. split; [congruence | by apply Forall_app].
    - destruct H as [Hr' Ho]. split; [done | by apply Forall_app]. }
  { split; [done|]. split; [done | constructor]. }
  destruct (select_pass cur tc w readable); [|done].
  by destruct Hrun as (? & _ & ?).
Qed.

Lemma wait_step_confined (A : list conn) (cur : Z) (tc : conn) (w : wstate)
    (e : event) :
  room_in A (w_room w) →
  (∀ c n, e = Spectate c n → c ∈ A) →
  match wait_step cur tc w e with
  | Continue w' out =>
      room_in A (w_room w') ∧ Forall (confined A (players (w_room w))) out
  | Return r out _ =>
      room_in A r ∧ Forall (confined A (players (w_room w))) out
  end.
Proof.
  intros Hr He. destruct e as [c data| | |c nsent|readable]; cbn [wait_step];
    try (split; [done | constructor]).
  - by apply select_pass_confined.
  - pose proof (spectate_room_confined A (players (w_room w)) (w_room w) c nsent
                  Hr (He c nsent eq_refl)) as [H1 H2].
    by destruct (spectate_room (w_room w) c nsent).
  - by apply select_pass_confined.
Qed.

Lemma wait_loop_confined (A P : list conn) (cur : Z) (tc : conn)
    (evs : list event) (w : wstate) :
  room_in A (w_room w) → players (w_room w) = P →
  Forall (λ c, c ∈ A) (newcomers evs) →
  match wait_loop cur tc w evs with
  | Returned r out _ rest =>
      room_in A r ∧ Forall (confined A P) out
      ∧ Forall (λ c, c ∈ A) (newcomers rest)
  | Blocked r out => room_in A r ∧ Forall (confined A P) out
  end.
Proof.
  revert w. induction evs as [|e evs IH]; intros w Hr HP Hnew; cbn [wait_loop].
  { split; [done | constructor]. }
  assert (He : ∀ c n, e = Spectate c n → c ∈ A).
  { intros c n ->. cbn [newcomers] in Hnew. by apply Forall_cons in Hnew as [? _]. }
  assert (Hnew' : Forall (λ c, c ∈ A) (newcomers evs)).
  { destruct e; cbn [newcomers] in Hnew; try done.
    by apply Forall_cons in Hnew as [_ ?]. }
  pose proof (wait_step_confined A cur tc w e Hr He) as Hstep.
  pose proof (wait_step_facts cur tc w e) as Hfacts.
  rewrite HP in Hstep.
  destruct (wait_step cur tc w e) as [w' out|r out mv].
  - destruct Hstep as [Hr' Hout]. destruct Hfacts as (Hp' & _).
    specialize (IH w' Hr' ltac:(congruence) Hnew').
    destruct (wait_loop cur tc w' evs) as [r o mv rest|r o]; cbn [prepend].
    + destruct IH as (? & ? & ?). split; [done|]. split; [by apply Forall_app | done].
    + destruct IH as (? & ?). split; [done | by apply Forall_app].
  - by destruct Hstep.
Qed.

Lemma get_input_confined (A : list conn) (r : room) (k : nat)
    (shut : list conn) (ok : bool) (evs : list event) :
  room_in A r → Forall (λ c, c ∈ A) (newcomers evs) →
  match get_input r (current_of k) shut ok evs with
  | Returned r' out _ rest =>
      room_in A r' ∧ Forall (confined A (players r)) out
      ∧ Forall (λ c, c ∈ A) (newcomers rest)
  | Blocked r' out => room_in A r' ∧ Forall (confined A (players r)) out
  end.
Proof.
  intros Hr Hnew. unfold get_input.
  destruct (players r) as [|p0 [|p1 ps]] eqn:Hp;
    try (split; [done|]; split; [constructor | done]).
  set (tc := if (current_of k =? PLAYER_ONE)%Z then p0 else p1).
  assert (Htc : tc ∈ p0 :: p1 :: ps).
  { subst tc. destruct (current_of k =? PLAYER_ONE)%Z; set_solver. }
  assert (HtcA : tc ∈ A).
  { apply Hr, elem_of_app. left. by rewrite Hp. }
  assert (Hlabel : Forall (confined A (p0 :: p1 :: ps))
                     (send_to_all r
                        (if (current_of k =? PLAYER_ONE)%Z
                         then "Player One's Turn" else "Player Two's Turn")
                      ++ [Send tc "Input"])).
  { apply Forall_app. split; [|by apply send_confined].
    apply sends_confined; [exact Hr|]. by destruct (current_of k =? PLAYER_ONE)%Z. }
  destruct ok.
  - pose proof (wait_loop_confined A (p0 :: p1 :: ps) (current_of k) tc evs
                  (WState r (room_conns_all r) shut) Hr Hp Hnew) as Hloop.
    destruct (wait_loop _ tc _ evs) as [r' o mv rest|r' o]; cbn [prepend].
    + destruct Hloop as (? & ? & ?). split; [done|].
      split; [by apply Forall_app | done].
    + destruct Hloop as (? & ?). split; [done | by apply Forall_app].
  - split; [done|]. split; [|done]. apply Forall_app. split; [done|].
    by apply send_confined.
Qed.

Lemma game_loop_confined (A P : list conn) (ok : nat → bool) (fuel : nat) :
  ∀ st evs,
    room_in A (e_room st) → players (e_room st) = P →
    Forall (confined A P) (e_out st) →
    Forall (λ c, c ∈ A) (newcomers evs) →
    let st' := final_state (game_loop fuel ok st evs) in
    room_in A (e_room st') ∧ players (e_room st') = P
    ∧ Forall (confined A P) (e_out st').
Proof.
  induction fuel as [|fuel IH]; intros st evs Hr HP Hout Hnew;
    cbn [game_loop];
    destruct ((result st =? 0)%Z && (turn_count st <? 9)%nat); try done.
  pose proof (get_input_confined A (e_room st) (turn_count st)
                (closed_in (e_out st)) (ok (turn_count st)) evs Hr Hnew) as Hc.
  pose proof (get_input_facts (e_room st) (current_of (turn_count st))
                (closed_in (e_out st))
                (ok (turn_count st)) evs) as Hf.
  rewrite HP in Hc.
  destruct (get_input _ _ _ _ evs) as [r out mv rest|r out].
  - destruct Hc as (Hr' & Hout' & Hnew'). destruct Hf as (Hp' & _).
    destruct (check_winner (matrix r)) as [res|].
    + apply IH; cbn [e_room e_out]; try done; [congruence | by apply Forall_app].
    + cbn [final_state e_room e_out]. split; [done|].
      split; [congruence | by apply Forall_app].
  - destruct Hc as (Hr' & Hout'). destruct Hf as (Hp' & _).
    cbn [final_state e_room e_out]. split; [done|].
    split; [congruence | by apply Forall_app].
Qed.

(** X14.  A game talks to nobody outside its room: everything
    [start_game_for_room] sends or closes is addressed to a player of the
    room, to a spectator it started with, or to a spectator that joined
    during the game; the prompt goes to players only, and the game starts
    no thread. *)
Theorem game_talks_to_its_room_only (rooms : gmap string room) (name : string)
    (r : room) (ok : nat → bool) (evs : list event) :
  rooms !! name = Some r →
  Forall (confined (players r ++ spectators r ++ newcomers evs) (players r))
    (e_out (state_of (start_game_for_room rooms name ok evs))).
Proof.
  intros Hr. unfold start_game_for_room. rewrite Hr.
  set (A := players r ++ spectators r ++ newcomers evs).
  pose proof (game_loop_confined A (players r) ok 9 (Engine r 0 0 [] []) evs)
    as Hloop.
  match type of Hloop with ?H1 → ?H2 → ?H3 → ?H4 → _ =>
    assert (G1 : H1); [|assert (G4 : H4);
      [|specialize (Hloop G1 eq_refl (Forall_nil_2 _) G4)]] end.
  { intros c Hc. subst A. rewrite app_assoc. apply elem_of_app. by left. }
  { apply Forall_forall. intros c Hc. subst A. rewrite !elem_of_app. auto. }
  cbv zeta in Hloop.
  destruct (game_loop 9 ok (Engine r 0 0 [] []) evs) as [s|s|s|s];
    cbn [state_of final_state e_out] in *; try by destruct Hloop as (_ & _ & ?).
  destruct Hloop as (Hin & Hp & Hout). apply Forall_app. split; [done|].
  unfold game_over, send_common_msg, send_to_all, room_conns_all.
  apply Forall_app; split; [|apply Forall_app; split].
  - apply sends_confined; [exact Hin | done].
  - apply sends_confined; [exact Hin|]. unfold lastmsg.
    destruct (result s =? PLAYER_ONE)%Z; [done|].
    by destruct (result s =? PLAYER_TWO)%Z.
  - apply Forall_fmap, Forall_forall. intros c Hc. by apply Hin.
Qed.

Lemma game_talks_to_its_room_only_witness :
  Forall (confined ([1; 2] ++ [] ++ [9])%nat [1; 2]%nat)
    (e_out (state_of (start_game_for_room two_players "ABC" always
                        (Spectate 9 3 :: quick_win)))).
Proof.
  exact (game_talks_to_its_room_only two_players "ABC" room_two always
           (Spectate 9 3 :: quick_win) eq_refl).
Defined.

(** ** A click accepted by the client *)

Lemma format_move_read (r c : Z) :
  (0 ≤ r ≤ 2)%Z → (0 ≤ c ≤ 2)%Z →
  move_of_text (PyStr.strip (format_move r c)) = Coords r c
  ∧ is_empty (format_move r c) = false.
Proof.
  intros Hr Hc.
  assert (r = 0 ∨ r = 1 ∨ r = 2)%Z as [-> | [-> | ->]] by lia;
    assert (c = 0 ∨ c = 1 ∨ c = 2)%Z as [-> | [-> | ->]] by lia;
    split; reflexivity.
Qed.

Lemma validate_input_true (m : board) (r c : Z) :
  board_3x3 m →
  validate_input m r c = Some true
  ↔ (0 ≤ r ≤ 2)%Z ∧ (0 ≤ c ≤ 2)%Z
    ∧ cell m (Z.to_nat r) (Z.to_nat c) = Some 0%Z.
Proof.
  intros [Hlen Hrows]. unfold validate_input, cell.
  destruct (Z.ltb_spec r 0), (Z.ltb_spec 2 r), (Z.ltb_spec c 0),
    (Z.ltb_spec 2 c); cbn [orb];
    try (split; [done | intros (? & ? & _); lia]).
  rewrite Hlen, py_index_nonneg by (simpl; lia). cbn [mbind option_bind].
  destruct (m !! Z.to_nat r) as [line|] eqn:Hline; cbn [mbind option_bind].
  2:{ split; [done | by intros (_ & _ & ?)]. }
  rewrite (Forall_lookup_1 _ _ _ _ Hrows Hline).
  rewrite py_index_nonneg by (simpl; lia). cbn [mbind option_bind].
  destruct (line !! Z.to_nat c) as [v|]; cbn [mbind option_bind].
  2:{ split; [done | by intros (_ & _ & ?)]. }
  destruct (Z.eqb_spec v 0) as [->|Hv].
  - split; [intros _; repeat split; (lia || done) | done].
  - split; [done | intros (_ & _ & [= ?]); done].
Qed.

(** X15.  The client accepts a click exactly when row and column are in
    0..2 and the cell is empty on its copy of the board.  When that copy is
    the board of the server, the text the client then sends is read back by
    the server as the same row and column, and, coming from the mover, it
    is committed: the mark of the mover goes into that cell, which was
    empty, no other cell changes, and the ply ends. *)
Theorem accepted_click_is_committed (m : board) (r c : Z) (cur : Z)
    (tc : conn) (w : wstate) :
  board_3x3 m → matrix (w_room w) = m → select_reports w tc = true →
  (validate_input m r c = Some true
   ↔ (0 ≤ r ≤ 2)%Z ∧ (0 ≤ c ≤ 2)%Z
     ∧ cell m (Z.to_nat r) (Z.to_nat c) = Some 0%Z)
  ∧ (validate_input m r c = Some true →
     move_of_text (PyStr.strip (format_move r c)) = Coords r c
     ∧ ∃ m',
         wait_step cur tc w (Recv tc (format_move r c))
         = Return (with_matrix m' (w_room w))
             (send_to_all (with_matrix m' (w_room w)) "Matrix"
              ++ send_to_all (with_matrix m' (w_room w)) (str_matrix m'))
             (Move cur r c)
         ∧ cell m' (Z.to_nat r) (Z.to_nat c) = Some cur
         ∧ ∀ i j, (i, j) ≠ (Z.to_nat r, Z.to_nat c) →
                  cell m' i j = cell m i j).
Proof.
  intros Hshape Hm Hsel. split; [by apply validate_input_true|].
  intros (Hr & Hc & Hempty)%validate_input_true; [|done].
  destruct (format_move_read r c Hr Hc) as [Hread Hdata].
  split; [done|].
  destruct (set_cell_inside m r c cur Hshape Hr Hc) as (m' & Hset & Hcell & Hothers).
  exists m'. split; [|done].
  rewrite wait_step_Recv by done. unfold recv_step.
  rewrite Hdata, Nat.eqb_refl, Hread, Hm, Hset. done.
Qed.

Lemma accepted_click_is_committed_witness :
  validate_input (matrix room_corner_taken) 1 1 = Some true
  ↔ (0 ≤ 1 ≤ 2)%Z ∧ (0 ≤ 1 ≤ 2)%Z
    ∧ cell (matrix room_corner_taken) (Z.to_nat 1) (Z.to_nat 1) = Some 0%Z.
Proof.
  refine (proj1 (accepted_click_is_committed (matrix room_corner_taken) 1 1
                   PLAYER_TWO 2 (waiting_on room_corner_taken) _ _ _)).
  - split; [reflexivity|]. repeat constructor.
  - reflexivity.
  - reflexivity.
Defined.

(** ** Labels tell the members of a room apart *)

Lemma of_Z_inj (a b : Z) : PyStr.of_Z a = PyStr.of_Z b → a = b.
Proof.
  unfold PyStr.of_Z. intros H.
  assert (Hnn : ∀ z, Z.to_int z ≠ Decimal.Pos Decimal.Nil
                     ∧ Z.to_int z ≠ Decimal.Neg Decimal.Nil).
  { intros [|p|p]; cbn [Z.to_int]; split; try discriminate;
      intros [= E]; by apply DecimalPos.Unsigned.to_uint_nonnil in E. }
  apply (f_equal NilZero.int_of_string) in H.
  rewrite !NilZero.isi in H by apply Hnn.
  injection H as H. by apply DecimalZ.to_int_inj.
Qed.

Lemma str_nat_inj (a b : nat) : str_nat a = str_nat b → a = b.
Proof. unfold str_nat. intros H%of_Z_inj. lia. Qed.

Lemma index_same_position (c1 c2 : conn) (l : list conn) (i : nat) :
  index c1 l = Some i → index c2 l = Some i → c1 = c2.
Proof.
  intros [H1 _]%index_Some [H2 _]%index_Some. congruence.
Qed.

(** X16.  Within a room the chat label identifies the sender: two
    connections of the room, players or spectators, that get the same label
    are the same connection, and no connection of the room is labelled
    Unknown. *)
Theorem labels_identify_members (r : room) (c1 c2 : conn) :
  c1 ∈ players r ++ spectators r → c2 ∈ players r ++ spectators r →
  (get_sender_label r c1 = get_sender_label r c2 → c1 = c2)
  ∧ get_sender_label r c1 ≠ "Unknown".
Proof.
  intros H1 H2. unfold get_sender_label.
  assert (Hmember : ∀ c, c ∈ players r ++ spectators r →
            index c (players r) = None → is_Some (index c (spectators r))).
  { intros c Hc Hp. apply index_None in Hp.
    apply elem_of_app in Hc as [Hc|Hc]; [done|].
    destruct (index c (spectators r)) eqn:Hs; [eauto|].
    by apply index_None in Hs. }
  destruct (index c1 (players r)) as [i1|] eqn:Hp1.
  - split; [|done].
    destruct (index c2 (players r)) as [i2|] eqn:Hp2.
    + cbn. intros [= E%str_nat_inj].
      apply (index_same_position c1 c2 (players r) i1); [done|].
      rewrite Hp2. f_equal. lia.
    + destruct (Hmember c2 H2 Hp2) as [i2 ->]. done.
  - destruct (Hmember c1 H1 Hp1) as [i1 Hs1]. rewrite Hs1. split; [|done].
    destruct (index c2 (players r)) as [i2|] eqn:Hp2; [done|].
    destruct (Hmember c2 H2 Hp2) as [i2 Hs2]. rewrite Hs2.
    cbn. intros [= E%str_nat_inj].
    apply (index_same_position c1 c2 (spectators r) i1); [done|].
    rewrite Hs2. f_equal. lia.
Qed.

Lemma labels_identify_members_witness :
  get_sender_label room_abc 7 ≠ "Unknown".
Proof.
  refine (proj2 (labels_identify_members room_abc 7 8 _ _)).
  - apply list_elem_of_lookup_2 with 2%nat. reflexivity.
  - apply list_elem_of_lookup_2 with 3%nat. reflexivity.
Defined.

(** ** Connections that close during a wait *)

Lemma elem_closed_in (c : conn) (out : list action) :
  c ∈ closed_in out ↔ Close c ∈ out.
Proof.
  unfold closed_in. rewrite list_elem_of_omap. split.
  - intros ([ | x| ] & Hx & [= <-]). done.
  - intros H. by exists (Close c).
Qed.

(** What a pass does to the snapshot and to the closed sockets: the
    players stay in the snapshot, and what the pass closes is closed. *)
Lemma recv_step_closes (cur : Z) (tc : conn) (w : wstate) (c : conn)
    (data : string) :
  (∀ x, x ∈ players (w_room w) → x ∈ sockets w) →
  match recv_step cur tc w c data with
  | Next w' out =>
      (∀ x, x ∈ players (w_room w') → x ∈ sockets w')
      ∧ closed w ⊆ closed w' ∧ closed_in out ⊆ closed w'
  | _ => True
  end.
Proof.
  intros Hsock. unfold recv_step.
  assert (Hconns : ∀ r x, x ∈ players r → x ∈ room_conns_all r).
  { intros r x Hx. apply elem_of_app. by left. }
  destruct (is_empty data).
  { destruct (mem c (spectators (w_room w))).
    - split; [apply Hconns|]. split; [done | apply list_subseteq_nil].
    - destruct (mem c (players (w_room w))).
      + split; [apply Hconns|]. cbn [closed closed_in omap list_omap].
        split; [intros x Hx; apply elem_of_cons; by right|].
        intros x [->|Hx]%elem_of_cons;
          [apply elem_of_cons; by left | by apply elem_of_nil in Hx].
      + split; [apply Hconns|]. split; [done | apply list_subseteq_nil]. }
  destruct (if (c =? tc)%nat then _ else _) as [| |x y].
  - destruct (PyStr.startswith _ _).
    + split; [done|]. split; [done|]. unfold broadcast_chat, send_to_all.
      rewrite closed_in_sends. apply list_subseteq_nil.
    + split; [done|]. split; [done | apply list_subseteq_nil].
  - split; [done|]. split; [done | apply list_subseteq_nil].
  - by destruct (set_cell _ x y cur).
Qed.

Lemma wait_step_closes (cur : Z) (tc : conn) (w : wstate) (e : event) :
  (∀ x, x ∈ players (w_room w) → x ∈ sockets w) →
  match wait_step cur tc w e with
  | Continue w' out =>
      (∀ x, x ∈ players (w_room w') → x ∈ sockets w')
      ∧ closed w ⊆ closed w' ∧ closed_in out ⊆ closed w'
  | Return _ _ _ => True
  end.
Proof.
  intros Hsock.
  assert (Hpass : ∀ readable,
            match select_pass cur tc w readable with
            | Continue w' out =>
                (∀ x, x ∈ players (w_room w') → x ∈ sockets w')
                ∧ closed w ⊆ closed w' ∧ closed_in out ⊆ closed w'
            | Return _ _ _ => True
            end).
  { intros readable.
    apply (select_pass_run cur tc
             (λ w' out, (∀ x, x ∈ players (w_room w') → x ∈ sockets w')
                        ∧ closed w ⊆ closed w' ∧ closed_in out ⊆ closed w')
             (λ _ _ _, True)).
    - intros w1 out c data (Hs1 & Hc1 & Ho1).
      pose proof (recv_step_closes cur tc w1 c data Hs1) as H.
      destruct (recv_step cur tc w1 c data) as [w' o| |]; [|done..].
      destruct H as (Hs' & Hc' & Ho'). split; [done|].
      split; [by etrans|]. rewrite closed_in_app.
      intros x [Hx|Hx]%elem_of_app; [apply Hc', Ho1, Hx | apply Ho', Hx].
    - split; [done|]. split; [done | apply list_subseteq_nil]. }
  destruct e as [c data| | |c nsent|readable]; cbn [wait_step];
    try (split; [done|]; split; [done | apply list_subseteq_nil]).
  - apply Hpass.
  - pose proof (spectate_room_players (w_room w) c nsent) as (Hp & _).
    destruct (spectate_room (w_room w) c nsent) as [r' out].
    cbn [fst] in Hp. cbn [w_room sockets closed].
    split; [intros x Hx; apply Hsock; by rewrite <- Hp|].
    split; intros x Hx; apply elem_of_app; [by right | by left].
  - apply Hpass.
Qed.

(** A wait that has not returned goes on from the state it has reached. *)
Lemma wait_loop_blocked_app (cur : Z) (tc : conn) (evs1 : list event)
    (w : wstate) (r1 : room) (out1 : list action) :
  (∀ x, x ∈ players (w_room w) → x ∈ sockets w) →
  wait_loop cur tc w evs1 = Blocked r1 out1 →
  ∃ w1, w_room w1 = r1
        ∧ (∀ x, x ∈ players r1 → x ∈ sockets w1)
        ∧ closed_in out1 ⊆ closed w1 ∧ closed w ⊆ closed w1
        ∧ ∀ evs2, wait_loop cur tc w (evs1 ++ evs2)
                  = prepend out1 (wait_loop cur tc w1 evs2).
Proof.
  revert w out1. induction evs1 as [|e evs1 IH]; intros w out1 Hsock;
    cbn [wait_loop app].
  { intros [= <- <-]. exists w. split; [done|]. split; [done|].
    split; [apply list_subseteq_nil|]. split; [done|].
    intros evs2. by rewrite prepend_nil. }
  pose proof (wait_step_closes cur tc w e Hsock) as Hstep.
  destruct (wait_step cur tc w e) as [w' out|]; [|done].
  destruct Hstep as (Hs' & Hc' & Ho').
  destruct (wait_loop cur tc w' evs1) as [|r o] eqn:Hloop; [done|].
  cbn [prepend]. intros [= <- <-].
  destruct (IH w' o Hs' Hloop) as (w1 & Hroom & Hs1 & Ho1 & Hc1 & Happ).
  exists w1. split; [done|]. split; [done|]. split; [|split; [by etrans|]].
  - rewrite closed_in_app.
    intros x [Hx|Hx]%elem_of_app; [apply Hc1, Ho', Hx | apply Ho1, Hx].
  - intros evs2. rewrite Happ.
    destruct (wait_loop cur tc w1 evs2); cbn [prepend]; by rewrite app_assoc.
Qed.

(** X17.  A player's socket that has been closed stalls the wait: when the
    read of a player's connection returns the empty string, the loop closes
    that socket but keeps it in the list it hands to [select].  The other
    sockets that the same call of [select] returned are still read; from
    the next pass on [select] raises.  So a call of [get_input] that has
    not returned by the end of a pass in which a player was closed, or that
    was entered with a closed player, never returns, whatever arrives
    afterwards, and the players and the board stay as they were. *)
Theorem closed_player_blocks_the_game (p : conn) :
  (∀ cur tc w,
     select_reports w p = true →
     p ∈ players (w_room w) → p ∉ spectators (w_room w) →
     wait_step cur tc w (Recv p EmptyString)
     = Continue (WState (w_room w) (room_conns_all (w_room w)) (p :: closed w))
         [Close p])
  ∧ (∀ r k shut evs1 evs2 r1 out1,
       p ∈ players r →
       get_input r (current_of k) shut true evs1 = Blocked r1 out1 →
       p ∈ shut ∨ Close p ∈ out1 →
       ∃ r' out,
         get_input r (current_of k) shut true (evs1 ++ evs2) = Blocked r' out
         ∧ players r' = players r ∧ matrix r' = matrix r).
Proof.
  split.
  - intros cur tc w Hsel Hp Hs. rewrite wait_step_Recv by done.
    unfold recv_step. cbn [is_empty step_of].
    by rewrite (mem_false p _ Hs), (mem_true p _ Hp).
  - intros r k shut evs1 evs2 r1 out1 Hp Hin Hclosed.
    assert (∃ r' out, get_input r (current_of k) shut true (evs1 ++ evs2)
                      = Blocked r' out) as (r' & out & Hall).
    2:{ exists r', out. split; [done|].
        pose proof (get_input_facts r (current_of k) shut true (evs1 ++ evs2))
          as Hf.
        rewrite Hall in Hf. by destruct Hf as (? & ? & _). }
    unfold get_input in *.
    destruct (players r) as [|p0 [|p1 ps]] eqn:Hplayers; try done.
    set (tc := if (current_of k =? PLAYER_ONE)%Z then p0 else p1) in *.
    set (label := send_to_all r _ ++ [Send tc "Input"]) in *.
    destruct (wait_loop (current_of k) tc (WState r (room_conns_all r) shut) evs1)
      as [|r1' o1] eqn:Hloop; [done|].
    injection Hin as <- <-.
    destruct (wait_loop_blocked_app (current_of k) tc evs1
                (WState r (room_conns_all r) shut) r1' o1)
      as (w1 & Hroom & Hsock & Hout & Hshut & Happ); [|exact Hloop|].
    { intros x Hx. cbn [w_room sockets] in *. apply elem_of_app. by left. }
    pose proof (wait_loop_facts (current_of k) tc evs1
                  (WState r (room_conns_all r) shut)) as Hf.
    rewrite Hloop in Hf. destruct Hf as (Hp1 & _). cbn [w_room] in Hp1.
    destruct (wait_loop_stuck (current_of k) tc evs2 w1 p) as (r' & o' & Hstuck).
    + apply Hsock. by rewrite Hp1, Hplayers.
    + destruct Hclosed as [Hc|Hc]; [by apply Hshut|]. apply Hout.
      apply elem_closed_in. subst label. unfold send_to_all in Hc.
      apply elem_of_app in Hc as [Hc|Hc]; [|done].
      apply elem_of_app in Hc as [Hc|Hc].
      { apply list_elem_of_fmap in Hc as (? & [=] & _). }
      apply elem_of_cons in Hc as [[=]|Hc]. by apply elem_of_nil in Hc.
    + rewrite Happ, Hstuck. cbn [prepend]. eauto.
Qed.

Lemma closed_player_blocks_the_game_witness :
  ∃ r' out,
    get_input room_abc (current_of 0) [] true
      ([Select [Data 2 EmptyString; Data 7 "CHAT:hello"]] ++ quick_win)
    = Blocked r' out
    ∧ players r' = players room_abc ∧ matrix r' = matrix room_abc.
Proof.
  refine (proj2 (closed_player_blocks_the_game 2) room_abc 0 []
            [Select [Data 2 EmptyString; Data 7 "CHAT:hello"]] quick_win
            room_abc _ _ _ _).
  - apply list_elem_of_lookup_2 with 1%nat. reflexivity.
  - reflexivity.
  - right. apply list_elem_of_lookup_2 with 5%nat. reflexivity.
Defined.

(** X23.  The sockets that one call of [select] returned are all read in
    the same pass.  When the read of the player who is not the mover
    returns the empty string and the mover's move comes behind it in the
    same pass, the socket is closed and the move is still committed: the
    call returns with the board written and broadcast.  When the move comes
    first, the call returns without reading the other socket.  When the two
    reads are met in two passes, the second pass never reads anything and
    the call does not return. *)
Theorem pass_goes_on_after_player_eof (r : room) (k : nat) (p : conn)
    (data : string) (x y : Z) (evs : list event) :
  (2 ≤ length (players r))%nat → board_3x3 (matrix r) →
  p ∈ players r → p ∉ spectators r → p ≠ mover r k →
  is_empty data = false →
  move_of_text (PyStr.strip data) = Coords x y →
  (0 ≤ x ≤ 2)%Z → (0 ≤ y ≤ 2)%Z →
  let cur := current_of k in
  let tc := mover r k in
  let prompt :=
    send_to_all r (if (cur =? PLAYER_ONE)%Z then "Player One's Turn"
                   else "Player Two's Turn")
    ++ [Send tc "Input"] in
  ∃ m',
    set_cell (matrix r) x y cur = Some m'
    ∧ get_input r cur [] true (Select [Data p EmptyString; Data tc data] :: evs)
      = Returned (with_matrix m' r)
          (prompt ++ [Close p]
           ++ send_to_all (with_matrix m' r) "Matrix"
           ++ send_to_all (with_matrix m' r) (str_matrix m'))
          (Some (Move cur x y)) evs
    ∧ get_input r cur [] true (Select [Data tc data; Data p EmptyString] :: evs)
      = Returned (with_matrix m' r)
          (prompt
           ++ send_to_all (with_matrix m' r) "Matrix"
           ++ send_to_all (with_matrix m' r) (str_matrix m'))
          (Some (Move cur x y)) evs
    ∧ ∃ r' out,
        get_input r cur [] true (Recv p EmptyString :: Recv tc data :: evs)
        = Blocked r' out
        ∧ matrix r' = matrix r.
Proof.
  intros Hlen Hshape Hp Hs Hne Hdata Hmove Hx Hy cur tc prompt.
  destruct (set_cell_inside (matrix r) x y cur Hshape Hx Hy) as (m' & Hset & _).
  exists m'. split; [done|].
  assert (Hblocked : ∃ r' out,
            get_input r cur [] true (Recv p EmptyString :: Recv tc data :: evs)
            = Blocked r' out ∧ matrix r' = matrix r).
  { destruct (player_disconnect_blocks r k p (Recv tc data :: evs) Hlen Hp Hs)
      as (r' & out & Hin).
    exists r', out. split; [done|].
    pose proof (get_input_facts r cur [] true
                  (Recv p EmptyString :: Recv tc data :: evs)) as Hf.
    fold cur in Hin. rewrite Hin in Hf. by destruct Hf as (_ & ? & _). }
  subst prompt tc cur. unfold get_input, mover in *.
  destruct (players r) as [|p0 [|p1 ps]] eqn:Hplayers; simpl in Hlen; try lia.
  set (tc := if (current_of k =? PLAYER_ONE)%Z then p0 else p1) in *.
  assert (Htc : mem tc (room_conns_all r) = true).
  { apply mem_true. unfold room_conns_all. rewrite Hplayers.
    apply elem_of_app. left. subst tc.
    destruct (current_of k =? PLAYER_ONE)%Z;
      [apply elem_of_cons; by left|].
    apply elem_of_cons. right. apply elem_of_cons. by left. }
  assert (Hpin : mem p (room_conns_all r) = true).
  { apply mem_true. unfold room_conns_all. rewrite Hplayers.
    apply elem_of_app. by left. }
  assert (Hpp : mem p (players r) = true) by (apply mem_true; by rewrite Hplayers).
  assert (Htcp : mem tc [p] = false).
  { apply mem_false. intros ->%list_elem_of_singleton. done. }
  split; [|split; [|done]].
  - cbn [wait_loop wait_step]. unfold select_pass, select_raises.
    cbn [sockets closed w_room]. rewrite no_socket_closed.
    cbn [negb for_readable read_step closed]. rewrite Hpin.
    cbn [negb mem index]. unfold recv_step at 1.
    cbn [is_empty w_room closed]. rewrite (mem_false p _ Hs), Hpp.
    cbn [closed]. rewrite Htc, Htcp. cbn [negb]. unfold recv_step.
    cbn [w_room]. rewrite Hdata, Nat.eqb_refl, Hmove, Hset.
    cbn [prepend app]. by rewrite <- !app_assoc.
  - cbn [wait_loop wait_step]. unfold select_pass, select_raises.
    cbn [sockets closed w_room]. rewrite no_socket_closed.
    cbn [negb for_readable read_step closed]. rewrite Htc.
    cbn [negb mem index]. unfold recv_step.
    cbn [w_room]. rewrite Hdata, Nat.eqb_refl, Hmove, Hset.
    cbn [prepend app]. by rewrite <- !app_assoc.
Qed.

Lemma pass_goes_on_after_player_eof_witness :
  ∃ m',
    set_cell (matrix room_two) 1 1 (current_of 1) = Some m'
    ∧ get_input room_two (current_of 1) [] true
        (Select [Data 1 EmptyString; Data 2 "1,1"] :: [])
      = Returned (with_matrix m' room_two)
          ((send_to_all room_two "Player Two's Turn" ++ [Send 2 "Input"])
           ++ [Close 1]
           ++ send_to_all (with_matrix m' room_two) "Matrix"
           ++ send_to_all (with_matrix m' room_two) (str_matrix m'))
          (Some (Move (current_of 1) 1 1)) [].
Proof.
  destruct (pass_goes_on_after_player_eof room_two 1 1 "1,1" 1 1 [])
    as (m' & H1 & H2 & _).
  - simpl. lia.
  - split; [reflexivity|]. repeat constructor.
  - apply list_elem_of_lookup_2 with 0%nat. reflexivity.
  - by apply index_None.
  - discriminate.
  - reflexivity.
  - reflexivity.
  - lia.
  - lia.
  - exists m'. split; [exact H1 | exact H2].
Defined.

Lemma get_input_shut (r : room) (cur : Z) (shut : list conn) (ok : bool)
    (evs : list event) (p : conn) :
  p ∈ players r → p ∈ shut →
  match get_input r cur shut ok evs with
  | Returned r' out mv rest =>
      r' = r ∧ mv = None ∧ rest = evs
      ∧ (ok = false ∨ (length (players r) < 2)%nat)
      ∧ closed_in out = []
  | Blocked r' out =>
      players r' = players r ∧ matrix r' = matrix r ∧ ok = true
  end.
Proof.
  intros Hp Hshut.
  pose proof (get_input_facts r cur shut ok evs) as Hf.
  unfold get_input in *.
  destruct (players r) as [|p0 [|p1 ps]] eqn:Hplayers.
  - repeat split; try done. right. simpl. lia.
  - repeat split; try done. right. simpl. lia.
  - destruct ok.
    + destruct (wait_loop_stuck cur (if (cur =? PLAYER_ONE)%Z then p0 else p1)
                  evs (WState r (room_conns_all r) shut) p) as (r' & o & Hloop).
      * cbn [sockets]. unfold room_conns_all. rewrite Hplayers.
        apply elem_of_app. by left.
      * done.
      * rewrite Hloop in Hf |- *. cbn [prepend] in *.
        by destruct Hf as (? & ? & _).
    + repeat split; try done; [by left|]. unfold send_to_all.
      by rewrite !closed_in_app, closed_in_sends.
Qed.

(** X24.  Once the socket of a player has been closed, the game of the room
    commits no further move: whatever arrives and however long the loop
    runs, the committed moves, the board and the players stay as they are.
    An iteration of a two-player game whose prompt is sent never ends, so
    the loop can only reach its end through iterations whose prompt
    fails. *)
Theorem no_move_after_player_closed (ok : nat → bool) (p : conn) (fuel : nat)
    (st : engine) (evs : list event) :
  p ∈ players (e_room st) → p ∈ closed_in (e_out st) →
  let st' := final_state (game_loop fuel ok st evs) in
  e_moves st' = e_moves st
  ∧ matrix (e_room st') = matrix (e_room st)
  ∧ players (e_room st') = players (e_room st)
  ∧ ((2 ≤ length (players (e_room st)))%nat →
     (result st = 0%Z → (turn_count st < 9)%nat → (0 < fuel)%nat →
      ok (turn_count st) = true →
      ∃ s, game_loop fuel ok st evs = Waiting s
           ∧ turn_count s = turn_count st)
     ∧ (∀ s, game_loop fuel ok st evs = Exit s →
          ∀ j, (turn_count st ≤ j < turn_count s)%nat → ok j = false)).
Proof.
  revert st evs. induction fuel as [|fuel IH]; intros st evs Hp Hshut;
    cbn [game_loop].
  { destruct ((result st =? 0)%Z && (turn_count st <? 9)%nat);
      cbn [final_state]; repeat split; try done; try lia.
    intros s [= <-] j Hj. lia. }
  destruct ((result st =? 0)%Z && (turn_count st <? 9)%nat) eqn:Hcond.
  2:{ cbn [final_state]. repeat split; try done.
      - intros Hres Htc. apply andb_false_iff in Hcond as [Hc|Hc].
        + by apply Z.eqb_neq in Hc.
        + apply Nat.ltb_ge in Hc. lia.
      - intros s [= <-] j Hj. lia. }
  pose proof (get_input_shut (e_room st) (current_of (turn_count st))
                (closed_in (e_out st)) (ok (turn_count st)) evs p Hp Hshut)
    as Hin.
  destruct (get_input _ _ _ _ evs) as [r out mv rest|r out].
  - destruct Hin as (-> & -> & -> & Hwhy & Hout). cbn [logged].
    rewrite app_nil_r.
    destruct (check_winner (matrix (e_room st))) as [res|].
    + specialize (IH (Engine (e_room st) res (S (turn_count st))
                        (e_out st ++ out) (e_moves st)) evs).
      cbn [e_room e_out e_moves turn_count] in IH.
      destruct IH as (Hm & Hb & Hpl & Hrun); [done| |].
      { rewrite closed_in_app. apply elem_of_app. by left. }
      split; [done|]. split; [done|]. split; [done|].
      intros Hlen. destruct (Hrun Hlen) as [_ Hexit].
      destruct Hwhy as [Hfail|Hfew]; [|lia]. split.
      * intros _ _ _ Hok. congruence.
      * intros s Hs j Hj.
        destruct (decide (j = turn_count st)) as [->|Hne]; [done|].
        apply (Hexit s Hs). lia.
    + cbn [final_state e_room e_moves]. repeat split; try done.
      intros _ _ _ Hok. destruct Hwhy as [Hfail|Hfew]; [congruence | lia].
  - destruct Hin as (Hpl & Hb & Hok). cbn [final_state e_room e_moves].
    repeat split; try done. intros _ _ _ _. eexists. split; [done|]. done.
Qed.

Lemma no_move_after_player_closed_witness :
  e_moves (final_state
             (game_loop 8 always
                (Engine (with_matrix [[0; 0; 0]; [0; 2; 0]; [0; 0; 0]]%Z room_two)
                   0 2 [Close 1] [(1%nat, Move PLAYER_TWO 1 1)])
                quick_win))
  = [(1%nat, Move PLAYER_TWO 1 1)].
Proof.
  refine (proj1 (no_move_after_player_closed always 1 8
                   (Engine (with_matrix [[0; 0; 0]; [0; 2; 0]; [0; 0; 0]]%Z
                              room_two)
                      0 2 [Close 1] [(1%nat, Move PLAYER_TWO 1 1)])
                   quick_win _ _)).
  - apply list_elem_of_lookup_2 with 0%nat. reflexivity.
  - apply list_elem_of_lookup_2 with 0%nat. reflexivity.
Defined.

Lemma remove_other (c x : conn) (l : list conn) :
  x ≠ c → x ∈ l → x ∈ remove c l.
Proof.
  intros Hne. induction l as [|c' l IH]; simpl; [done|].
  destruct (Nat.eqb_spec c' c) as [->|Hc].
  - intros [->|H]%elem_of_cons; done.
  - intros [->|H]%elem_of_cons; apply elem_of_cons; [by left | right; by apply IH].
Qed.

Lemma remove_gone (c : conn) (l : list conn) : NoDup l → c ∉ remove c l.
Proof.
  induction 1 as [|c' l Hc' Hnd IH]; simpl; [apply not_elem_of_nil|].
  destruct (Nat.eqb_spec c' c) as [->|Hne]; [done|].
  apply not_elem_of_cons. split; [congruence | done].
Qed.

(** X18.  When the read of a spectator's connection returns the empty
    string, the spectator is taken out of the room and nothing is sent to
    anybody; players and board are untouched and the wait goes on.  If the
    spectator was listed once and is not a player, no later broadcast
    reaches it, while everybody else in the room still receives every
    broadcast. *)
Theorem closed_spectator_leaves_silently (cur : Z) (tc : conn) (w : wstate)
    (c : conn) :
  select_reports w c = true → c ∈ spectators (w_room w) →
  ∃ r',
    wait_step cur tc w (Recv c EmptyString)
    = Continue (WState r' (room_conns_all r') (closed w)) []
    ∧ players r' = players (w_room w) ∧ matrix r' = matrix (w_room w)
    ∧ (∀ x t, x ≠ c → Send x t ∈ send_to_all (w_room w) t →
              Send x t ∈ send_to_all r' t)
    ∧ (NoDup (spectators (w_room w)) → c ∉ players (w_room w) →
       ∀ t, Send c t ∉ send_to_all r' t).
Proof.
  intros Hsel Hc.
  exists (with_spectators (remove c (spectators (w_room w))) (w_room w)).
  split; [|split; [done|split; [done|split]]].
  - rewrite wait_step_Recv by done. unfold recv_step. cbn [is_empty].
    by rewrite (mem_true c _ Hc).
  - intros x t Hne. unfold send_to_all, room_conns_all.
    cbn [players spectators with_spectators].
    rewrite !list_elem_of_fmap. intros (y & [= ->] & Hy). exists y.
    split; [done|]. apply elem_of_app in Hy as [Hy|Hy]; apply elem_of_app;
      [by left | right; by apply remove_other].
  - intros Hnd Hp t. unfold send_to_all, room_conns_all.
    cbn [players spectators with_spectators].
    rewrite list_elem_of_fmap. intros (y & [= <-] & Hy).
    apply elem_of_app in Hy as [Hy|Hy]; [done|].
    by apply (remove_gone c (spectators (w_room w))).
Qed.

Lemma closed_spectator_leaves_silently_witness :
  ∃ r',
    wait_step PLAYER_ONE 1 (waiting_on room_abc) (Recv 7 EmptyString)
    = Continue (WState r' (room_conns_all r') []) []
    ∧ players r' = [1; 2]%nat ∧ matrix r' = empty_board.
Proof.
  destruct (closed_spectator_leaves_silently PLAYER_ONE 1
              (waiting_on room_abc) 7) as (r' & H1 & H2 & H3 & _).
  - reflexivity.
  - apply list_elem_of_lookup_2 with 0%nat. reflexivity.
  - exists r'. split; [exact H1|]. split; [exact H2 | exact H3].
Defined.

(** X19.  A text sent out of turn is discarded: a message that is not the
    read of a closed stream, does not start with CHAT: once stripped, and
    comes from a connection that is not the mover, be it the other player
    or a spectator, changes nothing and is answered by nothing, even when it
    reads as a move; the loop carries on as if it had not arrived. *)
Theorem out_of_turn_text_discarded (cur : Z) (tc : conn) (w : wstate)
    (c : conn) (data : string) (evs : list event) :
  c ≠ tc → is_empty data = false →
  PyStr.startswith "CHAT:" (PyStr.strip data) = false →
  wait_step cur tc w (Recv c data) = Continue w []
  ∧ wait_loop cur tc w (Recv c data :: evs) = wait_loop cur tc w evs.
Proof.
  intros Hne Hdata Hchat.
  assert (Hstep : wait_step cur tc w (Recv c data) = Continue w []).
  { destruct (select_reports w c) eqn:Hsel; [|by apply wait_step_unreported].
    rewrite wait_step_Recv by done. unfold recv_step.
    rewrite Hdata. destruct (Nat.eqb_spec c tc); [done|]. by rewrite Hchat. }
  split; [done | by apply wait_loop_continue].
Qed.

Lemma out_of_turn_text_discarded_witness :
  wait_step PLAYER_ONE 1 (waiting_on room_abc) (Recv 2 "1,1")
  = Continue (waiting_on room_abc) [].
Proof.
  refine (proj1 (out_of_turn_text_discarded PLAYER_ONE 1 (waiting_on room_abc)
                   2 "1,1" [] _ _ _)).
  - discriminate.
  - reflexivity.
  - reflexivity.
Defined.

(** ** A game in which every prompt is delivered *)

(** X20.  In a game of two players in which every prompt is delivered, as
    many moves have been committed as iterations have run, whatever
    arrives.  So when such a game ends without a winner, nine moves have
    been committed, the i-th of them in iteration i and with the mark that
    the parity of i gives: a draw is announced after nine moves only. *)
Theorem draw_needs_nine_moves (ok : nat → bool) (r : room)
    (evs : list event) :
  board_3x3 (matrix r) → (2 ≤ length (players r))%nat →
  (∀ j, (j < 9)%nat → ok j = true) →
  let run := game_loop 9 ok (initial r) evs in
  length (e_moves (final_state run)) = turn_count (final_state run)
  ∧ (∀ st, run = Exit st → result st = 0%Z →
       length (e_moves st) = 9%nat
       ∧ ∀ i, (i < 9)%nat →
              ∃ mv, e_moves st !! i = Some (i, mv) ∧ mark mv = current_of i).
Proof.
  intros Hshape Hlen Hall run.
  pose proof (game_loop_safe ok r evs (moves_inv ok r) Hshape
                (moves_inv_initial ok r) (moves_inv_step ok r)) as Hsafe.
  assert (Hcount : ∀ s, moves_inv ok r s →
            length (e_moves s) = turn_count s).
  { intros s (_ & _ & Hseq & _).
    rewrite <- (length_fmap fst), (Hseq Hall Hlen). apply length_seq. }
  subst run. destruct (game_loop 9 ok (initial r) evs) as [s|s|s|s];
    cbn [final_state]; try done.
  - destruct Hsafe as (_ & Hq & _ & _ & Hexit). split; [by apply Hcount|].
    intros st [= <-] Hres. destruct Hexit as [|Htc]; [done|].
    pose proof (Hcount s Hq) as Hn. rewrite Htc in Hn. split; [done|].
    intros i Hi. destruct Hq as (Hmark & _ & Hseq & _).
    destruct (lookup_lt_is_Some_2 (e_moves s) i ltac:(lia)) as [[k mv] Hk].
    assert ((e_moves s).*1 !! i = Some k) as Hfst
      by (by rewrite list_lookup_fmap, Hk).
    rewrite (Hseq Hall Hlen) in Hfst. apply lookup_seq in Hfst as [-> _].
    exists mv. split; [done|]. by destruct (Hmark i i mv Hk).
  - destruct Hsafe as (s0 & _ & Hq & _ & _ & evs' & r' & out & _ & ->).
    cbn [e_moves turn_count]. split; [by apply Hcount|]. done.
Qed.

Lemma draw_needs_nine_moves_witness :
  length (e_moves (final_state (game_loop 9 always (initial room_two)
                                  drawn_game)))
  = turn_count (final_state (game_loop 9 always (initial room_two) drawn_game)).
Proof.
  refine (proj1 (draw_needs_nine_moves always room_two drawn_game _ _ _)).
  - split; [reflexivity|]. repeat constructor.
  - simpl. lia.
  - intros j _. reflexivity.
Defined.

(** ** The directory that handshakes build *)

Lemma handshake_code_upper (first : string) :
  PyStr.upper (handshake first).2 = (handshake first).2.
Proof.
  unfold handshake.
  destruct (PyStr.partition " " (PyStr.strip first)) as [verb name].
  cbn [snd]. apply upper_idem.
Qed.

Lemma intake_wf (rooms : gmap string room) (c : conn) (a : addr)
    (first : string) (nsent : nat) :
  directory_wf rooms →
  directory_wf (start_server_iter rooms c a first nsent).1.
Proof.
  intros Hwf. unfold start_server_iter.
  pose proof (handshake_code_upper first) as Hup.
  destruct (handshake first) as [verb name0]. cbn [snd] in Hup.
  destruct (negb _ || is_empty name0) eqn:Hbad; cbn [fst]; [done|].
  apply orb_false_elim in Hbad as [_ Hne].
  assert (Hne' : name0 ≠ EmptyString) by (by destruct name0).
  destruct (String.eqb verb "ROOM"); cbn [fst].
  - unfold join_room. destruct (rooms !! name0) as [r0|] eqn:Hr0.
    + destruct (Nat.eqb_spec (length (players r0)) 1) as [Hone|_];
        cbn [dir]; [|done].
      intros name r. destruct (decide (name0 = name)) as [<-|Hn].
      * rewrite lookup_insert_eq. intros [= <-].
        destruct (Hwf name0 r0 Hr0) as (? & ? & ? & ? & Hla & ?).
        cbn [add_player code matrix addrs players].
        rewrite !length_app, Hla, Hone. cbn [length]. repeat split; try done; lia.
      * rewrite lookup_insert_ne by done. apply Hwf.
    + cbn [dir]. intros name r. destruct (decide (name0 = name)) as [<-|Hn].
      * rewrite lookup_insert_eq. intros [= <-].
        cbn [new_room code matrix addrs players length]. repeat split; try done; lia.
      * rewrite lookup_insert_ne by done. apply Hwf.
  - unfold join_as_spectator.
    pose proof (spectate_room_frame
                  (default (new_room name0 [] []) (rooms !! name0)) c nsent)
      as (Hp & Ha & Hm & Hc).
    destruct (spectate_room _ c nsent) as [r' out]. cbn [fst snd] in *.
    intros name r. destruct (decide (name0 = name)) as [<-|Hn].
    + rewrite lookup_insert_eq. intros [= <-]. rewrite Hp, Ha, Hm, Hc.
      destruct (rooms !! name0) as [r0|] eqn:Hr0; cbn [default].
      * apply (Hwf name0 r0 Hr0).
      * cbn [new_room code matrix addrs players length]. repeat split; try done; lia.
    + rewrite lookup_insert_ne by done. apply Hwf.
Qed.

Lemma serve_wf (l : list arrival) (rooms : gmap string room) :
  directory_wf rooms → directory_wf (serve rooms l).1.
Proof.
  revert rooms. induction l as [|x l IH]; intros rooms Hwf; cbn [serve]; [done|].
  pose proof (intake_wf rooms (a_conn x) (a_addr x) (a_first x) (a_nsent x)
                Hwf) as Hstep.
  destruct (start_server_iter rooms (a_conn x) (a_addr x) (a_first x)
              (a_nsent x)) as [rooms1 out1].
  specialize (IH rooms1 Hstep).
  by destruct (serve rooms1 l) as [rooms2 out2].
Qed.

Lemma directory_wf_empty : directory_wf ∅.
Proof. intros name r Hr. by rewrite lookup_empty in Hr. Qed.

(** X21.  In every directory reached from the empty one by handshakes
    alone, each room is filed under its own code, a non-empty text in upper
    case; it holds the empty 3x3 board, as many addresses as players and at
    most two players.  No handshake ever writes a mark. *)
Theorem served_directory_well_formed (l : list arrival) :
  directory_wf (serve ∅ l).1.
Proof. exact (serve_wf l ∅ directory_wf_empty). Qed.

(** ** From the intake to the engine *)



